(** * tiny-idb-helper: a key-value store over IndexedDB with a memory fallback

    Shallow embedding of the "Simplified Version" of [TinyIDBHelper]
    (configure, the lazy initialisation gate, the value codec and the
    CRUD, numeric and enumeration operations) and the properties its
    specification states about them.

    Layout: the JavaScript value universe and the JSON codec the helper
    calls; the helper object and its environment (the IndexedDB
    collaborator); the operations, in a state-and-exception monad; the
    interleaving model of the initialisation gate; then the lemmas.

    Embedded: [configure], [_initialize], [_doInitialize],
    [_openDatabase], [getItem], [setItem], [removeItem], [nullify],
    [increment], [decrement], [toggle], [append], [prepend], [keys],
    [values], [entries], [replaceAll], [length], [has],
    [isUsingMemoryFallback], [clear]; and, in the module [ESModule],
    the "ES Module Version" of the same file, which keeps one object
    store per key: its [configure], [_initialize], [_doInitialize],
    [_openDatabase], [_ensureObjectStore], [getItem], [setItem],
    [isUsingMemoryFallback] and [clear]. *)

From Stdlib Require Import ZArith Ascii String Decimal DecimalString DecimalPos DecimalZ Lia.
From stdpp Require Import base option list gmap strings.

Local Open Scope Z_scope.

#[local] Set Warnings "-register-all".

(** ** JavaScript values *)

(** The numbers that are not finite: [NaN], [Infinity] and
    [-Infinity]. *)
Inductive non_finite : Type :=
| NaN
| PosInfinity
| NegInfinity.

(** The values the helper stores.  Numbers are the integers, as far as
    they are finite, and the three numbers that are not (an integer
    beyond [2^53] that is not a double stands for no number of the
    program); strings are sequences of 8-bit code units.  [VCyclic] stands for an object whose
    property graph contains a cycle, the structure [JSON.stringify]
    throws on. *)
Inductive value : Type :=
| VUndefined
| VNull
| VBool (b : bool)
| VNum (n : Z)
| VStr (s : string)
| VArr (items : list value)
| VObj (props : list (string * value))
| VCyclic
| VNonFinite (x : non_finite).

(** The results of the [typeof] operator that the helper tests. *)
Inductive js_type : Type :=
| TUndefined | TObject | TBoolean | TNumber | TString.

Definition typeof (v : value) : js_type :=
  match v with
  | VUndefined => TUndefined
  | VNull | VArr _ | VObj _ | VCyclic => TObject
  | VBool _ => TBoolean
  | VNum _ | VNonFinite _ => TNumber
  | VStr _ => TString
  end.

Definition is_string (v : value) : option string :=
  match v with VStr s => Some s | _ => None end.

(** Strict equality with [null]: [v !== null]. *)
Definition not_null (v : value) : bool :=
  match v with VNull => false | _ => true end.

(** Induction over values that reaches inside arrays and objects. *)
Section value_induction.
Variable P : value -> Prop.
Hypothesis Hundef : P VUndefined.
Hypothesis Hnull : P VNull.
Hypothesis Hbool : forall b, P (VBool b).
Hypothesis Hnum : forall n, P (VNum n).
Hypothesis Hstr : forall s, P (VStr s).
Hypothesis Harr : forall l, Forall P l -> P (VArr l).
Hypothesis Hobj : forall l, Forall (fun kv => P (snd kv)) l -> P (VObj l).
Hypothesis Hcyc : P VCyclic.
Hypothesis Hnonfin : forall x, P (VNonFinite x).

Fixpoint value_nested_ind (v : value) : P v :=
  match v with
  | VUndefined => Hundef
  | VNull => Hnull
  | VBool b => Hbool b
  | VNum n => Hnum n
  | VStr s => Hstr s
  | VArr l =>
      Harr l ((fix go (l : list value) : Forall P l :=
                 match l with
                 | [] => List.Forall_nil P
                 | x :: r => List.Forall_cons P x r (value_nested_ind x) (go r)
                 end) l)
  | VObj l =>
      Hobj l ((fix go (l : list (string * value))
                 : Forall (fun kv => P (snd kv)) l :=
                 match l with
                 | [] => List.Forall_nil _
                 | kv :: r =>
                     List.Forall_cons (fun kv => P (snd kv)) kv r
                       (value_nested_ind (snd kv)) (go r)
                 end) l)
  | VCyclic => Hcyc
  | VNonFinite x => Hnonfin x
  end.
End value_induction.

(** ** The JSON codec: [JSON.stringify] and [JSON.parse] *)

Module JSON.

Definition dquote : ascii := "034"%char.
Definition backslash : ascii := "092"%char.

Definition hex_digit (n : nat) : ascii :=
  nth n (list_ascii_of_string "0123456789abcdef") "0"%char.

(** One code unit of a quoted string: the two-character escapes of the
    standard's table, [\u00xx] for the other control characters, the
    character itself otherwise. *)
Definition quote_char (c : ascii) : string :=
  if Ascii.eqb c dquote then String backslash (String dquote "")
  else if Ascii.eqb c backslash then String backslash (String backslash "")
  else if Ascii.eqb c "008" then String backslash "b"
  else if Ascii.eqb c "009" then String backslash "t"
  else if Ascii.eqb c "010" then String backslash "n"
  else if Ascii.eqb c "012" then String backslash "f"
  else if Ascii.eqb c "013" then String backslash "r"
  else if (nat_of_ascii c <? 32)%nat then
    String backslash
      (String "u" (String "0" (String "0"
         (String (hex_digit (nat_of_ascii c / 16))
            (String (hex_digit (nat_of_ascii c mod 16)) "")))))
  else String c "".

Fixpoint quote_body (s : string) : string :=
  match s with
  | EmptyString => ""
  | String c r => quote_char c +:+ quote_body r
  end.

Definition QuoteJSONString (s : string) : string :=
  String dquote (quote_body s +:+ String dquote "").

(** The text of a finite number: the decimal digits of the integer.
    ([JSON.stringify] writes the integers from [10^21] on with an
    exponent; the number read back is the same.) *)
Definition number_to_string (n : Z) : string :=
  NilZero.string_of_int (Z.to_int n).

(** What serialising one value yields: a thrown [TypeError], the value
    [undefined] (no text), or text. *)
Inductive serialized : Type :=
| Throws
| NoText
| Text (t : string).

Fixpoint SerializeJSONProperty (v : value) : serialized :=
  match v with
  | VUndefined => NoText
  | VNull => Text "null"
  | VBool true => Text "true"
  | VBool false => Text "false"
  | VNum n => Text (number_to_string n)
  | VStr s => Text (QuoteJSONString s)
  | VArr l =>
      match (fix elements (l : list value) : option (list string) :=
               match l with
               | [] => Some []
               | e :: r =>
                   match SerializeJSONProperty e with
                   | Throws => None
                   | NoText => cons "null" <$> elements r
                   | Text t => cons t <$> elements r
                   end
               end) l with
      | None => Throws
      | Some parts => Text ("[" +:+ String.concat "," parts +:+ "]")
      end
  | VObj l =>
      match (fix members (l : list (string * value)) : option (list string) :=
               match l with
               | [] => Some []
               | (k, e) :: r =>
                   match SerializeJSONProperty e with
                   | Throws => None
                   | NoText => members r
                   | Text t => cons (QuoteJSONString k +:+ ":" +:+ t) <$> members r
                   end
               end) l with
      | None => Throws
      | Some parts => Text ("{" +:+ String.concat "," parts +:+ "}")
      end
  | VCyclic => Throws
  | VNonFinite _ => Text "null"
  end.

(** [JSON.stringify(v)]. *)
Definition stringify (v : value) : serialized := SerializeJSONProperty v.

(** *** Parsing *)

Definition is_ws (c : ascii) : bool :=
  Ascii.eqb c " " || Ascii.eqb c "009" || Ascii.eqb c "010" || Ascii.eqb c "013".

Fixpoint skip_ws (s : string) : string :=
  match s with
  | String c r => if is_ws c then skip_ws r else s
  | EmptyString => ""
  end.

Definition is_digit (c : ascii) : bool :=
  (48 <=? nat_of_ascii c)%nat && (nat_of_ascii c <=? 57)%nat.

Definition hex_value (c : ascii) : option nat :=
  let n := nat_of_ascii c in
  if (48 <=? n)%nat && (n <=? 57)%nat then Some (n - 48)%nat
  else if (97 <=? n)%nat && (n <=? 102)%nat then Some (n - 87)%nat
  else if (65 <=? n)%nat && (n <=? 70)%nat then Some (n - 55)%nat
  else None.

(** The code unit of [\uhhhh]; code units above 255 are outside the
    modelled strings. *)
Definition hex4 (a b c d : ascii) : option ascii :=
  match hex_value a, hex_value b, hex_value c, hex_value d with
  | Some x, Some y, Some z, Some w =>
      let n := (((x * 16 + y) * 16 + z) * 16 + w)%nat in
      if (n <? 256)%nat then Some (ascii_of_nat n) else None
  | _, _, _, _ => None
  end.

Definition unescape (e : ascii) : option ascii :=
  if Ascii.eqb e dquote then Some dquote
  else if Ascii.eqb e backslash then Some backslash
  else if Ascii.eqb e "/" then Some "/"%char
  else if Ascii.eqb e "b" then Some "008"%char
  else if Ascii.eqb e "f" then Some "012"%char
  else if Ascii.eqb e "n" then Some "010"%char
  else if Ascii.eqb e "r" then Some "013"%char
  else if Ascii.eqb e "t" then Some "009"%char
  else None.

(** The characters of a string literal after its opening quote, up to
    and including the closing quote. *)
Fixpoint parse_string_body (s : string) : option (string * string) :=
  match s with
  | EmptyString => None
  | String c r =>
      if Ascii.eqb c dquote then Some ("", r)
      else if Ascii.eqb c backslash then
        match r with
        | String e r' =>
            if Ascii.eqb e "u" then
              match r' with
              | String h1 (String h2 (String h3 (String h4 r''))) =>
                  match hex4 h1 h2 h3 h4 with
                  | Some u =>
                      match parse_string_body r'' with
                      | Some (t, rest) => Some (String u t, rest)
                      | None => None
                      end
                  | None => None
                  end
              | _ => None
              end
            else
              match unescape e with
              | Some u =>
                  match parse_string_body r' with
                  | Some (t, rest) => Some (String u t, rest)
                  | None => None
                  end
              | None => None
              end
        | EmptyString => None
        end
      else if (nat_of_ascii c <? 32)%nat then None
      else
        match parse_string_body r with
        | Some (t, rest) => Some (String c t, rest)
        | None => None
        end
  end.

Fixpoint span_digits (s : string) : string * string :=
  match s with
  | String c r =>
      if is_digit c then
        let '(d, rest) := span_digits r in (String c d, rest)
      else ("", s)
  | EmptyString => ("", "")
  end.

(** After the digits of an integer: a fraction or an exponent would
    denote a number outside the modelled integers. *)
Definition integer_ends (rest : string) : bool :=
  match rest with
  | String c _ =>
      negb (Ascii.eqb c "." || Ascii.eqb c "e" || Ascii.eqb c "E")
  | EmptyString => true
  end.

Definition leading_zero (ds : string) : bool :=
  match ds with
  | String c (String _ _) => Ascii.eqb c "0"
  | _ => false
  end.

Definition parse_unsigned (s : string) : option (Z * string) :=
  let '(ds, rest) := span_digits s in
  match ds with
  | EmptyString => None
  | String _ _ =>
      if leading_zero ds then None
      else if integer_ends rest then
        match NilEmpty.uint_of_string ds with
        | Some u => Some (Z.of_uint u, rest)
        | None => None
        end
      else None
  end.

Definition parse_number (s : string) : option (Z * string) :=
  match s with
  | String c r =>
      if Ascii.eqb c "-" then
        match parse_unsigned r with
        | Some (n, rest) => Some (- n, rest)
        | None => None
        end
      else parse_unsigned s
  | EmptyString => None
  end.

Fixpoint expect (lit rest : string) : option string :=
  match lit with
  | EmptyString => Some rest
  | String c lit' =>
      match rest with
      | String c' rest' => if Ascii.eqb c c' then expect lit' rest' else None
      | EmptyString => None
      end
  end.

(** An object built property by property: a repeated key keeps its
    first position and takes the last value. *)
Fixpoint define_property (k : string) (v : value) (o : list (string * value))
  : list (string * value) :=
  match o with
  | [] => [(k, v)]
  | (k', v') :: r =>
      if String.eqb k k' then (k, v) :: r
      else (k', v') :: define_property k v r
  end.

Definition build_object (ms : list (string * value)) : list (string * value) :=
  fold_left (fun o kv => define_property (fst kv) (snd kv) o) ms [].

Fixpoint parse_value (fuel : nat) (s : string) {struct fuel}
  : option (value * string) :=
  match fuel with
  | O => None
  | S fuel' =>
      match skip_ws s with
      | EmptyString => None
      | String c r =>
          if Ascii.eqb c "n" then
            match expect "ull" r with
            | Some rest => Some (VNull, rest) | None => None end
          else if Ascii.eqb c "t" then
            match expect "rue" r with
            | Some rest => Some (VBool true, rest) | None => None end
          else if Ascii.eqb c "f" then
            match expect "alse" r with
            | Some rest => Some (VBool false, rest) | None => None end
          else if Ascii.eqb c dquote then
            match parse_string_body r with
            | Some (t, rest) => Some (VStr t, rest) | None => None end
          else if Ascii.eqb c "[" then
            match expect "]" (skip_ws r) with
            | Some rest => Some (VArr [], rest)
            | None =>
                match parse_elements fuel' r with
                | Some (vs, rest) => Some (VArr vs, rest)
                | None => None
                end
            end
          else if Ascii.eqb c "{" then
            match expect "}" (skip_ws r) with
            | Some rest => Some (VObj [], rest)
            | None =>
                match parse_members fuel' r with
                | Some (ms, rest) => Some (VObj (build_object ms), rest)
                | None => None
                end
            end
          else if Ascii.eqb c "-" || is_digit c then
            match parse_number (String c r) with
            | Some (n, rest) => Some (VNum n, rest) | None => None end
          else None
      end
  end

with parse_elements (fuel : nat) (s : string) {struct fuel}
  : option (list value * string) :=
  match fuel with
  | O => None
  | S fuel' =>
      match parse_value fuel' s with
      | Some (v, r) =>
          match expect "," (skip_ws r) with
          | Some r' =>
              match parse_elements fuel' r' with
              | Some (vs, rest) => Some (v :: vs, rest)
              | None => None
              end
          | None =>
              match expect "]" (skip_ws r) with
              | Some rest => Some ([v], rest)
              | None => None
              end
          end
      | None => None
      end
  end

with parse_members (fuel : nat) (s : string) {struct fuel}
  : option (list (string * value) * string) :=
  match fuel with
  | O => None
  | S fuel' =>
      match expect (String dquote "") (skip_ws s) with
      | Some r =>
          match parse_string_body r with
          | Some (k, r1) =>
              match expect ":" (skip_ws r1) with
              | Some r2 =>
                  match parse_value fuel' r2 with
                  | Some (v, r3) =>
                      match expect "," (skip_ws r3) with
                      | Some r4 =>
                          match parse_members fuel' r4 with
                          | Some (ms, rest) => Some ((k, v) :: ms, rest)
                          | None => None
                          end
                      | None =>
                          match expect "}" (skip_ws r3) with
                          | Some rest => Some ([(k, v)], rest)
                          | None => None
                          end
                      end
                  | None => None
                  end
              | None => None
              end
          | None => None
          end
      | None => None
      end
  end.

(** [JSON.parse(text)]: one value, then nothing but white space.
    [None] is a thrown [SyntaxError]; for a text that holds a number
    with a fraction or an exponent, or a [\u] escape above [00ff], it
    only says that the value is outside the modelled ones. *)
Definition parse (text : string) : option value :=
  match parse_value (S (String.length text)) text with
  | Some (v, rest) =>
      match skip_ws rest with
      | EmptyString => Some v
      | String _ _ => None
      end
  | None => None
  end.

(** The values JSON text represents: no [undefined], no number that is
    not finite and no cycle at any depth, the keys of an object pairwise
    distinct. *)
Fixpoint representable (v : value) : bool :=
  match v with
  | VUndefined | VCyclic | VNonFinite _ => false
  | VNull | VBool _ | VNum _ | VStr _ => true
  | VArr l => forallb representable l
  | VObj l =>
      bool_decide (NoDup (fst <$> l))
      && forallb (fun kv => representable (snd kv)) l
  end.

(** The characters a JSON text can start with. *)
Definition value_start (c : ascii) : bool :=
  Ascii.eqb c "n" || Ascii.eqb c "t" || Ascii.eqb c "f" || Ascii.eqb c dquote
  || Ascii.eqb c "[" || Ascii.eqb c "{" || Ascii.eqb c "-" || is_digit c.

(** *** Notions for the round trip *)

(** What may follow a value inside a text: the end, or a separator. *)
Definition follow (rest : string) : Prop :=
  match rest with
  | EmptyString => True
  | String c _ => c = ","%char \/ c = "]"%char \/ c = "}"%char
  end.

(** The parts of an array and of an object, as [SerializeJSONProperty]
    computes them. *)
Definition serialize_elements : list value -> option (list string) :=
  fix elements (l : list value) : option (list string) :=
    match l with
    | [] => Some []
    | e :: r =>
        match SerializeJSONProperty e with
        | Throws => None
        | NoText => cons "null" <$> elements r
        | Text t => cons t <$> elements r
        end
    end.

Definition serialize_members : list (string * value) -> option (list string) :=
  fix members (l : list (string * value)) : option (list string) :=
    match l with
    | [] => Some []
    | (k, e) :: r =>
        match SerializeJSONProperty e with
        | Throws => None
        | NoText => members r
        | Text t => cons (QuoteJSONString k +:+ ":" +:+ t) <$> members r
        end
    end.

(** [t] is a text of [v] that the parser reads back, whatever follows. *)
Definition parses (v : value) (t : string) : Prop :=
  (exists c r, t = String c r /\ value_start c = true) /\
  forall fuel rest,
    (String.length t <= fuel)%nat -> follow rest ->
    parse_value fuel (t +:+ rest) = Some (v, rest).

(** [part] is the text of the member [kv] of an object. *)
Definition parses_member (kv : string * value) (part : string) : Prop :=
  exists t, part = QuoteJSONString (fst kv) +:+ ":" +:+ t /\ parses (snd kv) t.

End JSON.

(** ** Errors and promise outcomes *)

Inductive error_code : Type :=
| OPEN_FAILURE
| TRANSACTION_FAILURE
| JSON_PARSE_ERROR
| NOT_SUPPORTED.

(** A thrown [Error]: the fixed part of its message and its [code]
    property when the helper sets one. *)
Record js_error : Type := mkError {
  message : string;
  code : option error_code;
}.

Definition invalid_configuration : js_error :=
  mkError "Invalid configuration: dbName must be string" None.
Definition key_must_be_string : js_error :=
  mkError "Key must be a string" None.
Definition amount_must_be_number : js_error :=
  mkError "Increment amount must be a number" None.
Definition stringify_error : js_error :=
  mkError "JSON stringify error" (Some JSON_PARSE_ERROR).
Definition parse_error : js_error :=
  mkError "JSON parse error" (Some JSON_PARSE_ERROR).
Definition open_error : js_error :=
  mkError "Failed to open database" (Some OPEN_FAILURE).
Definition request_error (what : string) : js_error :=
  mkError what (Some TRANSACTION_FAILURE).
(** [this.db.transaction] when [this.db] is [null]. *)
Definition null_db_error : js_error :=
  mkError "TypeError: Cannot read properties of null" None.

Inductive outcome (A : Type) : Type :=
| Resolved (a : A)
| Rejected (e : js_error).
Arguments Resolved {A} a.
Arguments Rejected {A} e.

(** ** The helper object and its environment *)

(** A promise is known by the order of its creation. *)
Abbreviation promise := nat (only parsing).
(** An open [IDBDatabase] connection is known by the name of its database. *)
Abbreviation IDBDatabase := string (only parsing).
(** The ['storage'] object store of one database: key to stored text. *)
Abbreviation object_store := (gmap string string) (only parsing).

Definition UNDEFINED_MARKER : string := "__TINY_IDB_UNDEFINED__".

(** The fields of [TinyIDBHelper]. *)
Record Helper : Type := mkHelper {
  config_dbName : string;
  db : option IDBDatabase;
  useMemoryFallback : bool;
  memoryStore : gmap string value;
  isInitialized : bool;
  initPromise : option promise;
}.

(** The environment: whether [window.indexedDB] exists, the databases it
    holds, how the coming open requests and store requests end ([true]:
    with an error event; an exhausted list: with success), the
    [_doInitialize] activations suspended on their open request, the
    number of [_doInitialize] activations so far (each creates one
    promise), and the connections closed so far. *)
Record World : Type := mkWorld {
  indexedDB_present : bool;
  databases : gmap string object_store;
  open_faults : list bool;
  request_faults : list bool;
  pending_opens : list (promise * string);
  activations : nat;
  closed_connections : list IDBDatabase;
}.

Definition state : Type := Helper * World.

(** [new TinyIDBHelper()]. *)
Definition constructor : Helper :=
  mkHelper "app-db" None false ∅ false None.

Definition set_db (d : option IDBDatabase) (h : Helper) : Helper :=
  mkHelper (config_dbName h) d (useMemoryFallback h) (memoryStore h)
    (isInitialized h) (initPromise h).
Definition set_useMemoryFallback (b : bool) (h : Helper) : Helper :=
  mkHelper (config_dbName h) (db h) b (memoryStore h)
    (isInitialized h) (initPromise h).
Definition set_memoryStore (m : gmap string value) (h : Helper) : Helper :=
  mkHelper (config_dbName h) (db h) (useMemoryFallback h) m
    (isInitialized h) (initPromise h).
Definition set_isInitialized (b : bool) (h : Helper) : Helper :=
  mkHelper (config_dbName h) (db h) (useMemoryFallback h) (memoryStore h)
    b (initPromise h).
Definition set_initPromise (p : option promise) (h : Helper) : Helper :=
  mkHelper (config_dbName h) (db h) (useMemoryFallback h) (memoryStore h)
    (isInitialized h) p.

Definition set_databases (d : gmap string (gmap string string)) (w : World)
  : World :=
  mkWorld (indexedDB_present w) d (open_faults w) (request_faults w)
    (pending_opens w) (activations w) (closed_connections w).
Definition set_open_faults (l : list bool) (w : World) : World :=
  mkWorld (indexedDB_present w) (databases w) l (request_faults w)
    (pending_opens w) (activations w) (closed_connections w).
Definition set_request_faults (l : list bool) (w : World) : World :=
  mkWorld (indexedDB_present w) (databases w) (open_faults w) l
    (pending_opens w) (activations w) (closed_connections w).
Definition set_pending_opens (l : list (promise * string)) (w : World)
  : World :=
  mkWorld (indexedDB_present w) (databases w) (open_faults w)
    (request_faults w) l (activations w) (closed_connections w).
Definition set_activations (n : nat) (w : World) : World :=
  mkWorld (indexedDB_present w) (databases w) (open_faults w)
    (request_faults w) (pending_opens w) n (closed_connections w).
Definition set_closed_connections (l : list IDBDatabase) (w : World) : World :=
  mkWorld (indexedDB_present w) (databases w) (open_faults w)
    (request_faults w) (pending_opens w) (activations w) l.

(** The object store of database [name]; a database never opened holds
    nothing. *)
Definition store_of (name : string) (w : World) : gmap string string :=
  default ∅ (databases w !! name).

(** ** Operations as state transformers that may reject *)

Definition M (A : Type) : Type := state -> outcome A * state.

Definition ret {A} (a : A) : M A := fun s => (Resolved a, s).
Definition throw {A} (e : js_error) : M A := fun s => (Rejected e, s).
Definition bind {A B} (m : M A) (k : A -> M B) : M B :=
  fun s =>
    match m s with
    | (Resolved a, s') => k a s'
    | (Rejected e, s') => (Rejected e, s')
    end.

Notation "x <- m ;; k" := (bind m (fun x => k))
  (at level 20, m at level 99, k at level 200, format "x  <-  m  ;;  '/' k").
Notation "m ;; k" := (bind m (fun _ => k))
  (at level 100, right associativity, format "m  ;;  '/' k").

Definition this : M Helper := fun s => (Resolved (fst s), s).
Definition world : M World := fun s => (Resolved (snd s), s).
Definition update_this (f : Helper -> Helper) : M unit :=
  fun s => (Resolved tt, (f (fst s), snd s)).
Definition update_world (f : World -> World) : M unit :=
  fun s => (Resolved tt, (fst s, f (snd s))).

(** *** configure *)

(** [configure({ dbName = 'app-db' } = {})]; [dbName] is the value of the
    option, [undefined] when it is left out. *)
Definition configure (dbName : value) : M unit :=
  let dbName := match dbName with VUndefined => VStr "app-db" | _ => dbName end in
  match dbName with
  | VStr name =>
      h <- this ;;
      match db h with
      | Some d =>
          update_world (fun w =>
            set_closed_connections (d :: closed_connections w) w)
      | None => ret tt
      end ;;
      update_this (fun h =>
        mkHelper name None false ∅ false None)
  | _ => throw invalid_configuration
  end.

(** *** The initialisation gate *)

(** What a caller of [_initialize()] gets back: nothing to wait for, or
    the promise it awaits. *)
Inductive gate : Type :=
| Ready
| Awaits (p : promise).

(** [_doInitialize()] up to its first suspension: a new promise; without
    IndexedDB the fallback is chosen at once, otherwise the open request
    for [config.dbName] is issued and the activation suspends on it. *)
Definition _doInitialize_begin (s : state) : promise * state :=
  let '(h, w) := s in
  let p := activations w in
  let w := set_activations (S p) w in
  if negb (indexedDB_present w) then
    (p, (set_isInitialized true (set_useMemoryFallback true h), w))
  else
    (p, (h, set_pending_opens (pending_opens w ++ [(p, config_dbName h)]) w)).

(** How the open request of [_openDatabase()] for [name] ends: an error
    event rejects with [OPEN_FAILURE]; success resolves with the
    connection, the ['storage'] store created when the database is new. *)
Definition _openDatabase_end (name : string) (w : World)
  : outcome IDBDatabase * World :=
  match open_faults w with
  | true :: rest => (Rejected open_error, set_open_faults rest w)
  | _ =>
      (Resolved name,
       set_databases (<[name := store_of name w]> (databases w))
         (set_open_faults (tail (open_faults w)) w))
  end.

(** [_doInitialize()] from its suspension on: the [try] block's
    continuation, or its [catch]. *)
Definition _doInitialize_resume (name : string) (s : state) : state :=
  let '(h, w) := s in
  match _openDatabase_end name w with
  | (Resolved d, w') => (set_isInitialized true (set_db (Some d) h), w')
  | (Rejected _, w') =>
      (set_isInitialized true (set_useMemoryFallback true h), w')
  end.

Definition pending_name (p : promise) (w : World) : option string :=
  snd <$> List.find (fun e => Nat.eqb (fst e) p) (pending_opens w).

(** The open request behind promise [p] completes and the suspended
    activation runs to its end; nothing happens for a settled promise. *)
Definition settle (p : promise) (s : state) : state :=
  match pending_name p (snd s) with
  | Some name =>
      _doInitialize_resume name
        (fst s,
         set_pending_opens
           (List.filter (fun e => negb (Nat.eqb (fst e) p))
              (pending_opens (snd s))) (snd s))
  | None => s
  end.

(** The body of [_initialize()], up to the promise it returns. *)
Definition _initialize_enter (s : state) : gate * state :=
  if isInitialized (fst s) then (Ready, s)
  else
    match initPromise (fst s) with
    | Some p => (Awaits p, s)
    | None =>
        let '(p, (h, w)) := _doInitialize_begin s in
        (Awaits p, (set_initPromise (Some p) h, w))
    end.

(** [await this._initialize()] when no other operation interleaves. *)
Definition _initialize : M unit :=
  fun s =>
    match _initialize_enter s with
    | (Ready, s') => (Resolved tt, s')
    | (Awaits p, s') => (Resolved tt, settle p s')
    end.

(** *** Access to the persistent backend *)

(** [this.db.transaction(['storage'], mode)]: needs the connection. *)
Definition connection : M IDBDatabase :=
  h <- this ;;
  match db h with
  | Some d => ret d
  | None => throw null_db_error
  end.

(** One request on the store: its error event rejects with
    [TRANSACTION_FAILURE] and message [what]. *)
Definition request (what : string) : M unit :=
  w <- world ;;
  update_world (set_request_faults (tail (request_faults w))) ;;
  match request_faults w with
  | true :: _ => throw (request_error what)
  | _ => ret tt
  end.

Definition write_store (d : IDBDatabase) (f : gmap string string -> gmap string string)
  : M unit :=
  update_world (fun w =>
    set_databases (<[d := f (store_of d w)]> (databases w)) w).

(** *** CRUD operations *)

(** The [onsuccess] handler of the get request: [result] is the stored
    text, [None] for [undefined]. *)
Definition getItem_onsuccess (result : option string) : M value :=
  match result with
  | Some result =>
      if String.eqb result UNDEFINED_MARKER then ret VUndefined
      else
        match JSON.parse result with
        | Some v => ret v
        | None => throw parse_error
        end
  | None => ret VNull
  end.

Definition getItem (key : value) : M value :=
  match key with
  | VStr k =>
      _initialize ;;
      h <- this ;;
      if useMemoryFallback h then
        ret (match memoryStore h !! k with
             | Some v => v
             | None => VNull
             end)
      else
        d <- connection ;;
        request "Get request failed" ;;
        w <- world ;;
        getItem_onsuccess (store_of d w !! k)
  | _ => throw key_must_be_string
  end.

Definition setItem (key value : value) : M unit :=
  match key with
  | VStr k =>
      _initialize ;;
      h <- this ;;
      if useMemoryFallback h then
        match value with
        | VUndefined => ret tt
        | _ =>
            match JSON.stringify value with
            | JSON.Throws => throw stringify_error
            | _ => ret tt
            end
        end ;;
        update_this (fun h => set_memoryStore (<[k := value]> (memoryStore h)) h)
      else
        d <- connection ;;
        match value with
        | VUndefined =>
            request "Transaction failed" ;;
            write_store d (insert k UNDEFINED_MARKER)
        | _ =>
            match JSON.stringify value with
            | JSON.Throws => throw stringify_error
            | JSON.Text serializedValue =>
                request "Transaction failed" ;;
                write_store d (insert k serializedValue)
            | JSON.NoText =>
                (* not reached: only [undefined] has no text; a stored
                   [undefined] reads back as a missing key *)
                request "Transaction failed" ;;
                write_store d (delete k)
            end
        end
  | _ => throw key_must_be_string
  end.

Definition removeItem (key : value) : M unit :=
  match key with
  | VStr k =>
      _initialize ;;
      h <- this ;;
      if useMemoryFallback h then
        update_this (fun h => set_memoryStore (delete k (memoryStore h)) h)
      else
        d <- connection ;;
        request "Transaction failed" ;;
        write_store d (delete k)
  | _ => throw key_must_be_string
  end.

Definition nullify (key : value) : M unit := setItem key VNull.

(** *** Derived operations *)

(** A number: an integer, or one of the three that are not finite.
    [number_of v] is the number that [v] is when [typeof v] is
    ['number']. *)
Inductive number : Type :=
| Finite (n : Z)
| NotFinite (x : non_finite).

Definition number_value (x : number) : value :=
  match x with
  | Finite n => VNum n
  | NotFinite x => VNonFinite x
  end.

Definition number_of (v : value) : option number :=
  match v with
  | VNum n => Some (Finite n)
  | VNonFinite x => Some (NotFinite x)
  | _ => None
  end.

(** The double nearest to the integer [n]: [n] itself up to [2^53] in
    magnitude; beyond, [n] rounded to 53 significant bits, a tie going
    to the even one; [Infinity] from [2^1024] on. *)
Definition nearest_double (n : Z) : number :=
  let m := Z.abs n in
  let e := Z.log2 m - 52 in
  if e <=? 0 then Finite n
  else
    let q := m / 2 ^ e in
    let r := m mod 2 ^ e in
    let half := 2 ^ (e - 1) in
    let q := if (half <? r) || ((r =? half) && Z.odd q) then q + 1 else q in
    if 2 ^ 1024 <=? q * 2 ^ e then
      NotFinite (if n <? 0 then NegInfinity else PosInfinity)
    else Finite (Z.sgn n * (q * 2 ^ e)).

(** [x + y] on numbers, the sum of two doubles: the exact sum rounded to
    the nearest double.  The sign of a zero is not kept. *)
Definition number_add (x y : number) : number :=
  match x, y with
  | Finite a, Finite b => nearest_double (a + b)
  | NotFinite NaN, _ | _, NotFinite NaN => NotFinite NaN
  | NotFinite PosInfinity, NotFinite NegInfinity
  | NotFinite NegInfinity, NotFinite PosInfinity => NotFinite NaN
  | NotFinite x, _ => NotFinite x
  | _, NotFinite y => NotFinite y
  end.

(** [increment(key, amount = 1)]: the default applies to a missing
    ([undefined]) argument; every number passes the [typeof] test, also
    [NaN] and the infinities. *)
Definition increment (key amount : value) : M value :=
  let amount := match amount with VUndefined => VNum 1 | _ => amount end in
  match number_of amount with
  | Some a =>
      currentValue <- getItem key ;;
      let numValue := default (Finite 0) (number_of currentValue) in
      let newValue := number_value (number_add numValue a) in
      setItem key newValue ;;
      ret newValue
  | None => throw amount_must_be_number
  end.

(** [-x] on numbers. *)
Definition number_negate (x : number) : number :=
  match x with
  | Finite n => Finite (- n)
  | NotFinite NaN => NotFinite NaN
  | NotFinite PosInfinity => NotFinite NegInfinity
  | NotFinite NegInfinity => NotFinite PosInfinity
  end.

(** [decrement(key, amount = 1)], for the declared argument type
    [amount?: number]. *)
Definition decrement (key : value) (amount : option number) : M value :=
  increment key (number_value (number_negate (default (Finite 1) amount))).

(** [!v]. *)
Definition logical_not (v : value) : bool :=
  match v with
  | VUndefined | VNull | VBool false => true
  | VNum n => n =? 0
  | VNonFinite NaN => true
  | VStr s => String.eqb s ""
  | _ => false
  end.

Definition toggle (key : value) : M value :=
  currentValue <- getItem key ;;
  let newValue := VBool (logical_not currentValue) in
  setItem key newValue ;;
  ret newValue.

(** *** Enumeration *)

Definition keys : M (list string) :=
  _initialize ;;
  h <- this ;;
  if useMemoryFallback h then
    ret (fst <$> map_to_list (memoryStore h))
  else
    d <- connection ;;
    request "Keys request failed" ;;
    w <- world ;;
    ret (fst <$> map_to_list (store_of d w)).

(** The callback of [values()]: the decoded value, the stored text itself
    when it does not parse. *)
Definition decode_or_raw (raw : string) : value :=
  if String.eqb raw UNDEFINED_MARKER then VUndefined
  else
    match JSON.parse raw with
    | Some v => v
    | None => VStr raw
    end.

Definition values : M (list value) :=
  _initialize ;;
  h <- this ;;
  if useMemoryFallback h then
    ret (snd <$> map_to_list (memoryStore h))
  else
    d <- connection ;;
    request "Values request failed" ;;
    w <- world ;;
    ret (decode_or_raw <$> (snd <$> map_to_list (store_of d w))).

Definition length : M nat :=
  _initialize ;;
  h <- this ;;
  if useMemoryFallback h then
    ret (size (memoryStore h))
  else
    d <- connection ;;
    request "Count request failed" ;;
    w <- world ;;
    ret (size (store_of d w)).

Definition has (key : value) : M bool :=
  match key with
  | VStr _ =>
      v <- getItem key ;;
      ret (not_null v)
  | _ => throw key_must_be_string
  end.

Definition isUsingMemoryFallback (s : state) : bool :=
  useMemoryFallback (fst s).

Definition clear : M unit :=
  _initialize ;;
  h <- this ;;
  if useMemoryFallback h then
    update_this (set_memoryStore ∅)
  else
    d <- connection ;;
    request "Clear failed" ;;
    write_store d (fun _ => ∅).

(** The data operations, as one type. *)
Inductive operation : Type :=
| OpGetItem (key : value)
| OpSetItem (key v : value)
| OpRemoveItem (key : value)
| OpNullify (key : value)
| OpIncrement (key amount : value)
| OpDecrement (key : value) (amount : option number)
| OpToggle (key : value)
| OpKeys
| OpValues
| OpLength
| OpHas (key : value)
| OpClear.

Definition run (o : operation) : M value :=
  match o with
  | OpGetItem k => getItem k
  | OpSetItem k v => setItem k v ;; ret VUndefined
  | OpRemoveItem k => removeItem k ;; ret VUndefined
  | OpNullify k => nullify k ;; ret VUndefined
  | OpIncrement k a => increment k a
  | OpDecrement k a => decrement k a
  | OpToggle k => toggle k
  | OpKeys => ks <- keys ;; ret (VArr (VStr <$> ks))
  | OpValues => vs <- values ;; ret (VArr vs)
  | OpLength => n <- length ;; ret (VNum (Z.of_nat n))
  | OpHas k => b <- has k ;; ret (VBool b)
  | OpClear => clear ;; ret VUndefined
  end.

(** Operations issued one after the other, each awaited. *)
Fixpoint run_all (os : list operation) : M (list value) :=
  match os with
  | [] => ret []
  | o :: os' =>
      v <- run o ;;
      vs <- run_all os' ;;
      ret (v :: vs)
  end.

(** *** Array operations *)

(** [array.push(value)] and [array.unshift(value)] change the array in
    place.  On the volatile backend the array that [getItem] resolved
    with is the stored object itself, so the stored value changes with
    it, before [setItem] runs; on the persistent backend the array was
    parsed from the stored text and the store does not change. *)
Definition mutate_in_place (key array : value) : M unit :=
  h <- this ;;
  match key with
  | VStr k =>
      if useMemoryFallback h then
        update_this (fun h => set_memoryStore (<[k := array]> (memoryStore h)) h)
      else ret tt
  | _ => ret tt
  end.

Definition append : value -> value -> M value := fun key value =>
  currentValue <- getItem key ;;
  array <- match currentValue with
           | VArr items =>
               let array := VArr (items ++ [value]) in
               mutate_in_place key array ;;
               ret array
           | _ => ret (VArr [value])
           end ;;
  setItem key array ;;
  ret array.

Definition prepend : value -> value -> M value := fun key value =>
  currentValue <- getItem key ;;
  array <- match currentValue with
           | VArr items =>
               let array := VArr (value :: items) in
               mutate_in_place key array ;;
               ret array
           | _ => ret (VArr [value])
           end ;;
  setItem key array ;;
  ret array.

(** *** Bulk operations *)

(** [result[key] = v] on an object created by [{}]: the property is
    defined, or takes the new value where it stands; for the key
    ['__proto__'] the assignment reaches the accessor inherited from
    [Object.prototype] and defines no property. *)
Definition assign_property (key : string) (v : value) (result : list (string * value))
  : list (string * value) :=
  if String.eqb key "__proto__" then result
  else JSON.define_property key v result.

(** The loop of [entries()]. *)
Fixpoint entries_loop (ks : list string) (result : list (string * value))
  : M (list (string * value)) :=
  match ks with
  | [] => ret result
  | key :: ks' =>
      v <- getItem (VStr key) ;;
      entries_loop ks' (assign_property key v result)
  end.

Definition entries : M value :=
  ks <- keys ;;
  result <- entries_loop ks [] ;;
  ret (VObj result).

Definition data_must_be_object : js_error :=
  mkError "Data must be an object" None.

(** [Object.entries(data)] for the objects of the value universe: the
    properties of an object, the elements of an array under their
    indices; the cyclic object is taken to be the one whose single
    property, [self], holds the object itself. *)
Definition Object_entries (data : value) : list (string * value) :=
  match data with
  | VObj props => props
  | VArr items =>
      imap (fun i v => (JSON.number_to_string (Z.of_nat i), v)) items
  | VCyclic => [("self", VCyclic)]
  | _ => []
  end.

(** The loop of [replaceAll(data)]. *)
Fixpoint replaceAll_loop (es : list (string * value)) : M unit :=
  match es with
  | [] => ret tt
  | (key, v) :: es' =>
      setItem (VStr key) v ;;
      replaceAll_loop es'
  end.

Definition replaceAll (data : value) : M unit :=
  match typeof data, data with
  | TObject, VNull => throw data_must_be_object
  | TObject, _ =>
      clear ;;
      replaceAll_loop (Object_entries data)
  | _, _ => throw data_must_be_object
  end.

(** The asynchronous methods of the helper, as one type: the data
    operations above and the array and bulk operations. *)
Inductive call : Type :=
| Data (o : operation)
| Append (key v : value)
| Prepend (key v : value)
| Entries
| ReplaceAll (data : value).

Definition perform (c : call) : M value :=
  match c with
  | Data o => run o
  | Append key v => append key v
  | Prepend key v => prepend key v
  | Entries => entries
  | ReplaceAll data => replaceAll data ;; ret VUndefined
  end.

(** ** The gate under interleaving *)

(** Between two suspension points nothing interleaves; an operation
    enters the gate, a pending open request completes, or the
    application reconfigures. *)
Inductive event : Type :=
| Enter
| Completes (p : promise)
| Configure (dbName : string).

(** One event: the new state and, for [Enter], what the caller got. *)
Definition step (e : event) (s : state) : option gate * state :=
  match e with
  | Enter => let '(g, s') := _initialize_enter s in (Some g, s')
  | Completes p => (None, settle p s)
  | Configure name => (None, snd (configure (VStr name) s))
  end.

Fixpoint steps (es : list event) (s : state) : list gate * state :=
  match es with
  | [] => ([], s)
  | e :: es' =>
      let '(g, s1) := step e s in
      let '(gs, s2) := steps es' s1 in
      (match g with Some g => g :: gs | None => gs end, s2)
  end.


(** A quiet world: IndexedDB as given, no faults to come, nothing
    pending. *)
Definition quiet_world (present : bool) (dbs : gmap string (gmap string string))
  : World :=
  mkWorld present dbs [] [] [] 0 [].


(** ** Predicates on states *)

(** The gate has been passed and a backend is active. *)
Definition ready (s : state) : bool :=
  isInitialized (fst s)
  && (useMemoryFallback (fst s) || bool_decide (is_Some (db (fst s)))).

Definition fresh_promises (w : World) : bool :=
  forallb (fun e => Nat.ltb (fst e) (activations w)) (pending_opens w).

(** The states the helper can be in between two operations: promises
    are numbered below the activation count; an initialised helper has a
    backend; an uninitialised one is either untouched or suspended on a
    pending open request. *)
Definition wf (s : state) : bool :=
  fresh_promises (snd s)
  && (if isInitialized (fst s) then
        useMemoryFallback (fst s) || bool_decide (is_Some (db (fst s)))
      else
        match initPromise (fst s) with
        | Some p => bool_decide (is_Some (pending_name p (snd s)))
        | None => true
        end).

(** The volatile backend is active. *)
Definition volatile (s : state) : bool :=
  isInitialized (fst s) && useMemoryFallback (fst s).

(** The persistent backend cannot be had: [window.indexedDB] is missing,
    or the next open request ends with an error event. *)
Definition open_unavailable (w : World) : bool :=
  negb (indexedDB_present w)
  || match open_faults w with
     | true :: _ => true
     | _ => false
     end.

(** No store request to come ends with an error event. *)
Definition calm (s : state) : bool :=
  forallb negb (request_faults (snd s)).

(** The start of a configuration epoch: as constructed or as
    [configure] leaves the helper. *)
Definition epoch_start (s : state) : bool :=
  negb (isInitialized (fst s)) && bool_decide (initPromise (fst s) = None).

(** What [getItem(k)] settles with in a ready state when its request
    succeeds: the logical value of [k] in the active backend. *)
Definition read (s : state) (k : string) : outcome value :=
  if useMemoryFallback (fst s) then
    Resolved (match memoryStore (fst s) !! k with
              | Some v => v
              | None => VNull
              end)
  else
    match db (fst s) with
    | Some d => fst (getItem_onsuccess (store_of d (snd s) !! k) s)
    | None => Rejected null_db_error
    end.

(** The keys the active backend holds in a ready state. *)
Definition stored_keys (s : state) : list string :=
  if useMemoryFallback (fst s) then fst <$> map_to_list (memoryStore (fst s))
  else
    match db (fst s) with
    | Some d => fst <$> map_to_list (store_of d (snd s))
    | None => []
    end.

(** The text the persistent backend holds for [k] in a ready state. *)
Definition stored_text (s : state) (k : string) : string :=
  match db (fst s) with
  | Some d => default "" (store_of d (snd s) !! k)
  | None => ""
  end.

(** The values the round trip is claimed for: [undefined] itself, or a
    JSON-representable value. *)
Definition storable (v : value) : bool :=
  match v with
  | VUndefined => true
  | _ => JSON.representable v
  end.

(** [k] is stored nowhere: not in the memory mapping, not in any
    database. *)
Definition never_set (k : string) (s : state) : bool :=
  bool_decide (memoryStore (fst s) !! k = None)
  && bool_decide (map_Forall (fun _ (st : gmap string string) => st !! k = None)
                    (databases (snd s))).

(** Arguments of the declared types, and a value [JSON.stringify]
    accepts where one is stored. *)
Definition well_typed (o : operation) : bool :=
  let str k := bool_decide (is_Some (is_string k)) in
  let ok v := match JSON.stringify v with JSON.Throws => false | _ => true end in
  match o with
  | OpGetItem k | OpRemoveItem k | OpNullify k | OpToggle k | OpHas k
  | OpDecrement k _ => str k
  | OpSetItem k v => str k && ok v
  | OpIncrement k a =>
      str k
      && match a with
         | VUndefined | VNum _ | VNonFinite _ => true
         | _ => false
         end
  | OpKeys | OpValues | OpLength | OpClear => true
  end.

(** ** Notions used in the proofs *)

(** An operation behind the gate runs as if started in the state the
    gate leaves: ready, with the same faults to come and the same
    stored data. *)
Definition passed (s s1 : state) : Prop :=
  _initialize s = (Resolved tt, s1)
  /\ ready s1 = true
  /\ calm s1 = calm s
  /\ memoryStore (fst s1) = memoryStore (fst s)
  /\ (forall n, store_of n (snd s1) = store_of n (snd s)).

(** [setItem] once the value has its text: the write itself. *)
Definition write_text (k : string) (v : value) (text : string) : M unit :=
  h <- this ;;
  if useMemoryFallback h then
    update_this (fun h => set_memoryStore (<[k := v]> (memoryStore h)) h)
  else
    d <- connection ;;
    request "Transaction failed" ;;
    write_store d (insert k text).

(** What a write leaves alone: the pending opens, the activation count
    and every object store but that of the active connection. *)
Definition frame (s s' : state) : Prop :=
  fresh_promises (snd s') = fresh_promises (snd s)
  /\ forall n,
       useMemoryFallback (fst s) = true \/ db (fst s) <> Some n ->
       store_of n (snd s') = store_of n (snd s).

(** What [values()] resolves with in a ready state, key by key. *)
Definition value_of_key (s : state) (k : string) : value :=
  match read s k with
  | Resolved v => v
  | Rejected _ => VStr (stored_text s k)
  end.

(** What [wf] looks at. *)
Definition gate_view (s : state)
  : bool * bool * option string * option nat * list (nat * string) * nat :=
  (isInitialized (fst s), useMemoryFallback (fst s), db (fst s),
   initPromise (fst s), pending_opens (snd s), activations (snd s)).

(** [m] takes the states the helper can be in to such states. *)
Definition keeps_wf {A} (m : M A) : Prop :=
  forall s r s', wf s = true -> m s = (r, s') -> wf s' = true.

(** The states reached from a new helper by events of the gate and by
    awaited operations. *)
Inductive reachable : state -> Prop :=
| reach_new w :
    fresh_promises w = true -> reachable (constructor, w)
| reach_event e s :
    reachable s -> reachable (snd (step e s))
| reach_run o s :
    reachable s -> reachable (snd (run o s)).

(** [m] never rejects with [OPEN_FAILURE]. *)
Definition hides_open_failure {A} (m : M A) : Prop :=
  forall s e s', m s = (Rejected e, s') -> code e <> Some OPEN_FAILURE.

(** The connections closed when [configure] finds one open. *)
Definition closed_after (s : state) : list string :=
  match db (fst s) with
  | Some d => d :: closed_connections (snd s)
  | None => closed_connections (snd s)
  end.



(** ** Notions for the further properties *)

(** What the [onsuccess] handler of [getItem] settles with for a stored
    text. *)
Definition decode (raw : string) : outcome value :=
  if String.eqb raw UNDEFINED_MARKER then Resolved VUndefined
  else
    match JSON.parse raw with
    | Some v => Resolved v
    | None => Rejected parse_error
    end.

(** [JSON.stringify] does not throw on [v]. *)
Definition serializable (v : value) : bool :=
  match JSON.stringify v with JSON.Throws => false | _ => true end.

(** The text [setItem] puts in the object store for [v]. *)
Definition text_of (v : value) : string :=
  match v with
  | VUndefined => UNDEFINED_MARKER
  | _ => match JSON.stringify v with JSON.Text t => t | _ => "" end
  end.

(** The entries of the active backend in a ready state, each with what
    reading it settles with. *)
Definition logical (s : state) : gmap string (outcome value) :=
  if useMemoryFallback (fst s) then Resolved <$> memoryStore (fst s)
  else
    match db (fst s) with
    | Some d => decode <$> store_of d (snd s)
    | None => ∅
    end.

(** What a key reads as once [setItem] has stored [v] under it. *)
Definition stored_as (s : state) (v : value) : outcome value :=
  if useMemoryFallback (fst s) then Resolved v else decode (text_of v).

(** What only the gate and [configure] change: the configuration, the
    backend and the gate fields of the helper; the open requests and
    the connections of the environment. *)
Definition backend_view (s : state)
  : string * option string * bool * bool * option nat
    * (bool * list bool * list (nat * string) * nat * list string) :=
  (config_dbName (fst s), db (fst s), useMemoryFallback (fst s),
   isInitialized (fst s), initPromise (fst s),
   (indexedDB_present (snd s), open_faults (snd s), pending_opens (snd s),
    activations (snd s), closed_connections (snd s))).

(** [s'] is [s] but for the store requests that were answered. *)
Definition same_data (s s' : state) : Prop :=
  fst s' = fst s
  /\ snd s' = set_request_faults (request_faults (snd s')) (snd s).

(** [m], started in a ready state, leaves the backend as it is. *)
Definition keeps_backend {A} (m : M A) : Prop :=
  forall s r s', ready s = true -> m s = (r, s') -> backend_view s' = backend_view s.

(** [m] writes nothing: the memory mapping and every object store are
    after it what they were before. *)
Definition writes_nothing {A} (m : M A) : Prop :=
  forall s r s',
    m s = (r, s') ->
    memoryStore (fst s') = memoryStore (fst s)
    /\ forall n, store_of n (snd s') = store_of n (snd s).

(** The current value as [append] and [prepend] take it. *)
Definition as_array (v : value) : list value :=
  match v with VArr items => items | _ => [] end.

(** What JSON text keeps of a value: a number that is not finite
    becomes [null]; inside an array [undefined] becomes [null], a
    property holding [undefined] is left out of its object. *)
Fixpoint as_serialized (v : value) : value :=
  match v with
  | VNonFinite _ => VNull
  | VArr items =>
      VArr ((fun e => match e with VUndefined => VNull | _ => as_serialized e end)
              <$> items)
  | VObj props =>
      VObj (omap (fun kv =>
                    match snd kv with
                    | VUndefined => None
                    | _ => Some (fst kv, as_serialized (snd kv))
                    end) props)
  | _ => v
  end.

(** The keys of every object inside [v] are pairwise distinct, as the
    properties of an object are. *)
Fixpoint distinct_keys (v : value) : bool :=
  match v with
  | VArr items => forallb distinct_keys items
  | VObj props =>
      bool_decide (NoDup (fst <$> props))
      && forallb (fun kv => distinct_keys (snd kv)) props
  | _ => true
  end.

(** IndexedDB is there and no open request to come fails. *)
Definition opens_succeed (s : state) : bool :=
  indexedDB_present (snd s) && forallb negb (open_faults (snd s)).

(** The body of a gated operation, by backend. *)
Definition dispatch {A} (mem : Helper -> M A) (pers : string -> M A) : M A :=
  _initialize ;;
  h <- this ;;
  if useMemoryFallback h then mem h
  else
    d <- connection ;;
    pers d.

(** After a write in the ready state [s]: the active backend holds the
    entries [m]; the helper is ready on the same backend, and the other
    object stores are as they were. *)
Definition updated (s s' : state) (m : gmap string (outcome value)) : Prop :=
  ready s' = true /\ calm s' = true
  /\ logical s' = m
  /\ backend_view s' = backend_view s
  /\ forall n,
       useMemoryFallback (fst s) = true \/ db (fst s) <> Some n ->
       store_of n (snd s') = store_of n (snd s).

(** The common shape of [append] and [prepend]: [g] puts the new element
    into the array. *)
Definition array_operation (g : list value -> list value)
  : value -> value -> M value := fun key value =>
  currentValue <- getItem key ;;
  array <- match currentValue with
           | VArr items =>
               let array := VArr (g items) in
               mutate_in_place key array ;;
               ret array
           | _ => ret (VArr [value])
           end ;;
  setItem key array ;;
  ret array.

(** The errors an awaited method rejects with: a violated argument type,
    a value or a stored text that JSON does not take, a failed request. *)
Definition expected (e : js_error) : Prop :=
  e = key_must_be_string \/ e = amount_must_be_number
  \/ e = data_must_be_object
  \/ e = stringify_error \/ e = parse_error
  \/ exists what, e = request_error what.

(** [m] rejects with expected errors only. *)
Definition rejects_as_expected {A} (m : M A) : Prop :=
  forall s e s', m s = (Rejected e, s') -> expected e.

(** [m], started in a state the helper can be in, ends in such a state
    and rejects with expected errors only. *)
Definition safe {A} (m : M A) : Prop :=
  forall s r s',
    wf s = true -> m s = (r, s') ->
    wf s' = true /\ forall e, r = Rejected e -> expected e.

(** ** Starting states and scenarios *)

(** A newly constructed helper in a browser with an empty IndexedDB, and
    one where [window.indexedDB] is missing. *)
Definition in_browser : state := (constructor, quiet_world true ∅).
Definition without_indexedDB : state := (constructor, quiet_world false ∅).

(** A browser whose first open request ends with an error event. *)
Definition open_fails : state :=
  (constructor, mkWorld true ∅ [true] [] [] 0 []).

(** Scenarios of the README's test suite. *)
Definition counters_and_flags : list operation :=
  [OpSetItem (VStr "counter") (VNum 5);
   OpIncrement (VStr "counter") VUndefined;
   OpIncrement (VStr "counter") (VNum 3);
   OpIncrement (VStr "new-counter") VUndefined;
   OpDecrement (VStr "counter") None;
   OpDecrement (VStr "counter") (Some (Finite 4));
   OpToggle (VStr "new-flag");
   OpToggle (VStr "new-flag")].

Definition null_and_undefined : list operation :=
  [OpSetItem (VStr "null-key") VNull;
   OpSetItem (VStr "undefined-key") VUndefined;
   OpGetItem (VStr "null-key");
   OpGetItem (VStr "undefined-key");
   OpGetItem (VStr "non-existent-key");
   OpLength;
   OpRemoveItem (VStr "null-key");
   OpLength;
   OpClear;
   OpLength].

(** ** The ES module version *)

(** The file holds a second [TinyIDBHelper], the "ES Module Version":
    every key has an object store of its own, holding the value under
    the key ['value'], and a store that is missing is created by
    reopening the database at the next version.  It is embedded here for
    an application that registers no upgrade callback of its own
    ([onUpgrade] is left out) and awaits every call before the next. *)
Module ESModule.

Definition invalid_configuration : js_error :=
  mkError
    "Invalid configuration: dbName must be string, version must be positive number"
    None.
(** The error event of [deleteDatabase]; the helper gives it the code
    [OPEN_FAILURE]. *)
Definition delete_error : js_error :=
  mkError "Failed to delete database" (Some OPEN_FAILURE).
(** The exceptions of [db.transaction]: on a closed connection, and on
    a connection that does not have the store; the messages stand for
    the browser's. *)
Definition invalid_state_error : js_error := mkError "InvalidStateError" None.
Definition not_found_error : js_error := mkError "NotFoundError" None.

(** [this.upgradeCallback]: [null], or the closure that
    [_ensureObjectStore(key)] installs around the callback it found. *)
Inductive callback : Type :=
| NoCallback
| EnsureStore (originalCallback : callback) (key : string).

(** The callback, run in an upgrade on the object stores of the
    database: for each store what it holds under ['value'], the [data]
    of the stored record. *)
Fixpoint run_callback (cb : callback) (stores : gmap string (option string))
  : gmap string (option string) :=
  match cb with
  | NoCallback => stores
  | EnsureStore originalCallback key =>
      let stores := run_callback originalCallback stores in
      match stores !! key with
      | Some _ => stores
      | None => <[key := None]> stores
      end
  end.

(** A database of the environment, and a connection to one: the names of
    the stores are those at the time of opening. *)
Record Database : Type := mkDatabase {
  version : Z;
  stores : gmap string (option string);
}.

Record IDBDatabase : Type := mkConnection {
  name : string;
  objectStoreNames : gset string;
  closed : bool;
}.

Definition close (c : IDBDatabase) : IDBDatabase :=
  mkConnection (name c) (objectStoreNames c) true.

Record Helper : Type := mkHelper {
  config_dbName : string;
  config_version : Z;
  upgradeCallback : callback;
  db : option IDBDatabase;
  useMemoryFallback : bool;
  memoryStore : gmap string value;
  isInitialized : bool;
  initPromise : option nat;
}.

(** The environment: whether [window.indexedDB] exists, its databases,
    how the coming open, store and delete requests end ([true]: with an
    error event that is not one of the model's own; an exhausted list:
    as the databases determine), and the promises created so far. *)
Record World : Type := mkWorld {
  indexedDB_present : bool;
  databases : gmap string Database;
  open_faults : list bool;
  request_faults : list bool;
  delete_faults : list bool;
  promises : nat;
}.

Definition state : Type := Helper * World.

Definition constructor : Helper :=
  mkHelper "app-db" 1 NoCallback None false ∅ false None.

Definition set_config_version (v : Z) (h : Helper) : Helper :=
  mkHelper (config_dbName h) v (upgradeCallback h) (db h) (useMemoryFallback h)
    (memoryStore h) (isInitialized h) (initPromise h).
Definition set_upgradeCallback (cb : callback) (h : Helper) : Helper :=
  mkHelper (config_dbName h) (config_version h) cb (db h) (useMemoryFallback h)
    (memoryStore h) (isInitialized h) (initPromise h).
Definition set_db (d : option IDBDatabase) (h : Helper) : Helper :=
  mkHelper (config_dbName h) (config_version h) (upgradeCallback h) d
    (useMemoryFallback h) (memoryStore h) (isInitialized h) (initPromise h).
Definition set_useMemoryFallback (b : bool) (h : Helper) : Helper :=
  mkHelper (config_dbName h) (config_version h) (upgradeCallback h) (db h) b
    (memoryStore h) (isInitialized h) (initPromise h).
Definition set_memoryStore (m : gmap string value) (h : Helper) : Helper :=
  mkHelper (config_dbName h) (config_version h) (upgradeCallback h) (db h)
    (useMemoryFallback h) m (isInitialized h) (initPromise h).
Definition set_isInitialized (b : bool) (h : Helper) : Helper :=
  mkHelper (config_dbName h) (config_version h) (upgradeCallback h) (db h)
    (useMemoryFallback h) (memoryStore h) b (initPromise h).
Definition set_initPromise (p : option nat) (h : Helper) : Helper :=
  mkHelper (config_dbName h) (config_version h) (upgradeCallback h) (db h)
    (useMemoryFallback h) (memoryStore h) (isInitialized h) p.

Definition set_databases (d : gmap string Database) (w : World) : World :=
  mkWorld (indexedDB_present w) d (open_faults w) (request_faults w)
    (delete_faults w) (promises w).
Definition set_open_faults (l : list bool) (w : World) : World :=
  mkWorld (indexedDB_present w) (databases w) l (request_faults w)
    (delete_faults w) (promises w).
Definition set_request_faults (l : list bool) (w : World) : World :=
  mkWorld (indexedDB_present w) (databases w) (open_faults w) l
    (delete_faults w) (promises w).
Definition set_delete_faults (l : list bool) (w : World) : World :=
  mkWorld (indexedDB_present w) (databases w) (open_faults w) (request_faults w)
    l (promises w).
Definition set_promises (n : nat) (w : World) : World :=
  mkWorld (indexedDB_present w) (databases w) (open_faults w) (request_faults w)
    (delete_faults w) n.

(** The database [name] as an open request finds it: one that does not
    exist has version 0 and no store. *)
Definition database_of (name : string) (w : World) : Database :=
  default (mkDatabase 0 ∅) (databases w !! name).

Definition M (A : Type) : Type := state -> outcome A * state.

Definition ret {A} (a : A) : M A := fun s => (Resolved a, s).
Definition throw {A} (e : js_error) : M A := fun s => (Rejected e, s).
Definition bind {A B} (m : M A) (k : A -> M B) : M B :=
  fun s =>
    match m s with
    | (Resolved a, s') => k a s'
    | (Rejected e, s') => (Rejected e, s')
    end.

Declare Scope es_scope.
Notation "x <- m ;; k" := (bind m (fun x => k)) : es_scope.
Notation "m ;; k" := (bind m (fun _ => k)) : es_scope.
#[local] Open Scope es_scope.

Definition this : M Helper := fun s => (Resolved (fst s), s).
Definition world : M World := fun s => (Resolved (snd s), s).
Definition update_this (f : Helper -> Helper) : M unit :=
  fun s => (Resolved tt, (f (fst s), snd s)).
Definition update_world (f : World -> World) : M unit :=
  fun s => (Resolved tt, (fst s, f (snd s))).

(** [configure({ dbName = 'app-db', version = 1 } = {})]; the
    connection it closes is dropped, and the upgrade callback is not
    among the fields it resets. *)
Definition configure (dbName version : value) : M unit :=
  let dbName := match dbName with VUndefined => VStr "app-db" | _ => dbName end in
  let version := match version with VUndefined => VNum 1 | _ => version end in
  match dbName, version with
  | VStr name, VNum v =>
      if v <? 1 then throw invalid_configuration
      else
        update_this (fun h =>
          mkHelper name v (upgradeCallback h) None false ∅ false None)
  | _, _ => throw invalid_configuration
  end.

(** [_openDatabase()]: [indexedDB.open(dbName, version)].  A version
    below the one the database has is an error ([VersionError]); a
    version above it runs the upgrade, in which the callback creates its
    stores; the connection has the stores the database then has. *)
Definition _openDatabase : M IDBDatabase :=
  h <- this ;;
  w <- world ;;
  update_world (set_open_faults (tail (open_faults w))) ;;
  match open_faults w with
  | true :: _ => throw open_error
  | _ =>
      let current := database_of (config_dbName h) w in
      if config_version h <? version current then throw open_error
      else if version current <? config_version h then
        let upgraded := run_callback (upgradeCallback h) (stores current) in
        update_world (fun w =>
          set_databases
            (<[config_dbName h := mkDatabase (config_version h) upgraded]>
               (databases w)) w) ;;
        ret (mkConnection (config_dbName h) (dom upgraded) false)
      else ret (mkConnection (config_dbName h) (dom (stores current)) false)
  end.

Definition _doInitialize : M unit :=
  w <- world ;;
  if negb (indexedDB_present w) then
    update_this (fun h => set_isInitialized true (set_useMemoryFallback true h))
  else
    fun s =>
      match _openDatabase s with
      | (Resolved c, s') =>
          (Resolved tt, (set_isInitialized true (set_db (Some c) (fst s')), snd s'))
      | (Rejected _, s') =>
          (Resolved tt,
           (set_isInitialized true (set_useMemoryFallback true (fst s')), snd s'))
      end.

(** [await this._initialize()] for calls awaited one at a time: an
    initialisation promise that is found has settled. *)
Definition _initialize : M unit :=
  h <- this ;;
  if isInitialized h then ret tt
  else
    match initPromise h with
    | Some _ => ret tt
    | None =>
        w <- world ;;
        update_world (set_promises (S (promises w))) ;;
        update_this (set_initPromise (Some (promises w))) ;;
        _doInitialize
    end.

(** [_ensureObjectStore(key)].  When the open request fails, the helper
    is left with the closed connection, the raised version and the
    closure as its callback. *)
Definition _ensureObjectStore (key : string) : M unit :=
  h <- this ;;
  if useMemoryFallback h then ret tt
  else
    match db h with
    | None => throw null_db_error
    | Some c =>
        if bool_decide (key ∈ objectStoreNames c) then ret tt
        else
          update_this (set_db (Some (close c))) ;;
          update_this (set_config_version (config_version h + 1)) ;;
          let originalCallback := upgradeCallback h in
          update_this (set_upgradeCallback (EnsureStore originalCallback key)) ;;
          c' <- _openDatabase ;;
          update_this (set_db (Some c')) ;;
          update_this (set_upgradeCallback originalCallback)
    end.

(** [this.db.transaction([key], mode)] and [objectStore(key)]. *)
Definition transaction (key : string) : M IDBDatabase :=
  h <- this ;;
  match db h with
  | None => throw null_db_error
  | Some c =>
      if closed c then throw invalid_state_error
      else if bool_decide (key ∈ objectStoreNames c) then ret c
      else throw not_found_error
  end.

Definition request (what : string) : M unit :=
  w <- world ;;
  update_world (set_request_faults (tail (request_faults w))) ;;
  match request_faults w with
  | true :: _ => throw (request_error what)
  | _ => ret tt
  end.

(** The [data] stored under ['value'] in the store [key] of the database
    of connection [c]. *)
Definition stored_data (c : IDBDatabase) (key : string) (w : World)
  : option string :=
  mjoin (stores (database_of (name c) w) !! key).

(** The [onsuccess] handler of the get request. *)
Definition getItem_onsuccess (data : option string) : M value :=
  match data with
  | Some data =>
      if String.eqb data UNDEFINED_MARKER then ret VUndefined
      else
        match JSON.parse data with
        | Some v => ret v
        | None => throw parse_error
        end
  | None => ret VNull
  end.

Definition getItem (key : value) : M value :=
  match key with
  | VStr k =>
      _initialize ;;
      h <- this ;;
      if useMemoryFallback h then
        ret (match memoryStore h !! k with
             | Some v => v
             | None => VNull
             end)
      else
        _ensureObjectStore k ;;
        c <- transaction k ;;
        request "Get request failed" ;;
        w <- world ;;
        getItem_onsuccess (stored_data c k w)
  | _ => throw key_must_be_string
  end.

(** [store.put({ data }, 'value')] in the store [key]; a record whose
    [data] is [undefined] reads like no record. *)
Definition put (c : IDBDatabase) (key : string) (data : option string) : M unit :=
  update_world (fun w =>
    let d := database_of (name c) w in
    set_databases
      (<[name c := mkDatabase (version d) (<[key := data]> (stores d))]>
         (databases w)) w).

Definition setItem (key value : value) : M unit :=
  match key with
  | VStr k =>
      _initialize ;;
      h <- this ;;
      if useMemoryFallback h then
        match value with
        | VUndefined => ret tt
        | _ =>
            match JSON.stringify value with
            | JSON.Throws => throw stringify_error
            | _ => ret tt
            end
        end ;;
        update_this (fun h => set_memoryStore (<[k := value]> (memoryStore h)) h)
      else
        _ensureObjectStore k ;;
        c <- transaction k ;;
        match value with
        | VUndefined =>
            request "Put request failed" ;;
            put c k (Some UNDEFINED_MARKER)
        | _ =>
            match JSON.stringify value with
            | JSON.Throws => throw stringify_error
            | JSON.Text serializedValue =>
                request "Put request failed" ;;
                put c k (Some serializedValue)
            | JSON.NoText =>
                (* not reached: only [undefined] has no text *)
                request "Put request failed" ;;
                put c k None
            end
        end
  | _ => throw key_must_be_string
  end.

Definition isUsingMemoryFallback (s : state) : bool :=
  useMemoryFallback (fst s).

(** [clear()]: on the persistent backend the database is deleted and
    the helper is left uninitialised. *)
Definition clear : M unit :=
  _initialize ;;
  h <- this ;;
  if useMemoryFallback h then update_this (set_memoryStore ∅)
  else
    match db h with
    | Some c => update_this (set_db (Some (close c)))
    | None => ret tt
    end ;;
    w <- world ;;
    update_world (set_delete_faults (tail (delete_faults w))) ;;
    match delete_faults w with
    | true :: _ => throw delete_error
    | _ =>
        update_world (fun w =>
          set_databases (delete (config_dbName h) (databases w)) w) ;;
        update_this (fun h =>
          set_initPromise None (set_isInitialized false (set_db None h)))
    end.

(** A new helper in a browser whose IndexedDB is empty, and one that
    finds the environment [w] of an earlier session. *)
Definition in_browser : state :=
  (constructor, mkWorld true ∅ [] [] [] 0).
Definition new_session (w : World) : state := (constructor, w).

(** The state a call leaves, whatever it settles with. *)
Definition after {A} (m : M A) (s : state) : state := snd (m s).

(** The helper is connected, and its connection and configuration are
    those of the database: the state every operation that resolves on
    the persistent backend leaves. *)
Definition in_sync (s : state) : Prop :=
  indexedDB_present (snd s) = true
  /\ isInitialized (fst s) = true
  /\ useMemoryFallback (fst s) = false
  /\ upgradeCallback (fst s) = NoCallback
  /\ 1 <= config_version (fst s)
  /\ exists c d,
       db (fst s) = Some c
       /\ closed c = false
       /\ name c = config_dbName (fst s)
       /\ databases (snd s) !! name c = Some d
       /\ version d = config_version (fst s)
       /\ dom (stores d) = objectStoreNames c.

(** The database the helper is configured for. *)
Definition database (s : state) : Database :=
  database_of (config_dbName (fst s)) (snd s).

(** No open, store or delete request to come ends with an error event
    of the oracle. *)
Definition calm (s : state) : Prop :=
  Forall (eq false) (open_faults (snd s))
  /\ Forall (eq false) (request_faults (snd s))
  /\ Forall (eq false) (delete_faults (snd s)).

(** *** Notions used in the proofs *)

(** The state [_ensureObjectStore(key)] leaves, and the one a [put]
    leaves. *)
Definition with_store (k : string) (s : state) : state :=
  match stores (database s) !! k with
  | Some _ => s
  | None =>
      let st := <[k := None]> (stores (database s)) in
      let v := config_version (fst s) + 1 in
      (set_db (Some (mkConnection (config_dbName (fst s)) (dom st) false))
         (set_config_version v (fst s)),
       set_databases
         (<[config_dbName (fst s) := mkDatabase v st]> (databases (snd s)))
         (set_open_faults (tail (open_faults (snd s))) (snd s)))
  end.

Definition written (k : string) (data : option string) (s : state) : state :=
  (fst s,
   set_databases
     (<[config_dbName (fst s) :=
          mkDatabase (version (database s)) (<[k := data]> (stores (database s)))]>
        (databases (snd s)))
     (set_request_faults (tail (request_faults (snd s))) (snd s))).

Definition requested (s : state) : state :=
  (fst s, set_request_faults (tail (request_faults (snd s))) (snd s)).

(** The helper has not started to initialise, and has no callback. *)
Definition unstarted (s : state) : Prop :=
  isInitialized (fst s) = false /\ initPromise (fst s) = None
  /\ useMemoryFallback (fst s) = false /\ upgradeCallback (fst s) = NoCallback.

End ESModule.

(** * Properties *)

(** ** Strings *)

#[local] Arguments String.append !_ _ / : simpl nomatch.

Lemma append_assoc (a b c : string) : (a +:+ b) +:+ c = a +:+ (b +:+ c).
Proof. induction a as [|x a IH]; simpl; [reflexivity | now rewrite IH]. Qed.

Lemma append_empty_r (a : string) : a +:+ "" = a.
Proof. induction a as [|x a IH]; simpl; [reflexivity | now rewrite IH]. Qed.

Lemma length_append (a b : string) :
  String.length (a +:+ b) = (String.length a + String.length b)%nat.
Proof. induction a as [|x a IH]; simpl; [reflexivity | now rewrite IH]. Qed.

(** ** The codec *)

Module JSONFacts.
Import JSON.

Lemma follow_span_digits rest : follow rest -> span_digits rest = ("", rest).
Proof. destruct rest as [|c r]; [reflexivity|]. intros [->|[->| ->]]; reflexivity. Qed.

Lemma follow_integer_ends rest : follow rest -> integer_ends rest = true.
Proof. destruct rest as [|c r]; [reflexivity|]. intros [->|[->| ->]]; reflexivity. Qed.

Lemma value_start_skip_ws c r :
  value_start c = true -> skip_ws (String c r) = String c r.
Proof.
  intros H. simpl. replace (is_ws c) with false; [reflexivity|].
  destruct c as [[] [] [] [] [] [] [] []]; try reflexivity; discriminate H.
Qed.

Lemma value_start_not_closing c r lit :
  value_start c = true -> lit = "]" \/ lit = "}" -> expect lit (String c r) = None.
Proof.
  intros H [-> | ->]; simpl;
    destruct c as [[] [] [] [] [] [] [] []]; try reflexivity; discriminate H.
Qed.

(** *** String literals *)

Lemma parse_quote_body s rest :
  parse_string_body (quote_body s +:+ String dquote rest) = Some (s, rest).
Proof.
  induction s as [|c s IH]; [reflexivity|].
  cbn [quote_body]. rewrite append_assoc.
  destruct c as [[] [] [] [] [] [] [] []]; simpl; rewrite IH; reflexivity.
Qed.

End JSONFacts.

Module NumberFacts.
Import JSON.

Lemma span_digits_uint d rest :
  span_digits rest = ("", rest) ->
  span_digits (NilEmpty.string_of_uint d +:+ rest)
  = (NilEmpty.string_of_uint d, rest).
Proof.
  intros Hrest. induction d; simpl; try rewrite IHd; auto.
Qed.

Lemma nzhead_not_D0 d d' : Decimal.nzhead d <> D0 d'.
Proof. induction d; simpl; auto; discriminate. Qed.

(** The digits of a positive number start with a digit other than 0. *)
Lemma to_uint_head p :
  match Pos.to_uint p with
  | Nil | D0 _ => False
  | _ => True
  end.
Proof.
  pose proof (DecimalPos.Unsigned.to_of (Pos.to_uint p)) as H.
  rewrite DecimalPos.Unsigned.of_to in H. simpl in H.
  destruct (Pos.to_uint p) as [|d| | | | | | | | |] eqn:E; auto.
  - now apply (DecimalPos.Unsigned.to_uint_nonnil p).
  - unfold Decimal.unorm in H.
    destruct (Decimal.nzhead (D0 d)) eqn:En; try discriminate.
    + apply (DecimalPos.Unsigned.to_uint_nonzero p). now rewrite E, H.
    + now apply nzhead_not_D0 in En.
Qed.

Lemma of_uint_to_uint p : Z.of_uint (Pos.to_uint p) = Z.pos p.
Proof.
  unfold Z.of_uint. now rewrite DecimalPos.Unsigned.of_to.
Qed.

Lemma parse_unsigned_pos p rest :
  follow rest ->
  parse_unsigned (NilEmpty.string_of_uint (Pos.to_uint p) +:+ rest)
  = Some (Z.pos p, rest).
Proof.
  intros Hf. unfold parse_unsigned.
  rewrite span_digits_uint by now apply JSONFacts.follow_span_digits.
  rewrite JSONFacts.follow_integer_ends by assumption.
  rewrite NilEmpty.usu, of_uint_to_uint.
  pose proof (to_uint_head p) as Hh.
  destruct (Pos.to_uint p) as [|d|d|d|d|d|d|d|d|d|d]; try contradiction;
    simpl; destruct d; reflexivity.
Qed.

(** The text of a number starts like a value and parses back. *)
Lemma number_to_string_start n :
  exists c r, number_to_string n = String c r /\ value_start c = true.
Proof.
  unfold number_to_string.
  destruct n as [|p|p]; simpl.
  - now exists "0"%char, "".
  - pose proof (to_uint_head p) as Hh.
    destruct (Pos.to_uint p); try contradiction; simpl; eauto.
  - eauto.
Qed.

Lemma parse_number_to_string n rest :
  follow rest ->
  parse_number (number_to_string n +:+ rest) = Some (n, rest).
Proof.
  intros Hf. unfold number_to_string. destruct n as [|p|p].
  - simpl. unfold parse_unsigned. simpl.
    rewrite JSONFacts.follow_span_digits by assumption.
    simpl. now rewrite JSONFacts.follow_integer_ends.
  - pose proof (parse_unsigned_pos p rest Hf) as Hp.
    pose proof (to_uint_head p) as Hh.
    simpl. destruct (Pos.to_uint p); try contradiction; exact Hp.
  - pose proof (parse_unsigned_pos p rest Hf) as Hp.
    pose proof (to_uint_head p) as Hh.
    simpl. destruct (Pos.to_uint p); try contradiction;
      (unfold parse_number; simpl; simpl in Hp; rewrite Hp; reflexivity).
Qed.

End NumberFacts.

Module Roundtrip.
Import JSON JSONFacts.

Lemma serialize_array l :
  SerializeJSONProperty (VArr l)
  = match serialize_elements l with
    | None => Throws
    | Some parts => Text ("[" +:+ String.concat "," parts +:+ "]")
    end.
Proof. reflexivity. Qed.

Lemma serialize_object l :
  SerializeJSONProperty (VObj l)
  = match serialize_members l with
    | None => Throws
    | Some parts => Text ("{" +:+ String.concat "," parts +:+ "}")
    end.
Proof. reflexivity. Qed.

(** Every text [JSON.stringify] produces starts like a value. *)
Lemma serialized_start v t :
  SerializeJSONProperty v = Text t ->
  exists c r, t = String c r /\ value_start c = true.
Proof.
  destruct v as [| |[]|n|s|l|l| |x].
  1, 9: discriminate.
  8: intros [= <-]; simpl; eauto.
  1-3: intros [= <-]; simpl; eauto.
  - intros [= <-]. apply NumberFacts.number_to_string_start.
  - intros [= <-]. unfold QuoteJSONString. eauto.
  - rewrite serialize_array. destruct (serialize_elements l); [|discriminate].
    intros [= <-]. simpl. eauto.
  - rewrite serialize_object. destruct (serialize_members l); [|discriminate].
    intros [= <-]. simpl. eauto.
Qed.

Lemma concat_cons2 sep x y l :
  String.concat sep (x :: y :: l) = x +:+ sep +:+ String.concat sep (y :: l).
Proof. reflexivity. Qed.

Lemma parse_elements_unfold f s :
  parse_elements (S f) s
  = match parse_value f s with
    | Some (v, r) =>
        match expect "," (skip_ws r) with
        | Some r' =>
            match parse_elements f r' with
            | Some (vs, rest) => Some (v :: vs, rest)
            | None => None
            end
        | None =>
            match expect "]" (skip_ws r) with
            | Some rest => Some ([v], rest)
            | None => None
            end
        end
    | None => None
    end.
Proof. reflexivity. Qed.

Lemma parse_elements_parts l parts :
  Forall2 parses l parts -> l <> [] ->
  forall f rest,
    (String.length (String.concat "," parts) < f)%nat ->
    parse_elements f (String.concat "," parts +:+ String "]" rest)
    = Some (l, rest).
Proof.
  induction 1 as [|v t l parts [_ Hv] Hrest IH]; [congruence|].
  intros _ f rest Hlen. destruct f as [|f]; [lia|].
  rewrite parse_elements_unfold.
  destruct Hrest as [|v2 t2 l2 parts2 Hv2 Hrest2].
  - simpl in *. rewrite Hv by (simpl; auto; lia). reflexivity.
  - rewrite concat_cons2 in *. rewrite !length_append in Hlen.
    rewrite !append_assoc. rewrite Hv by (simpl; auto; lia).
    cbn [String.append skip_ws is_ws expect Ascii.eqb Bool.eqb orb].
    rewrite IH; [reflexivity | discriminate |].
    change (String.length ",") with 1%nat in Hlen. lia.
Qed.

Lemma parse_members_unfold f s :
  parse_members (S f) s
  = match expect (String dquote "") (skip_ws s) with
    | Some r =>
        match parse_string_body r with
        | Some (k, r1) =>
            match expect ":" (skip_ws r1) with
            | Some r2 =>
                match parse_value f r2 with
                | Some (v, r3) =>
                    match expect "," (skip_ws r3) with
                    | Some r4 =>
                        match parse_members f r4 with
                        | Some (ms, rest) => Some ((k, v) :: ms, rest)
                        | None => None
                        end
                    | None =>
                        match expect "}" (skip_ws r3) with
                        | Some rest => Some ([(k, v)], rest)
                        | None => None
                        end
                    end
                | None => None
                end
            | None => None
            end
        | None => None
        end
    | None => None
    end.
Proof. reflexivity. Qed.

Lemma member_text k t rest :
  (QuoteJSONString k +:+ ":" +:+ t) +:+ rest
  = String dquote (quote_body k +:+ String dquote (String ":" (t +:+ rest))).
Proof.
  unfold QuoteJSONString. cbn [String.append].
  now rewrite !append_assoc.
Qed.

Lemma member_length k t :
  (String.length t < String.length (QuoteJSONString k +:+ ":" +:+ t))%nat.
Proof.
  rewrite !length_append. unfold QuoteJSONString. simpl. lia.
Qed.

Lemma parse_members_parts l parts :
  Forall2 parses_member l parts -> l <> [] ->
  forall f rest,
    (String.length (String.concat "," parts) < f)%nat ->
    parse_members f (String.concat "," parts +:+ String "}" rest)
    = Some (l, rest).
Proof.
  induction 1 as [|[k v] part l parts (t & -> & _ & Hv) Hrest IH]; [congruence|].
  intros _ f rest Hlen. destruct f as [|f]; [lia|].
  rewrite parse_members_unfold.
  pose proof (member_length k t) as Hm. cbn [fst snd] in *.
  destruct Hrest as [|kv2 part2 l2 parts2 Hv2 Hrest2].
  - cbn [String.concat] in *. rewrite member_text.
    cbn [skip_ws is_ws expect Ascii.eqb Bool.eqb orb dquote].
    rewrite parse_quote_body.
    cbn [skip_ws is_ws expect Ascii.eqb Bool.eqb orb].
    rewrite Hv by (simpl; auto; lia). reflexivity.
  - rewrite concat_cons2 in *. rewrite !length_append in Hlen.
    change (String.length ",") with 1%nat in Hlen.
    rewrite append_assoc, member_text.
    cbn [skip_ws is_ws expect Ascii.eqb Bool.eqb orb dquote].
    rewrite parse_quote_body.
    cbn [skip_ws is_ws expect Ascii.eqb Bool.eqb orb].
    rewrite append_assoc.
    rewrite Hv by (simpl; auto; lia).
    cbn [String.append skip_ws is_ws expect Ascii.eqb Bool.eqb orb].
    rewrite IH; [reflexivity | discriminate | lia].
Qed.

(** *** Objects without repeated keys are rebuilt as they were *)

Lemma define_property_fresh k v o :
  k ∉ (fst <$> o) -> define_property k v o = o ++ [(k, v)].
Proof.
  induction o as [|[k' v'] o IH]; intros Hk; [reflexivity|].
  simpl in *. apply not_elem_of_cons in Hk as [Hne Hk].
  destruct (String.eqb_spec k k'); [contradiction|].
  now rewrite IH.
Qed.

Lemma build_object_from acc l :
  NoDup (fst <$> (acc ++ l)) ->
  fold_left (fun o kv => define_property (fst kv) (snd kv) o) l acc = acc ++ l.
Proof.
  revert acc. induction l as [|[k v] l IH]; intros acc Hnd; simpl.
  - now rewrite app_nil_r.
  - rewrite define_property_fresh.
    + rewrite IH; rewrite <- app_assoc; [reflexivity | exact Hnd].
    + rewrite fmap_app in Hnd. apply NoDup_app in Hnd as (_ & Hd & _).
      intros Hin. apply (Hd k Hin). simpl. left.
Qed.

Lemma build_object_nodup l : NoDup (fst <$> l) -> build_object l = l.
Proof. intros H. unfold build_object. now rewrite build_object_from. Qed.

(** *** One value *)

Lemma parse_value_numeric f c r :
  Ascii.eqb c "-" || is_digit c = true ->
  parse_value (S f) (String c r)
  = match parse_number (String c r) with
    | Some (n, rest) => Some (VNum n, rest)
    | None => None
    end.
Proof.
  intros H.
  destruct c as [[] [] [] [] [] [] [] []]; try discriminate H; reflexivity.
Qed.

Lemma numeric_start n :
  exists c r, number_to_string n = String c r
              /\ Ascii.eqb c "-" || is_digit c = true.
Proof.
  unfold number_to_string.
  destruct n as [|p|p]; simpl.
  - now exists "0"%char, "".
  - pose proof (NumberFacts.to_uint_head p) as Hh.
    destruct (Pos.to_uint p); try contradiction; simpl; eauto.
  - eauto.
Qed.

Lemma parses_number n : parses (VNum n) (number_to_string n).
Proof.
  split; [apply NumberFacts.number_to_string_start|].
  intros fuel rest Hlen Hf.
  destruct (numeric_start n) as (c & r & E & Hc).
  pose proof (NumberFacts.parse_number_to_string n rest Hf) as Hp.
  rewrite E in *. destruct fuel as [|f]; [simpl in Hlen; lia|].
  cbn [String.append] in *. rewrite parse_value_numeric by exact Hc.
  now rewrite Hp.
Qed.

Lemma parses_string s : parses (VStr s) (QuoteJSONString s).
Proof.
  split; [unfold QuoteJSONString; eauto|].
  intros fuel rest Hlen Hf. destruct fuel as [|f]; [simpl in Hlen; lia|].
  unfold QuoteJSONString. cbn [String.append]. rewrite append_assoc.
  cbn [String.append].
  change (parse_value (S f) (String dquote ?r))
    with (match parse_string_body r with
          | Some (t, rest) => Some (VStr t, rest) | None => None end).
  now rewrite parse_quote_body.
Qed.

Lemma serialize_elements_parts l :
  Forall (fun v => representable v = true ->
                   exists t, SerializeJSONProperty v = Text t /\ parses v t) l ->
  forallb representable l = true ->
  exists parts, serialize_elements l = Some parts /\ Forall2 parses l parts.
Proof.
  induction 1 as [|v l Hv _ IH]; intros Hr.
  - exists []. split; [reflexivity | constructor].
  - simpl in Hr. apply andb_true_iff in Hr as [Hrv Hrl].
    destruct (Hv Hrv) as (t & Et & Ht). destruct (IH Hrl) as (parts & Ep & Hp).
    exists (t :: parts). split; [|now constructor].
    cbn [serialize_elements]. fold serialize_elements. now rewrite Et, Ep.
Qed.

Lemma serialize_members_parts l :
  Forall (fun kv => representable (snd kv) = true ->
                    exists t, SerializeJSONProperty (snd kv) = Text t
                              /\ parses (snd kv) t) l ->
  forallb (fun kv => representable (snd kv)) l = true ->
  exists parts,
    serialize_members l = Some parts /\ Forall2 parses_member l parts.
Proof.
  induction 1 as [|[k v] l Hv _ IH]; intros Hr.
  - exists []. split; [reflexivity | constructor].
  - simpl in Hr, Hv. apply andb_true_iff in Hr as [Hrv Hrl].
    destruct (Hv Hrv) as (t & Et & Ht). destruct (IH Hrl) as (parts & Ep & Hp).
    exists ((QuoteJSONString k +:+ ":" +:+ t) :: parts). split.
    + cbn [serialize_members]. fold serialize_members. now rewrite Et, Ep.
    + constructor; [|assumption]. now exists t.
Qed.

Lemma parses_array l parts :
  Forall2 parses l parts ->
  parses (VArr l) ("[" +:+ String.concat "," parts +:+ "]").
Proof.
  intros H. split; [simpl; eauto|].
  intros fuel rest Hlen Hf. destruct fuel as [|f]; [simpl in Hlen; lia|].
  cbn [String.append] in *. rewrite append_assoc.
  cbn [String.append String.length] in *. rewrite length_append in Hlen.
  change (parse_value (S f) (String "[" ?r))
    with (match expect "]" (skip_ws r) with
          | Some rest => Some (VArr [], rest)
          | None =>
              match parse_elements f r with
              | Some (vs, rest) => Some (VArr vs, rest)
              | None => None
              end
          end).
  inversion H as [|v t l' parts' Hv Hrest]; subst.
  - reflexivity.
  - destruct Hv as [(c & r & -> & Hc) _].
    assert (String.concat "," (String c r :: parts') +:+ String "]" rest
            = String c (match parts' with
                        | [] => r
                        | _ => r +:+ "," +:+ String.concat "," parts'
                        end +:+ String "]" rest)) as E
      by (destruct parts'; reflexivity).
    rewrite E at 1. rewrite value_start_skip_ws by exact Hc.
    rewrite value_start_not_closing by auto.
    rewrite (parse_elements_parts _ _ H);
      [reflexivity | discriminate | change (String.length "]") with 1%nat in Hlen; lia].
Qed.

Lemma parses_object l parts :
  NoDup (fst <$> l) ->
  Forall2 parses_member l parts ->
  parses (VObj l) ("{" +:+ String.concat "," parts +:+ "}").
Proof.
  intros Hnd H. split; [simpl; eauto|].
  intros fuel rest Hlen Hf. destruct fuel as [|f]; [simpl in Hlen; lia|].
  cbn [String.append] in *. rewrite append_assoc.
  cbn [String.append String.length] in *. rewrite length_append in Hlen.
  change (parse_value (S f) (String "{" ?r))
    with (match expect "}" (skip_ws r) with
          | Some rest => Some (VObj [], rest)
          | None =>
              match parse_members f r with
              | Some (ms, rest) => Some (VObj (build_object ms), rest)
              | None => None
              end
          end).
  inversion H as [|[k v] part l' parts' (t & -> & _) Hrest]; subst.
  - reflexivity.
  - assert (String.concat "," ((QuoteJSONString k +:+ ":" +:+ t) :: parts')
            +:+ String "}" rest
            = String dquote
                (match parts' with
                 | [] => (quote_body k +:+ String dquote "") +:+ ":" +:+ t
                 | _ => ((quote_body k +:+ String dquote "") +:+ ":" +:+ t)
                        +:+ "," +:+ String.concat "," parts'
                 end +:+ String "}" rest)) as E
      by (destruct parts'; reflexivity).
    rewrite E at 1. rewrite value_start_skip_ws by reflexivity.
    rewrite value_start_not_closing by auto.
    rewrite (parse_members_parts _ _ H);
      [now rewrite build_object_nodup | discriminate
      | change (String.length "}") with 1%nat in Hlen; lia].
Qed.

(** A representable value has a text, and the text parses back to it. *)
Lemma serialize_parses v :
  representable v = true ->
  exists t, SerializeJSONProperty v = Text t /\ parses v t.
Proof.
  induction v as [| |b|n|s|l IH|l IH| |x] using value_nested_ind; intros Hr;
    try discriminate Hr.
  - exists "null". split; [reflexivity|]. split; [simpl; eauto|].
    intros [|f] rest Hlen Hf; [simpl in Hlen; lia | reflexivity].
  - destruct b.
    + exists "true". split; [reflexivity|]. split; [simpl; eauto|].
      intros [|f] rest Hlen Hf; [simpl in Hlen; lia | reflexivity].
    + exists "false". split; [reflexivity|]. split; [simpl; eauto|].
      intros [|f] rest Hlen Hf; [simpl in Hlen; lia | reflexivity].
  - eexists. split; [reflexivity | apply parses_number].
  - eexists. split; [reflexivity | apply parses_string].
  - cbn [representable] in Hr.
    destruct (serialize_elements_parts l IH Hr) as (parts & Ep & Hp).
    eexists. rewrite serialize_array, Ep. split; [reflexivity|].
    now apply parses_array.
  - cbn [representable] in Hr. apply andb_true_iff in Hr as [Hnd Hr].
    apply bool_decide_eq_true in Hnd.
    destruct (serialize_members_parts l IH Hr) as (parts & Ep & Hp).
    eexists. rewrite serialize_object, Ep. split; [reflexivity|].
    now apply parses_object.
Qed.

(** [JSON.parse(JSON.stringify(v))] is [v] for every representable [v]. *)
Lemma parse_stringify v :
  representable v = true ->
  exists t, stringify v = Text t /\ parse t = Some v.
Proof.
  intros Hr. destruct (serialize_parses v Hr) as (t & Et & _ & Hp).
  exists t. split; [exact Et|].
  unfold parse. specialize (Hp (S (String.length t)) "").
  rewrite append_empty_r in Hp. rewrite Hp; [reflexivity | lia | exact I].
Qed.

(** No text of a value is the marker of [undefined]. *)
Lemma stringify_not_marker v t :
  stringify v = Text t -> t <> UNDEFINED_MARKER.
Proof.
  intros H. apply serialized_start in H as (c & r & -> & Hc).
  intros E. injection E as -> _. discriminate Hc.
Qed.

(** Only [undefined] has no text. *)
Lemma stringify_no_text v : stringify v = NoText -> v = VUndefined.
Proof.
  destruct v as [| |[]|n|s|l|l| |x]; try discriminate; [reflexivity| |].
  - unfold stringify. rewrite serialize_array.
    destruct (serialize_elements l); discriminate.
  - unfold stringify. rewrite serialize_object.
    destruct (serialize_members l); discriminate.
Qed.

End Roundtrip.

(** ** The gate, when operations do not interleave *)

Module Gate.

Lemma store_of_opened name w n :
  store_of n (set_databases (<[name := store_of name w]> (databases w)) w)
  = store_of n w.
Proof.
  unfold store_of. simpl.
  destruct (decide (name = n)) as [->|Hne].
  - now rewrite lookup_insert_eq.
  - now rewrite lookup_insert_ne.
Qed.

(** What completing the open request changes: the gate fields and the
    open oracle only. *)
Lemma resume_spec name h w :
  exists h' w',
    _doInitialize_resume name (h, w) = (h', w')
    /\ isInitialized h' = true
    /\ (useMemoryFallback h' || bool_decide (is_Some (db h'))) = true
    /\ memoryStore h' = memoryStore h
    /\ config_dbName h' = config_dbName h
    /\ (forall n, store_of n w' = store_of n w)
    /\ request_faults w' = request_faults w
    /\ pending_opens w' = pending_opens w
    /\ activations w' = activations w
    /\ (useMemoryFallback h' = false -> db h' = Some name).
Proof.
  unfold _doInitialize_resume, _openDatabase_end.
  destruct (open_faults w) as [|[] rest] eqn:E; eexists _, _;
    (split; [reflexivity|]); simpl;
    repeat split; auto using store_of_opened, orb_true_r; try discriminate.
  all: intros n; unfold store_of; simpl;
    destruct (decide (name = n)) as [->|Hne];
    [now rewrite lookup_insert_eq | now rewrite lookup_insert_ne].
Qed.

Lemma find_fresh (l : list (nat * string)) p name :
  forallb (fun e => Nat.ltb (fst e) p) l = true ->
  List.find (fun e => Nat.eqb (fst e) p) (l ++ [(p, name)]) = Some (p, name).
Proof.
  induction l as [|[q n] l IH]; simpl.
  - now rewrite Nat.eqb_refl.
  - intros H. apply andb_true_iff in H as [Hq Hl].
    apply Nat.ltb_lt in Hq.
    destruct (Nat.eqb_spec q p); [lia | auto].
Qed.

Lemma find_settled (l : list (nat * string)) p :
  forallb (fun e => Nat.ltb (fst e) p) l = true ->
  List.find (fun e => Nat.eqb (fst e) p) l = None.
Proof.
  induction l as [|[q n] l IH]; simpl; [reflexivity|].
  intros H. apply andb_true_iff in H as [Hq Hl].
  apply Nat.ltb_lt in Hq.
  destruct (Nat.eqb_spec q p); [lia | auto].
Qed.

Lemma initialize_ready s : ready s = true -> _initialize s = (Resolved tt, s).
Proof.
  unfold ready, _initialize, _initialize_enter. intros H.
  apply andb_true_iff in H as [-> _]. reflexivity.
Qed.

(** Passing the gate always resolves, leaves the helper ready and does
    not touch what is stored. *)
Lemma initialize_spec s :
  wf s = true ->
  exists s1,
    _initialize s = (Resolved tt, s1)
    /\ ready s1 = true
    /\ memoryStore (fst s1) = memoryStore (fst s)
    /\ (forall n, store_of n (snd s1) = store_of n (snd s))
    /\ request_faults (snd s1) = request_faults (snd s).
Proof.
  destruct s as [h w]. unfold wf, ready, _initialize, _initialize_enter.
  cbn [fst snd]. intros H. apply andb_true_iff in H as [Hfresh H].
  destruct (isInitialized h) eqn:Ei.
  - eexists. split; [reflexivity|]. cbn [fst snd]. now rewrite Ei, H.
  - destruct (initPromise h) as [p|] eqn:Ep.
    + apply bool_decide_eq_true in H as [name Hn].
      unfold settle. cbn [fst snd]. rewrite Hn.
      destruct (resume_spec name h
                  (set_pending_opens
                     (List.filter (fun e => negb (Nat.eqb (fst e) p))
                        (pending_opens w)) w))
        as (h' & w' & -> & Hi & Hb & Hm & _ & Hs & Hr & _).
      eexists. split; [reflexivity|]. cbn [fst snd].
      rewrite Hi, Hb. repeat split; auto.
    + unfold _doInitialize_begin. cbn [indexedDB_present set_activations].
      destruct (indexedDB_present w) eqn:Eidb; cbn [negb].
      * unfold settle. cbn [fst snd]. unfold pending_name.
        cbn [pending_opens set_pending_opens set_activations].
        rewrite find_fresh by exact Hfresh. cbn [fmap option_fmap option_map snd].
        match goal with |- context [_doInitialize_resume ?n (?a, ?b)] =>
          destruct (resume_spec n a b)
            as (h' & w' & -> & Hi & Hb & Hm & _ & Hs & Hr & _) end.
        eexists. split; [reflexivity|]. cbn [fst snd].
        rewrite Hi, Hb. repeat split; auto.
      * unfold settle. cbn [fst snd]. unfold pending_name.
        cbn [pending_opens set_pending_opens set_activations].
        rewrite find_settled by exact Hfresh.
        eexists. split; [reflexivity|]. cbn. auto.
Qed.

Lemma fresh_after (l : list (nat * string)) p name :
  forallb (fun e => Nat.ltb (fst e) p) l = true ->
  forallb (fun e => Nat.ltb (fst e) (S p))
    (List.filter (fun e => negb (Nat.eqb (fst e) p)) (l ++ [(p, name)])) = true.
Proof.
  induction l as [|[q n] l IH]; simpl.
  - now rewrite Nat.eqb_refl.
  - intros H. apply andb_true_iff in H as [Hq Hl].
    apply Nat.ltb_lt in Hq.
    destruct (Nat.eqb_spec q p); [lia|]. simpl. rewrite IH by exact Hl.
    rewrite andb_true_r. apply Nat.ltb_lt. lia.
Qed.

Lemma fresh_later (l : list (nat * string)) p :
  forallb (fun e => Nat.ltb (fst e) p) l = true ->
  forallb (fun e => Nat.ltb (fst e) (S p)) l = true.
Proof.
  induction l as [|[q n] l IH]; simpl; [reflexivity|].
  intros H. apply andb_true_iff in H as [Hq Hl]. apply Nat.ltb_lt in Hq.
  rewrite IH by exact Hl. rewrite andb_true_r. apply Nat.ltb_lt. lia.
Qed.

(** The first passage of an epoch: the promises stay numbered below the
    activation count, and a connection is one to the configured
    database. *)
Lemma initialize_from_start s :
  epoch_start s = true -> fresh_promises (snd s) = true ->
  exists s1,
    _initialize s = (Resolved tt, s1)
    /\ fresh_promises (snd s1) = true
    /\ (useMemoryFallback (fst s1) = true
        \/ db (fst s1) = Some (config_dbName (fst s))).
Proof.
  destruct s as [h w]. unfold epoch_start, fresh_promises.
  cbn [fst snd]. intros Hs Hfresh.
  apply andb_true_iff in Hs as [Hi Hp]. apply negb_true_iff in Hi.
  apply bool_decide_eq_true in Hp.
  unfold _initialize, _initialize_enter. cbn [fst snd]. rewrite Hi, Hp.
  unfold _doInitialize_begin. cbn [indexedDB_present set_activations].
  destruct (indexedDB_present w) eqn:Eidb; cbn [negb].
  - unfold settle, pending_name. cbn [fst snd pending_opens set_pending_opens].
    rewrite find_fresh by exact Hfresh.
    cbn [fmap option_fmap option_map snd].
    unfold _doInitialize_resume, _openDatabase_end.
    cbn [open_faults set_pending_opens set_activations].
    pose proof (fresh_after _ _ (config_dbName h) Hfresh) as Hf.
    destruct (open_faults w) as [|[] rest]; eexists; (split; [reflexivity|]);
      (split; [exact Hf | cbn; auto]).
  - unfold settle, pending_name. cbn [fst snd pending_opens set_activations].
    rewrite find_settled by exact Hfresh.
    eexists. split; [reflexivity|].
    split; [exact (fresh_later _ _ Hfresh) | left; reflexivity].
Qed.

Lemma gated {A} (body : unit -> M A) s :
  wf s = true ->
  exists s1, passed s s1 /\ bind _initialize body s = bind _initialize body s1.
Proof.
  intros Hwf.
  destruct (initialize_spec s Hwf) as (s1 & Hi & Hr & Hm & Hs & Hf).
  exists s1. unfold passed, bind. rewrite Hi, (initialize_ready s1 Hr).
  unfold calm. rewrite Hf. auto 10.
Qed.

Lemma getItem_gated k s :
  wf s = true ->
  exists s1, passed s s1 /\ getItem (VStr k) s = getItem (VStr k) s1.
Proof. apply gated. Qed.

Lemma setItem_gated k v s :
  wf s = true ->
  exists s1, passed s s1 /\ setItem (VStr k) v s = setItem (VStr k) v s1.
Proof. apply gated. Qed.

Lemma removeItem_gated k s :
  wf s = true ->
  exists s1, passed s s1 /\ removeItem (VStr k) s = removeItem (VStr k) s1.
Proof. apply gated. Qed.

Lemma never_set_spec k s :
  never_set k s = true <->
  memoryStore (fst s) !! k = None /\ forall n, store_of n (snd s) !! k = None.
Proof.
  unfold never_set, store_of.
  rewrite andb_true_iff, !bool_decide_eq_true. split; intros [Hm Hs]; split; auto.
  - intros n. destruct (databases s.2 !! n) as [st|] eqn:E; [|reflexivity].
    exact (Hs n st E).
  - intros n st E. specialize (Hs n). now rewrite E in Hs.
Qed.

End Gate.

(** ** Single operations in a ready state *)

Module Ops.
Import Gate.

Lemma request_calm what h w :
  forallb negb (request_faults w) = true ->
  request what (h, w)
  = (Resolved tt, (h, set_request_faults (tail (request_faults w)) w))
    /\ forallb negb (tail (request_faults w)) = true.
Proof.
  unfold request, bind, world, update_world. cbn [fst snd].
  destruct (request_faults w) as [|[] l]; cbn; intros H;
    try discriminate; auto.
Qed.

Lemma store_of_written d m dbs w :
  store_of d (set_databases (<[d := m]> dbs) w) = m.
Proof. unfold store_of. simpl. now rewrite lookup_insert_eq. Qed.

Lemma onsuccess_pure r s s0 :
  getItem_onsuccess r s = (fst (getItem_onsuccess r s0), s).
Proof.
  unfold getItem_onsuccess. destruct r as [raw|]; [|reflexivity].
  destruct (String.eqb raw UNDEFINED_MARKER); [reflexivity|].
  destruct (JSON.parse raw); reflexivity.
Qed.

Lemma getItem_ready s k :
  ready s = true -> calm s = true ->
  exists s',
    getItem (VStr k) s = (read s k, s')
    /\ ready s' = true /\ calm s' = true
    /\ (forall k', read s' k' = read s k').
Proof.
  intros Hr Hc. unfold getItem, bind at 1. rewrite (initialize_ready s Hr).
  destruct s as [h w]. unfold ready, calm, read in *. cbn [fst snd] in *.
  apply andb_true_iff in Hr as [Hi Hb].
  unfold bind at 1, this at 1. cbn [fst snd].
  destruct (useMemoryFallback h) eqn:Efb.
  - eexists. split; [reflexivity|]. cbn [fst snd]. rewrite Hi, Efb. auto.
  - cbn [orb] in Hb. apply bool_decide_eq_true in Hb as [d Hd].
    unfold connection, bind, this. cbn [fst snd]. rewrite Hd.
    unfold ret at 1.
    destruct (request_calm "Get request failed" h w Hc) as [-> Hc'].
    unfold world. cbn [fst snd].
    change (store_of d (set_request_faults (tail (request_faults w)) w))
      with (store_of d w).
    eexists. split; [apply (onsuccess_pure _ _ (h, w))|].
    cbn [fst snd set_request_faults request_faults]. rewrite Hi, Efb, Hd.
    repeat split; auto.
    intros k'. apply (f_equal fst (onsuccess_pure _ _ (h, w))).
Qed.

Lemma setItem_undefined k s :
  setItem (VStr k) VUndefined s
  = (_initialize ;; write_text k VUndefined UNDEFINED_MARKER) s.
Proof. reflexivity. Qed.

Lemma setItem_text k v t s :
  JSON.stringify v = JSON.Text t ->
  setItem (VStr k) v s = (_initialize ;; write_text k v t) s.
Proof.
  intros E. unfold setItem, write_text, bind.
  destruct (_initialize s) as [[[]|e] [h w]]; [|reflexivity].
  unfold this. cbn [fst snd].
  destruct (useMemoryFallback h).
  - destruct v; try discriminate E; rewrite E; reflexivity.
  - destruct (connection (h, w)) as [[d|e] s2]; [|reflexivity].
    destruct v; try discriminate E; rewrite E; reflexivity.
Qed.

Lemma elem_of_keys_insert {V} (m : gmap string V) k v :
  k ∈ fst <$> map_to_list (<[k := v]> m).
Proof.
  apply list_elem_of_fmap. exists (k, v). split; [reflexivity|].
  apply elem_of_map_to_list. apply lookup_insert_eq.
Qed.

Lemma store_of_other d n m dbs w :
  n <> d ->
  store_of n (set_databases (<[d := m]> dbs) w) = default ∅ (dbs !! n).
Proof. intros H. unfold store_of. simpl. now rewrite lookup_insert_ne. Qed.

Lemma write_text_ready s k v t :
  ready s = true -> calm s = true ->
  String.eqb t UNDEFINED_MARKER = false /\ JSON.parse t = Some v
  \/ t = UNDEFINED_MARKER /\ v = VUndefined ->
  exists s',
    write_text k v t s = (Resolved tt, s')
    /\ ready s' = true /\ calm s' = true
    /\ read s' k = Resolved v
    /\ (forall k', k' <> k -> read s' k' = read s k')
    /\ k ∈ stored_keys s'
    /\ frame s s'.
Proof.
  intros Hr Hc Ht. destruct s as [h w].
  unfold ready, calm, read, stored_keys, write_text in *. cbn [fst snd] in *.
  apply andb_true_iff in Hr as [Hi Hb].
  unfold bind at 1, this at 1. cbn [fst snd].
  destruct (useMemoryFallback h) eqn:Efb.
  - eexists. split; [reflexivity|].
    cbn [fst snd set_memoryStore useMemoryFallback isInitialized memoryStore].
    rewrite Hi, Efb, lookup_insert_eq. unfold frame. repeat split; auto.
    + intros k' Hne. now rewrite lookup_insert_ne.
    + apply elem_of_keys_insert.
  - cbn [orb] in Hb. apply bool_decide_eq_true in Hb as [d Hd].
    unfold connection, bind, this. cbn [fst snd]. rewrite Hd.
    unfold ret at 1.
    destruct (request_calm "Transaction failed" h w Hc) as [-> Hc'].
    unfold write_store, update_world. cbn [fst snd].
    eexists. split; [reflexivity|].
    cbn [fst snd set_request_faults set_databases request_faults databases].
    rewrite Hi, Efb, Hd. rewrite !store_of_written.
    unfold frame. repeat split; auto.
    + rewrite lookup_insert_eq. unfold getItem_onsuccess.
      destruct Ht as [[-> ->]|[-> ->]]; reflexivity.
    + intros k' Hne. rewrite lookup_insert_ne by auto.
      apply (f_equal fst (onsuccess_pure _ _ (h, w))).
    + apply elem_of_keys_insert.
    + cbn [fst snd]. intros n [Hn|Hn]; [congruence|].
      rewrite store_of_other by congruence. reflexivity.
Qed.

(** Storing a storable value in a ready, calm state: the write happens
    and the key then reads as that value. *)
Lemma setItem_ready s k v :
  ready s = true -> calm s = true -> storable v = true ->
  exists s',
    setItem (VStr k) v s = (Resolved tt, s')
    /\ ready s' = true /\ calm s' = true
    /\ read s' k = Resolved v
    /\ (forall k', k' <> k -> read s' k' = read s k')
    /\ k ∈ stored_keys s'
    /\ frame s s'.
Proof.
  intros Hr Hc Hv.
  assert (v = VUndefined \/ JSON.representable v = true) as [->|Hrep]
    by (destruct v; auto).
  - rewrite setItem_undefined. unfold bind at 1.
    rewrite (initialize_ready s Hr). apply write_text_ready; auto.
  - destruct (Roundtrip.parse_stringify v Hrep) as (t & Et & Hp).
    rewrite (setItem_text k v t s Et). unfold bind at 1.
    rewrite (initialize_ready s Hr). apply write_text_ready; auto.
    left. split; [|exact Hp].
    apply String.eqb_neq. now apply (Roundtrip.stringify_not_marker v).
Qed.

Lemma not_elem_of_keys_delete {V} (m : gmap string V) k :
  k ∉ fst <$> map_to_list (delete k m).
Proof.
  intros H. apply list_elem_of_fmap in H as ([k' v] & -> & H).
  apply elem_of_map_to_list in H. cbn [fst] in H.
  now rewrite lookup_delete_eq in H.
Qed.

Lemma removeItem_ready s k :
  ready s = true -> calm s = true ->
  exists s',
    removeItem (VStr k) s = (Resolved tt, s')
    /\ ready s' = true /\ calm s' = true
    /\ read s' k = Resolved VNull
    /\ (forall k', k' <> k -> read s' k' = read s k')
    /\ k ∉ stored_keys s'.
Proof.
  intros Hr Hc. unfold removeItem, bind at 1. rewrite (initialize_ready s Hr).
  destruct s as [h w].
  unfold ready, calm, read, stored_keys in *. cbn [fst snd] in *.
  apply andb_true_iff in Hr as [Hi Hb].
  unfold bind at 1, this at 1. cbn [fst snd].
  destruct (useMemoryFallback h) eqn:Efb.
  - eexists. split; [reflexivity|].
    cbn [fst snd set_memoryStore useMemoryFallback isInitialized memoryStore].
    rewrite Hi, Efb, lookup_delete_eq. repeat split; auto.
    + intros k' Hne. now rewrite lookup_delete_ne.
    + apply not_elem_of_keys_delete.
  - cbn [orb] in Hb. apply bool_decide_eq_true in Hb as [d Hd].
    unfold connection, bind, this. cbn [fst snd]. rewrite Hd.
    unfold ret at 1.
    destruct (request_calm "Transaction failed" h w Hc) as [-> Hc'].
    unfold write_store, update_world. cbn [fst snd].
    eexists. split; [reflexivity|].
    cbn [fst snd set_request_faults set_databases request_faults databases].
    rewrite Hi, Efb, Hd. rewrite !store_of_written.
    repeat split; auto.
    + now rewrite lookup_delete_eq.
    + intros k' Hne. rewrite lookup_delete_ne by auto.
      apply (f_equal fst (onsuccess_pure _ _ (h, w))).
    + apply not_elem_of_keys_delete.
Qed.

Lemma has_ready s k :
  ready s = true -> calm s = true ->
  exists s',
    has (VStr k) s
    = (match read s k with
       | Resolved v => Resolved (not_null v)
       | Rejected e => Rejected e
       end, s')
    /\ ready s' = true /\ calm s' = true.
Proof.
  intros Hr Hc. destruct (getItem_ready s k Hr Hc) as (s' & E & Hr' & Hc' & _).
  exists s'. unfold has, bind. rewrite E.
  destruct (read s k); auto.
Qed.

Lemma keys_ready s :
  ready s = true -> calm s = true ->
  exists s', keys s = (Resolved (stored_keys s), s').
Proof.
  intros Hr Hc. unfold keys, bind at 1. rewrite (initialize_ready s Hr).
  destruct s as [h w].
  unfold ready, calm, stored_keys in *. cbn [fst snd] in *.
  apply andb_true_iff in Hr as [Hi Hb].
  unfold bind at 1, this at 1. cbn [fst snd].
  destruct (useMemoryFallback h) eqn:Efb; [eexists; reflexivity|].
  cbn [orb] in Hb. apply bool_decide_eq_true in Hb as [d Hd].
  unfold connection, bind, this. cbn [fst snd]. rewrite Hd.
  unfold ret at 1.
  destruct (request_calm "Keys request failed" h w Hc) as [-> Hc'].
  eexists. reflexivity.
Qed.

(** In a ready state a key stored nowhere reads as [null]. *)
Lemma read_never_set s s1 k :
  passed s s1 -> never_set k s = true -> read s1 k = Resolved VNull.
Proof.
  intros (_ & Hr & _ & Hm1 & Hs1) [Hm Hs]%never_set_spec.
  rewrite <- Hm1 in Hm. unfold ready, read in *.
  apply andb_true_iff in Hr as [_ Hb].
  destruct (useMemoryFallback s1.1); [now rewrite Hm|].
  apply bool_decide_eq_true in Hb as [d ->]. now rewrite Hs1, Hs.
Qed.

Lemma setItem_throws k v s :
  ready s = true -> JSON.stringify v = JSON.Throws ->
  setItem (VStr k) v s = (Rejected stringify_error, s).
Proof.
  intros Hr E. unfold setItem, bind at 1. rewrite (initialize_ready s Hr).
  destruct s as [h w]. unfold ready in Hr. cbn [fst snd] in Hr.
  apply andb_true_iff in Hr as [Hi Hb].
  unfold bind at 1, this at 1. cbn [fst snd].
  destruct (useMemoryFallback h) eqn:Efb.
  - destruct v; try discriminate E; unfold bind; rewrite E; reflexivity.
  - cbn [orb] in Hb. apply bool_decide_eq_true in Hb as [d Hd].
    unfold connection, bind, this. cbn [fst snd]. rewrite Hd.
    unfold ret at 1.
    destruct v; try discriminate E; rewrite E; reflexivity.
Qed.





Lemma fmap_values_by_key {V W} (m : gmap string V) (f : string -> W) (g : V -> W) :
  (forall k v, m !! k = Some v -> f k = g v) ->
  g <$> (snd <$> map_to_list m) = f <$> (fst <$> map_to_list m).
Proof.
  intros H. rewrite <- !list_fmap_compose.
  apply Forall_fmap_ext_1, Forall_forall. intros [k v] Hin. cbn.
  apply elem_of_map_to_list in Hin. symmetry. now apply H.
Qed.

Lemma values_ready s :
  ready s = true -> calm s = true ->
  exists s',
    values s = (Resolved (value_of_key s <$> stored_keys s), s')
    /\ ready s' = true /\ calm s' = true
    /\ stored_keys s' = stored_keys s
    /\ (forall k, read s' k = read s k)
    /\ (forall k, stored_text s' k = stored_text s k)
    /\ fst s' = fst s.
Proof.
  intros Hr Hc. unfold values, bind at 1. rewrite (initialize_ready s Hr).
  destruct s as [h w].
  unfold ready, calm, stored_keys, value_of_key, read, stored_text in *.
  cbn [fst snd] in *.
  apply andb_true_iff in Hr as [Hi Hb].
  unfold bind at 1, this at 1. cbn [fst snd].
  destruct (useMemoryFallback h) eqn:Efb.
  - exists (h, w). split; [|cbn [fst snd]; rewrite Hi, Efb; auto 10].
    unfold ret. f_equal. f_equal.
    rewrite <- (list_fmap_id (snd <$> map_to_list (memoryStore h))) at 1.
    apply fmap_values_by_key. intros k v E. now rewrite E.
  - cbn [orb] in Hb. apply bool_decide_eq_true in Hb as [d Hd].
    unfold connection, bind, this. cbn [fst snd]. rewrite Hd.
    unfold ret at 1.
    destruct (request_calm "Values request failed" h w Hc) as [-> Hc'].
    unfold world. cbn [fst snd].
    change (store_of d (set_request_faults (tail (request_faults w)) w))
      with (store_of d w).
    exists (h, set_request_faults (tail (request_faults w)) w). split.
    + unfold ret. f_equal. f_equal.
      apply fmap_values_by_key. intros k raw E. rewrite E. cbn [default].
      unfold decode_or_raw, getItem_onsuccess.
      destruct (String.eqb raw UNDEFINED_MARKER); [reflexivity|].
      destruct (JSON.parse raw); reflexivity.
    + cbn [fst snd set_request_faults request_faults]. rewrite Hi, Efb, Hd.
      repeat split; auto.
      intros k. apply (f_equal fst (onsuccess_pure _ _ (h, w))).
Qed.

Lemma values_gated s :
  wf s = true -> exists s1, passed s s1 /\ values s = values s1.
Proof. apply gated. Qed.

(** Write, then read: the value comes back. *)
Lemma set_then_get s k v :
  wf s = true -> calm s = true -> storable v = true ->
  exists s1 s2,
    setItem (VStr k) v s = (Resolved tt, s1)
    /\ getItem (VStr k) s1 = (Resolved v, s2).
Proof.
  intros Hwf Hc Hv.
  destruct (setItem_gated k v s Hwf) as (s0 & (_ & Hr & Hc0 & _) & ->).
  rewrite Hc in Hc0.
  destruct (setItem_ready s0 k v Hr Hc0 Hv) as (s1 & -> & Hr1 & Hc1 & Hk & _).
  destruct (getItem_ready s1 k Hr1 Hc1) as (s2 & E & _).
  exists s1, s2. now rewrite E, Hk.
Qed.

End Ops.

(** ** The documented examples, run on the model *)

(** The scenarios of the README's test suite give the same results on
    the persistent and on the volatile backend. *)
Example counters_and_flags_persistent :
  fst (run_all counters_and_flags in_browser)
  = Resolved [VUndefined; VNum 6; VNum 9; VNum 1; VNum 8; VNum 4;
              VBool true; VBool false].
Proof. vm_compute. reflexivity. Qed.

Example counters_and_flags_volatile :
  fst (run_all counters_and_flags without_indexedDB)
  = Resolved [VUndefined; VNum 6; VNum 9; VNum 1; VNum 8; VNum 4;
              VBool true; VBool false].
Proof. vm_compute. reflexivity. Qed.

Example null_and_undefined_persistent :
  fst (run_all null_and_undefined in_browser)
  = Resolved [VUndefined; VUndefined; VNull; VUndefined; VNull; VNum 2;
              VUndefined; VNum 1; VUndefined; VNum 0].
Proof. vm_compute. reflexivity. Qed.

Example null_and_undefined_volatile :
  fst (run_all null_and_undefined without_indexedDB)
  = Resolved [VUndefined; VUndefined; VNull; VUndefined; VNull; VNum 2;
              VUndefined; VNum 1; VUndefined; VNum 0].
Proof. vm_compute. reflexivity. Qed.

(** What the persistent backend holds after two writes. *)
Example stored_texts :
  map_to_list
    (store_of "app-db"
       (snd (snd (run_all
                    [OpSetItem (VStr "u") VUndefined;
                     OpSetItem (VStr "o")
                       (VObj [("n", VStr "J"); ("l", VArr [VNum (-30); VNull])])]
                    in_browser))))
  = [("o", String "{" (String JSON.dquote (String "n" (String JSON.dquote
            (String ":" (String JSON.dquote (String "J" (String JSON.dquote
               (String "," (String JSON.dquote (String "l" (String JSON.dquote
                  ":[-30,null]}"))))))))))));
     ("u", "__TINY_IDB_UNDEFINED__")].
Proof. vm_compute. reflexivity. Qed.

(** ** Reading, writing and presence *)

(** C2.  In every state the helper can be in, on the persistent and on
    the volatile backend alike, and whether or not the store was
    initialised before: when no store request fails, [setItem(k, v)]
    for [v] [undefined] or JSON-representable resolves, and [getItem(k)]
    then resolves with [v]. *)
Theorem set_then_get_round_trip (s : state) (k : string) (v : value) :
  wf s = true -> calm s = true -> storable v = true ->
  exists s1 s2,
    setItem (VStr k) v s = (Resolved tt, s1)
    /\ getItem (VStr k) s1 = (Resolved v, s2).
Proof.
  intros Hwf Hc Hv.
  destruct (Ops.set_then_get s k v Hwf Hc Hv) as (s1 & s2 & Hset & Hget).
  exists s1, s2. split; assumption.
Qed.

Lemma set_then_get_round_trip_witness :
  exists s1 s2,
    setItem (VStr "user")
      (VObj [("name", VStr "John"); ("tags", VArr [VNum 1; VNull])]) in_browser
    = (Resolved tt, s1)
    /\ getItem (VStr "user") s1
       = (Resolved (VObj [("name", VStr "John"); ("tags", VArr [VNum 1; VNull])]),
          s2).
Proof.
  apply (set_then_get_round_trip in_browser "user"
           (VObj [("name", VStr "John"); ("tags", VArr [VNum 1; VNull])]));
    reflexivity.
Defined.

(** C10.  The string ["__TINY_IDB_UNDEFINED__"] stored as a value reads
    back as that string, not as [undefined]; and no text that
    [JSON.stringify] produces, for any value, is the bare marker: a
    string is written between quotes. *)
Theorem marker_string_is_not_undefined (s : state) (k : string) :
  wf s = true -> calm s = true ->
  (exists s1 s2,
      setItem (VStr k) (VStr UNDEFINED_MARKER) s = (Resolved tt, s1)
      /\ getItem (VStr k) s1 = (Resolved (VStr UNDEFINED_MARKER), s2))
  /\ JSON.stringify (VStr UNDEFINED_MARKER)
     = JSON.Text (String JSON.dquote
                    (UNDEFINED_MARKER +:+ String JSON.dquote ""))
  /\ (forall v t, JSON.stringify v = JSON.Text t -> t <> UNDEFINED_MARKER).
Proof.
  intros Hwf Hc. split; [|split].
  - now apply Ops.set_then_get.
  - reflexivity.
  - apply Roundtrip.stringify_not_marker.
Qed.

Lemma marker_string_is_not_undefined_witness :
  (exists s1 s2,
      setItem (VStr "k") (VStr UNDEFINED_MARKER) in_browser = (Resolved tt, s1)
      /\ getItem (VStr "k") s1 = (Resolved (VStr UNDEFINED_MARKER), s2))
  /\ String JSON.dquote (UNDEFINED_MARKER +:+ String JSON.dquote "")
     <> UNDEFINED_MARKER.
Proof.
  destruct (marker_string_is_not_undefined in_browser "k" eq_refl eq_refl)
    as (Hround & Htext & Hnot).
  split; [exact Hround|]. exact (Hnot _ _ Htext).
Defined.

(** C3, as the code has it.  A key stored nowhere reads as [null], the
    "not found" result.  A key set to [undefined] reads as [undefined],
    which differs from it; a key set to [null] reads as [null], the very
    same result. *)
Theorem get_of_missing_key (s : state) (k : string) :
  wf s = true -> calm s = true -> never_set k s = true ->
  let missing := fst (getItem (VStr k) s) in
  let set_to v := fst (getItem (VStr k) (snd (setItem (VStr k) v s))) in
  missing = Resolved VNull
  /\ set_to VUndefined = Resolved VUndefined
  /\ set_to VUndefined <> missing
  /\ set_to VNull = missing.
Proof.
  intros Hwf Hc Hn. cbv zeta.
  assert (fst (getItem (VStr k) s) = Resolved VNull) as Hmiss.
  { destruct (Gate.getItem_gated k s Hwf) as (s0 & Hp & ->).
    pose proof Hp as (_ & Hr & Hc0 & _). rewrite Hc in Hc0.
    destruct (Ops.getItem_ready s0 k Hr Hc0) as (s' & -> & _).
    apply (Ops.read_never_set s s0 k Hp Hn). }
  assert (forall v, storable v = true ->
            fst (getItem (VStr k) (snd (setItem (VStr k) v s))) = Resolved v)
    as Hset.
  { intros v Hv.
    destruct (Ops.set_then_get s k v Hwf Hc Hv) as (s1 & s2 & -> & E).
    cbn [snd]. now rewrite E. }
  rewrite Hmiss, !Hset by reflexivity. repeat split; congruence.
Qed.

Lemma get_of_missing_key_witness :
  let missing := fst (getItem (VStr "k") in_browser) in
  let set_to v :=
    fst (getItem (VStr "k") (snd (setItem (VStr "k") v in_browser))) in
  missing = Resolved VNull
  /\ set_to VUndefined = Resolved VUndefined
  /\ set_to VUndefined <> missing
  /\ set_to VNull = missing.
Proof.
  apply (get_of_missing_key in_browser "k"); reflexivity.
Defined.

(** C3, as stated, fails: on a new helper the result of [getItem] for a
    key never set and for the key set to [null] are one and the same. *)
Lemma missing_key_reads_like_null :
  ~ (fst (getItem (VStr "k") without_indexedDB)
     <> fst (getItem (VStr "k")
               (snd (setItem (VStr "k") VNull without_indexedDB)))).
Proof. intros H. apply H. reflexivity. Qed.

(** C1, as the code has it.  [has(k)] is [getItem(k) !== null]: after
    [setItem(k, null)] it resolves with [false], although the key is
    among the stored keys that [keys()] lists; after [removeItem(k)] the
    key is gone and [has(k)] resolves with [false]. *)
Theorem has_after_set_null (s : state) (k : string) :
  wf s = true -> calm s = true ->
  (exists s1,
      setItem (VStr k) VNull s = (Resolved tt, s1)
      /\ fst (has (VStr k) s1) = Resolved false
      /\ fst (keys s1) = Resolved (stored_keys s1)
      /\ k ∈ stored_keys s1)
  /\ (exists s1,
         removeItem (VStr k) s = (Resolved tt, s1)
         /\ fst (has (VStr k) s1) = Resolved false
         /\ k ∉ stored_keys s1).
Proof.
  intros Hwf Hc. split.
  - destruct (Gate.setItem_gated k VNull s Hwf) as (s0 & (_ & Hr & Hc0 & _) & ->).
    rewrite Hc in Hc0.
    destruct (Ops.setItem_ready s0 k VNull Hr Hc0 eq_refl)
      as (s1 & -> & Hr1 & Hc1 & Hk & _ & Hin & _).
    destruct (Ops.has_ready s1 k Hr1 Hc1) as (s2 & E & _).
    destruct (Ops.keys_ready s1 Hr1 Hc1) as (s3 & Ek).
    exists s1. rewrite E, Ek, Hk. auto.
  - destruct (Gate.removeItem_gated k s Hwf) as (s0 & (_ & Hr & Hc0 & _) & ->).
    rewrite Hc in Hc0.
    destruct (Ops.removeItem_ready s0 k Hr Hc0)
      as (s1 & -> & Hr1 & Hc1 & Hk & _ & Hin).
    destruct (Ops.has_ready s1 k Hr1 Hc1) as (s2 & E & _).
    exists s1. rewrite E, Hk. auto.
Qed.

Lemma has_after_set_null_witness :
  (exists s1,
      setItem (VStr "k") VNull without_indexedDB = (Resolved tt, s1)
      /\ fst (has (VStr "k") s1) = Resolved false
      /\ fst (keys s1) = Resolved (stored_keys s1)
      /\ "k" ∈ stored_keys s1)
  /\ (exists s1,
         removeItem (VStr "k") without_indexedDB = (Resolved tt, s1)
         /\ fst (has (VStr "k") s1) = Resolved false
         /\ "k" ∉ stored_keys s1).
Proof.
  apply (has_after_set_null without_indexedDB "k"); reflexivity.
Defined.

(** ** Values without a JSON text *)

(** C6.  When [JSON.stringify] throws on [v], [setItem(k, v)] rejects
    with the stringify error, whichever backend is active, and leaves
    the state as passing the gate alone leaves it: nothing is written,
    and every key reads afterwards as it would have read before. *)
Theorem set_unserializable_rejected (s : state) (k : string) (v : value) :
  wf s = true -> JSON.stringify v = JSON.Throws ->
  exists s1,
    _initialize s = (Resolved tt, s1)
    /\ setItem (VStr k) v s = (Rejected stringify_error, s1)
    /\ code stringify_error = Some JSON_PARSE_ERROR
    /\ memoryStore (fst s1) = memoryStore (fst s)
    /\ (forall n, store_of n (snd s1) = store_of n (snd s))
    /\ (forall k', getItem (VStr k') s1 = getItem (VStr k') s).
Proof.
  intros Hwf E.
  destruct (Gate.setItem_gated k v s Hwf) as (s1 & Hp & ->).
  pose proof Hp as (Hi & Hr & _ & Hm & Hs).
  exists s1. rewrite (Ops.setItem_throws k v s1 Hr E).
  repeat split; auto.
  intros k'. destruct (Gate.getItem_gated k' s Hwf) as (s1' & (Hi' & _) & ->).
  congruence.
Qed.

Lemma set_unserializable_rejected_witness :
  exists s1,
    _initialize in_browser = (Resolved tt, s1)
    /\ setItem (VStr "k") (VObj [("self", VCyclic)]) in_browser
       = (Rejected stringify_error, s1)
    /\ code stringify_error = Some JSON_PARSE_ERROR
    /\ memoryStore (fst s1) = memoryStore (fst in_browser)
    /\ (forall n, store_of n (snd s1) = store_of n (snd in_browser))
    /\ (forall k', getItem (VStr k') s1 = getItem (VStr k') in_browser).
Proof.
  apply (set_unserializable_rejected in_browser "k" (VObj [("self", VCyclic)]));
    reflexivity.
Defined.

(** ** Counters *)





(** ** Enumeration *)

(** C9.  [values()] resolves with one value for every stored key, the
    keys that [keys()] lists: the value [getItem] decodes for that key,
    and, where [getItem] rejects, the stored text itself as a string.  That rejection is the parse
    error on the persistent backend; a corrupt entry never fails the
    call. *)
Theorem values_decoded_or_raw (s : state) :
  wf s = true -> calm s = true ->
  exists vs s1,
    values s = (Resolved vs, s1)
    /\ fst (keys s1) = Resolved (stored_keys s1)
    /\ vs = (fun k =>
               match fst (getItem (VStr k) s1) with
               | Resolved v => v
               | Rejected _ => VStr (stored_text s1 k)
               end) <$> stored_keys s1
    /\ (forall k e,
           fst (getItem (VStr k) s1) = Rejected e ->
           e = parse_error
           /\ useMemoryFallback (fst s1) = false
           /\ JSON.parse (stored_text s1 k) = None).
Proof.
  intros Hwf Hc.
  destruct (Ops.values_gated s Hwf) as (s0 & (_ & Hr & Hc0 & _) & ->).
  rewrite Hc in Hc0.
  destruct (Ops.values_ready s0 Hr Hc0)
    as (s1 & -> & Hr1 & Hc1 & Hk & Hread & Htext & Hfst).
  exists (value_of_key s0 <$> stored_keys s0), s1.
  assert (forall k, fst (getItem (VStr k) s1) = read s1 k) as Hget.
  { intros k. destruct (Ops.getItem_ready s1 k Hr1 Hc1) as (s2 & -> & _).
    reflexivity. }
  split; [reflexivity|]. split; [|split].
  - destruct (Ops.keys_ready s1 Hr1 Hc1) as (s2 & ->). reflexivity.
  - rewrite Hk. apply list_fmap_ext. intros _ k _.
    unfold value_of_key. now rewrite Hget, Hread, Htext.
  - intros k e. rewrite Hget. unfold read, stored_text.
    unfold ready in Hr1. apply andb_true_iff in Hr1 as [_ Hb].
    destruct (useMemoryFallback s1.1); [discriminate|].
    apply bool_decide_eq_true in Hb as [d ->].
    unfold getItem_onsuccess.
    destruct (store_of d s1.2 !! k) as [raw|]; [|discriminate].
    cbn [default].
    destruct (String.eqb raw UNDEFINED_MARKER); [discriminate|].
    destruct (JSON.parse raw) eqn:Ep; [discriminate|].
    intros [= <-]. repeat split; auto.
Qed.

Lemma values_decoded_or_raw_witness :
  exists vs s1,
    values (constructor,
            quiet_world true {[ "app-db" := {[ "a" := "[1,2]"; "b" := "{oops" ]} ]})
    = (Resolved vs, s1)
    /\ fst (keys s1) = Resolved (stored_keys s1)
    /\ vs = (fun k =>
               match fst (getItem (VStr k) s1) with
               | Resolved v => v
               | Rejected _ => VStr (stored_text s1 k)
               end) <$> stored_keys s1
    /\ fst (getItem (VStr "b") s1) = Rejected parse_error
    /\ useMemoryFallback (fst s1) = false
    /\ JSON.parse (stored_text s1 "b") = None.
Proof.
  destruct (values_decoded_or_raw
              (constructor,
               quiet_world true
                 {[ "app-db" := {[ "a" := "[1,2]"; "b" := "{oops" ]} ]})
              eq_refl eq_refl) as (vs & s1 & E & Hkeys & Hvs & Hrej).
  exists vs, s1. split; [exact E|]. split; [exact Hkeys|]. split; [exact Hvs|].
  assert (fst (getItem (VStr "b") s1) = Rejected parse_error) as Hb.
  { vm_compute in E. injection E as _ <-. vm_compute. reflexivity. }
  split; [exact Hb|]. exact (proj2 (Hrej "b" parse_error Hb)).
Defined.

(** On that store, [values()] gives the array decoded and the corrupt
    text as it is. *)
Example values_of_corrupt_store :
  fst (values (constructor,
               quiet_world true {[ "app-db" := {[ "a" := "[1,2]"; "b" := "{oops" ]} ]}))
  = Resolved [VArr [VNum 1; VNum 2]; VStr "{oops"].
Proof. vm_compute. reflexivity. Qed.


(** ** Fallback to the volatile backend *)

Module Fallback.

Lemma hof_ret {A} (a : A) : hides_open_failure (ret a).
Proof. intros s e s' [=]. Qed.

Lemma hof_throw {A} e :
  code e <> Some OPEN_FAILURE -> hides_open_failure (@throw A e).
Proof. intros H s e' s' [= <- _]. exact H. Qed.

Lemma hof_bind {A B} (m : M A) (k : A -> M B) :
  hides_open_failure m -> (forall a, hides_open_failure (k a)) ->
  hides_open_failure (bind m k).
Proof.
  intros Hm Hk s e s'. unfold bind.
  destruct (m s) as [[a|e0] s0] eqn:E.
  - apply Hk.
  - intros [= <- _]. exact (Hm s e0 s0 E).
Qed.

Lemma hof_this : hides_open_failure this.
Proof. intros s e s' [=]. Qed.

Lemma hof_world : hides_open_failure world.
Proof. intros s e s' [=]. Qed.

Lemma hof_update_this f : hides_open_failure (update_this f).
Proof. intros s e s' [=]. Qed.

Lemma hof_update_world f : hides_open_failure (update_world f).
Proof. intros s e s' [=]. Qed.

(** The gate itself never rejects: [_doInitialize] catches the failure
    of the open request. *)
Lemma hof_initialize : hides_open_failure _initialize.
Proof.
  intros s e s'. unfold _initialize.
  destruct (_initialize_enter s) as [[|p] s0]; intros [=].
Qed.

Create HintDb hof.

#[local] Hint Resolve hof_ret hof_this hof_world hof_update_this
  hof_update_world hof_initialize : hof.

Ltac hof :=
  repeat first
    [ progress eauto with hof
    | apply hof_throw; discriminate
    | apply hof_bind; [|intros ?]
    | match goal with
      | |- hides_open_failure (match ?x with _ => _ end) => destruct x
      end ].

Lemma hof_connection : hides_open_failure connection.
Proof. unfold connection. hof. Qed.

Lemma hof_request what : hides_open_failure (request what).
Proof. unfold request. hof. Qed.

Lemma hof_write_store d f : hides_open_failure (write_store d f).
Proof. unfold write_store. hof. Qed.

#[local] Hint Resolve hof_connection hof_request hof_write_store : hof.

Lemma hof_getItem key : hides_open_failure (getItem key).
Proof. unfold getItem, getItem_onsuccess. hof. Qed.

Lemma hof_setItem key v : hides_open_failure (setItem key v).
Proof. unfold setItem. hof. Qed.

Lemma hof_removeItem key : hides_open_failure (removeItem key).
Proof. unfold removeItem. hof. Qed.

#[local] Hint Resolve hof_getItem hof_setItem hof_removeItem : hof.

Lemma hof_increment key amount : hides_open_failure (increment key amount).
Proof. unfold increment. cbv zeta. hof. Qed.

#[local] Hint Resolve hof_increment : hof.

(** No data operation, in any state, rejects with [OPEN_FAILURE]. *)
Lemma hof_run o : hides_open_failure (run o).
Proof.
  destruct o; unfold run, nullify, decrement, toggle, keys, values, length,
    has, clear; hof.
Qed.

(** Without IndexedDB, or when the open request fails, the gate
    resolves all the same and the volatile backend is active. *)
Lemma initialize_falls_back s :
  epoch_start s = true -> fresh_promises (snd s) = true ->
  open_unavailable (snd s) = true ->
  exists s1, _initialize s = (Resolved tt, s1) /\ volatile s1 = true.
Proof.
  destruct s as [h w].
  unfold epoch_start, fresh_promises, open_unavailable, volatile.
  cbn [fst snd]. intros Hs Hfresh Hu.
  apply andb_true_iff in Hs as [Hi Hp]. apply negb_true_iff in Hi.
  apply bool_decide_eq_true in Hp.
  unfold _initialize, _initialize_enter. cbn [fst snd]. rewrite Hi, Hp.
  unfold _doInitialize_begin. cbn [indexedDB_present set_activations].
  destruct (indexedDB_present w) eqn:Eidb; cbn [negb orb] in *.
  - unfold settle, pending_name. cbn [fst snd pending_opens set_pending_opens].
    rewrite Gate.find_fresh by exact Hfresh.
    cbn [fmap option_fmap option_map snd].
    unfold _doInitialize_resume, _openDatabase_end.
    cbn [open_faults set_pending_opens set_activations].
    destruct (open_faults w) as [|[] rest]; try discriminate Hu.
    eexists. split; reflexivity.
  - unfold settle, pending_name. cbn [fst snd pending_opens set_activations].
    rewrite Gate.find_settled by exact Hfresh.
    eexists. split; reflexivity.
Qed.

Lemma volatile_ready s : volatile s = true -> ready s = true.
Proof.
  unfold volatile, ready. intros H. apply andb_true_iff in H as [-> ->].
  reflexivity.
Qed.

Lemma getItem_volatile k s :
  volatile s = true -> exists v, getItem (VStr k) s = (Resolved v, s).
Proof.
  destruct s as [[n d fb m i p] w]. unfold volatile. cbn [fst snd].
  cbn [isInitialized useMemoryFallback].
  intros H. apply andb_true_iff in H as [-> ->]. eexists. reflexivity.
Qed.

Lemma setItem_volatile k v s :
  volatile s = true -> JSON.stringify v <> JSON.Throws ->
  exists s', setItem (VStr k) v s = (Resolved tt, s') /\ volatile s' = true.
Proof.
  destruct s as [[n d fb m i p] w]. unfold volatile. cbn [fst snd].
  cbn [isInitialized useMemoryFallback].
  intros H Hv. apply andb_true_iff in H as [-> ->].
  unfold setItem, bind, _initialize, _initialize_enter, this.
  cbn [fst snd isInitialized useMemoryFallback].
  destruct v; try (eexists; split; reflexivity);
    destruct (JSON.stringify _) eqn:E; try congruence;
    eexists; split; reflexivity.
Qed.

(** On the volatile backend every operation with well-typed arguments
    resolves, and the backend stays. *)
Lemma run_volatile o s :
  volatile s = true -> well_typed o = true ->
  exists v s', run o s = (Resolved v, s') /\ volatile s' = true.
Proof.
  intros Hv Hwt.
  destruct o as [k|k v|k|k|k a|k a|k| | | |k|]; cbn [well_typed] in Hwt;
    try (destruct k; try discriminate Hwt); cbn [run].
  - destruct (getItem_volatile s0 s Hv) as (v & E). eauto.
  - apply andb_true_iff in Hwt as [_ Hok].
    destruct (setItem_volatile s0 v s Hv) as (s' & E & Hv').
    { intros E. now rewrite E in Hok. }
    exists VUndefined, s'. unfold bind. now rewrite E.
  - destruct s as [[n d fb m i p] w]. unfold volatile in *. cbn in Hv.
    apply andb_true_iff in Hv as [-> ->]. eexists _, _. split; reflexivity.
  - destruct (setItem_volatile s0 VNull s Hv) as (s' & E & Hv'); [discriminate|].
    exists VUndefined, s'. unfold nullify, bind. now rewrite E.
  - destruct (getItem_volatile s0 s Hv) as (cur & Eg).
    assert (exists n, increment (VStr s0) a s
                      = increment (VStr s0) (number_value n) s) as [n ->]
      by (destruct a as [| |b|n|t|l|l| |x]; try discriminate Hwt;
          [exists (Finite 1)|exists (Finite n)|exists (NotFinite x)];
          reflexivity).
    unfold increment. cbv zeta.
    assert (number_of
              match number_value n with
              | VUndefined => VNum 1
              | _ => number_value n
              end = Some n) as -> by now destruct n.
    unfold bind at 1. rewrite Eg.
    destruct (setItem_volatile s0
                (number_value (number_add (default (Finite 0) (number_of cur)) n))
                s Hv) as (s' & Es & Hv'); [now destruct (number_add _ _)|].
    eexists _, s'. unfold bind. now rewrite Es.
  - destruct (getItem_volatile s0 s Hv) as (cur & Eg).
    unfold decrement, increment. cbv zeta.
    set (n := number_negate (default (Finite 1) a)).
    assert (number_of
              match number_value n with
              | VUndefined => VNum 1
              | _ => number_value n
              end = Some n) as -> by now destruct n.
    unfold bind at 1. rewrite Eg.
    destruct (setItem_volatile s0
                (number_value (number_add (default (Finite 0) (number_of cur)) n))
                s Hv) as (s' & Es & Hv'); [now destruct (number_add _ _)|].
    eexists _, s'. unfold bind. now rewrite Es.
  - destruct (getItem_volatile s0 s Hv) as (cur & Eg).
    unfold toggle. cbv zeta. unfold bind at 1. rewrite Eg.
    destruct (setItem_volatile s0 (VBool (logical_not cur)) s Hv)
      as (s' & Es & Hv'); [destruct (logical_not cur); discriminate|].
    eexists _, s'. unfold bind. now rewrite Es.
  - destruct s as [[n d fb m i p] w]. unfold volatile in *. cbn in Hv.
    apply andb_true_iff in Hv as [-> ->]. eexists _, _. split; reflexivity.
  - destruct s as [[n d fb m i p] w]. unfold volatile in *. cbn in Hv.
    apply andb_true_iff in Hv as [-> ->]. eexists _, _. split; reflexivity.
  - destruct s as [[n d fb m i p] w]. unfold volatile in *. cbn in Hv.
    apply andb_true_iff in Hv as [-> ->]. eexists _, _. split; reflexivity.
  - destruct (getItem_volatile s0 s Hv) as (v & E).
    eexists _, s. unfold has, bind. rewrite E. split; [reflexivity | exact Hv].
  - destruct s as [[n d fb m i p] w]. unfold volatile in *. cbn in Hv.
    apply andb_true_iff in Hv as [-> ->]. eexists _, _. split; reflexivity.
Qed.

Lemma run_all_volatile os s :
  volatile s = true -> forallb well_typed os = true ->
  exists vs s', run_all os s = (Resolved vs, s') /\ volatile s' = true.
Proof.
  revert s. induction os as [|o os IH]; intros s Hv Hwt.
  - exists [], s. auto.
  - cbn [forallb] in Hwt. apply andb_true_iff in Hwt as [Ho Hos].
    destruct (run_volatile o s Hv Ho) as (v & s1 & E & Hv1).
    destruct (IH s1 Hv1 Hos) as (vs & s2 & E2 & Hv2).
    exists (v :: vs), s2. cbn [run_all]. unfold bind. now rewrite E, E2.
Qed.

(** A well-typed operation passes the gate first. *)
Lemma run_gated o s s1 :
  well_typed o = true ->
  _initialize s = (Resolved tt, s1) -> ready s1 = true ->
  run o s = run o s1.
Proof.
  intros Hwt Hi Hr. pose proof (Gate.initialize_ready s1 Hr) as Hi1.
  destruct o as [k|k v|k|k|k a|k a|k| | | |k|]; cbn [well_typed] in Hwt;
    try (destruct k; try discriminate Hwt);
    try (destruct a as [| |?|?|?|?|?| |?]; try discriminate Hwt);
    try (destruct a as [[?|[]]|]);
    unfold run, nullify, decrement, increment, toggle, keys, values, length,
      has, clear;
    cbv beta iota zeta delta [number_of number_value number_negate default
                                from_option id];
    unfold getItem, setItem, removeItem, bind;
    rewrite Hi, Hi1; reflexivity.
Qed.

End Fallback.

(** C5.  When [window.indexedDB] is missing or the open request fails,
    the gate resolves with the volatile backend active; operations with
    well-typed arguments issued from then on all resolve, on that
    backend; and no data operation, in any state, rejects with
    [OPEN_FAILURE]. *)
Theorem open_failure_falls_back (s : state) :
  epoch_start s = true -> fresh_promises (snd s) = true ->
  open_unavailable (snd s) = true ->
  (exists s1,
      _initialize s = (Resolved tt, s1)
      /\ isInitialized (fst s1) = true
      /\ isUsingMemoryFallback s1 = true)
  /\ (forall o os,
         forallb well_typed (o :: os) = true ->
         exists vs s2,
           run_all (o :: os) s = (Resolved vs, s2)
           /\ isUsingMemoryFallback s2 = true)
  /\ (forall o s0 e s',
         run o s0 = (Rejected e, s') -> code e <> Some OPEN_FAILURE).
Proof.
  intros Hs Hfresh Hu.
  destruct (Fallback.initialize_falls_back s Hs Hfresh Hu) as (s1 & Hi & Hv).
  split; [|split].
  - exists s1. unfold volatile, isUsingMemoryFallback in *.
    apply andb_true_iff in Hv as [-> ->]. auto.
  - intros o os Hwt.
    pose proof Hwt as Hwt'. cbn [forallb] in Hwt'.
    apply andb_true_iff in Hwt' as [Ho _].
    destruct (Fallback.run_all_volatile (o :: os) s1 Hv Hwt)
      as (vs & s2 & E & Hv2).
    exists vs, s2. split.
    + cbn [run_all] in *. unfold bind at 1 in E. unfold bind at 1.
      now rewrite (Fallback.run_gated o s s1 Ho Hi (Fallback.volatile_ready s1 Hv)).
    + unfold volatile, isUsingMemoryFallback in *.
      now apply andb_true_iff in Hv2 as [_ ->].
  - intros o. apply Fallback.hof_run.
Qed.

Lemma open_failure_falls_back_witness :
  (exists s1,
      _initialize open_fails = (Resolved tt, s1)
      /\ isInitialized (fst s1) = true
      /\ isUsingMemoryFallback s1 = true)
  /\ exists vs s2,
       run_all [OpSetItem (VStr "a") (VNum 1); OpIncrement (VStr "a") VUndefined;
                OpGetItem (VStr "a"); OpKeys; OpClear; OpLength] open_fails
       = (Resolved vs, s2)
       /\ isUsingMemoryFallback s2 = true.
Proof.
  destruct (open_failure_falls_back open_fails eq_refl eq_refl eq_refl)
    as (Hinit & Hrun & _).
  split; [exact Hinit|]. apply Hrun. reflexivity.
Defined.

(** After the failed open, a write and a read on the fallback. *)
Example operations_after_failed_open :
  fst (run_all [OpSetItem (VStr "a") (VNum 1); OpGetItem (VStr "a"); OpLength]
         open_fails)
  = Resolved [VUndefined; VNum 1; VNum 1].
Proof. reflexivity. Qed.

(** ** Reconfiguration *)

Module Reconfigure.

Lemma configure_spec name s :
  configure (VStr name) s
  = (Resolved tt,
     (mkHelper name None false ∅ false None,
      set_closed_connections (closed_after s) (snd s))).
Proof.
  destruct s as [h [i dbs o r pend a c]]. unfold configure, closed_after, bind, this.
  cbn [fst snd]. destruct (db h); reflexivity.
Qed.

(** Reading [k] right after [configure]: [null] unless the database now
    configured holds [k]. *)
Lemma get_after_configure name k s :
  fresh_promises (snd s) = true -> calm s = true ->
  store_of name (snd s) !! k = None ->
  fst ((configure (VStr name) ;; getItem (VStr k)) s) = Resolved VNull.
Proof.
  intros Hfresh Hc Hk. unfold bind at 1. rewrite configure_spec.
  set (s1 := (mkHelper name None false ∅ false None,
              set_closed_connections (closed_after s) (snd s))).
  assert (wf s1 = true) as Hwf
    by (unfold wf; change (fresh_promises s1.2) with (fresh_promises s.2);
        now rewrite Hfresh).
  destruct (Gate.initialize_from_start s1 eq_refl Hfresh) as (s2 & Hi & _ & Hdb).
  destruct (Gate.getItem_gated k s1 Hwf) as (s2' & (Hi' & Hr & Hc2 & Hm & Hs) & ->).
  assert (s2' = s2) as -> by congruence.
  change (calm s1) with (calm s) in Hc2. rewrite Hc in Hc2.
  destruct (Ops.getItem_ready s2 k Hr Hc2) as (s3 & -> & _).
  cbn [fst]. unfold read.
  destruct (useMemoryFallback s2.1) eqn:Efb.
  - rewrite Hm. reflexivity.
  - destruct Hdb as [Hdb|Hdb]; [congruence|]. rewrite Hdb.
    cbn [config_dbName fst s1]. rewrite Hs.
    change (store_of name s1.2) with (store_of name s.2). now rewrite Hk.
Qed.

(** A write under one configuration leaves the other databases alone. *)
Lemma set_after_configure name k v s :
  fresh_promises (snd s) = true -> calm s = true -> storable v = true ->
  exists s2,
    (configure (VStr name) ;; setItem (VStr k) v) s = (Resolved tt, s2)
    /\ fresh_promises (snd s2) = true /\ calm s2 = true
    /\ forall n, n <> name -> store_of n (snd s2) = store_of n (snd s).
Proof.
  intros Hfresh Hc Hv. unfold bind at 1. rewrite configure_spec.
  set (s1 := (mkHelper name None false ∅ false None,
              set_closed_connections (closed_after s) (snd s))).
  assert (wf s1 = true) as Hwf
    by (unfold wf; change (fresh_promises s1.2) with (fresh_promises s.2);
        now rewrite Hfresh).
  destruct (Gate.initialize_from_start s1 eq_refl Hfresh) as (s1' & Hi & Hf1 & Hdb).
  destruct (Gate.setItem_gated k v s1 Hwf)
    as (s1'' & (Hi' & Hr & Hc1 & Hm & Hs) & ->).
  assert (s1'' = s1') as -> by congruence.
  change (calm s1) with (calm s) in Hc1. rewrite Hc in Hc1.
  destruct (Ops.setItem_ready s1' k v Hr Hc1 Hv)
    as (s2 & -> & _ & Hc2 & _ & _ & _ & Hfr & Hst).
  exists s2. repeat split; auto; [congruence|].
  intros n Hn. rewrite Hst, Hs; [reflexivity|].
  destruct Hdb as [Hdb|Hdb]; [now left | right].
  rewrite Hdb. cbn. congruence.
Qed.

End Reconfigure.

(** ** The states the helper can be in *)

Module Invariant.

Lemma wf_view s s' : gate_view s' = gate_view s -> wf s' = wf s.
Proof.
  unfold gate_view, wf, fresh_promises, pending_name.
  intros [= -> -> -> -> -> ->]. reflexivity.
Qed.

Lemma keeps_ret {A} (a : A) : keeps_wf (ret a).
Proof. intros s r s' H [= _ <-]. exact H. Qed.

Lemma keeps_throw {A} e : keeps_wf (@throw A e).
Proof. intros s r s' H [= _ <-]. exact H. Qed.

Lemma keeps_this : keeps_wf this.
Proof. intros s r s' H [= _ <-]. exact H. Qed.

Lemma keeps_world : keeps_wf world.
Proof. intros s r s' H [= _ <-]. exact H. Qed.

Lemma keeps_bind {A B} (m : M A) (k : A -> M B) :
  keeps_wf m -> (forall a, keeps_wf (k a)) -> keeps_wf (bind m k).
Proof.
  intros Hm Hk s r s' H. unfold bind.
  destruct (m s) as [[a|e] s0] eqn:E.
  - apply (Hk a). exact (Hm s _ s0 H E).
  - intros [= _ <-]. exact (Hm s _ s0 H E).
Qed.

Lemma keeps_update_this f :
  (forall s, gate_view (f (fst s), snd s) = gate_view s) ->
  keeps_wf (update_this f).
Proof. intros Hf s r s' H [= _ <-]. now rewrite (wf_view s _ (Hf s)). Qed.

Lemma keeps_update_world f :
  (forall s, gate_view (fst s, f (snd s)) = gate_view s) ->
  keeps_wf (update_world f).
Proof. intros Hf s r s' H [= _ <-]. now rewrite (wf_view s _ (Hf s)). Qed.

Lemma fresh_filter (l : list (nat * string)) p a :
  forallb (fun e => Nat.ltb (fst e) a) l = true ->
  forallb (fun e => Nat.ltb (fst e) a)
    (List.filter (fun e => negb (Nat.eqb (fst e) p)) l) = true.
Proof.
  induction l as [|[q n] l IH]; simpl; [reflexivity|].
  intros H. apply andb_true_iff in H as [Hq Hl].
  destruct (negb (q =? p)%nat); simpl; rewrite ?Hq; auto.
Qed.

Lemma wf_settle p s : wf s = true -> wf (settle p s) = true.
Proof.
  unfold settle. destruct (pending_name p s.2) as [name|] eqn:En; [|auto].
  destruct s as [h w]. cbn [fst snd] in *. intros Hwf.
  unfold wf in Hwf. apply andb_true_iff in Hwf as [Hfresh _].
  match goal with |- context [_doInitialize_resume ?n (?a, ?b)] =>
    destruct (Gate.resume_spec n a b)
      as (h' & w' & -> & Hi & Hb & _ & _ & _ & _ & Hp & Ha & _) end.
  unfold wf, fresh_promises in *. cbn [fst snd] in *.
  rewrite Hi, Hb, Hp, Ha. cbn [pending_opens activations set_pending_opens].
  rewrite fresh_filter by exact Hfresh. reflexivity.
Qed.

Lemma wf_enter s : wf s = true -> wf (snd (_initialize_enter s)) = true.
Proof.
  unfold _initialize_enter. intros Hwf.
  destruct (isInitialized s.1) eqn:Ei; [exact Hwf|].
  destruct (initPromise s.1) as [p|] eqn:Ep; [exact Hwf|].
  destruct s as [h w]. cbn [fst snd] in *.
  unfold wf in Hwf. apply andb_true_iff in Hwf as [Hfresh _].
  unfold fresh_promises in Hfresh. cbn [fst snd] in Hfresh.
  unfold _doInitialize_begin. cbn [indexedDB_present set_activations].
  destruct (indexedDB_present w); cbn [negb snd];
    unfold wf, fresh_promises, pending_name; cbn [fst snd].
  - cbn [isInitialized set_initPromise initPromise pending_opens
         set_pending_opens activations set_activations].
    rewrite Ei, Gate.find_fresh by exact Hfresh.
    rewrite andb_true_r. rewrite forallb_app. cbn [forallb fst].
    rewrite (Gate.fresh_later _ _ Hfresh). cbn [andb].
    rewrite andb_true_r. apply Nat.ltb_lt. lia.
  - cbn [isInitialized set_initPromise set_isInitialized
         set_useMemoryFallback useMemoryFallback pending_opens activations
         set_activations orb].
    rewrite andb_true_r. exact (Gate.fresh_later _ _ Hfresh).
Qed.

Lemma keeps_initialize : keeps_wf _initialize.
Proof.
  intros s r s' Hwf. unfold _initialize.
  pose proof (wf_enter s Hwf) as He.
  destruct (_initialize_enter s) as [[|p] s0]; cbn [snd] in He;
    intros [= _ <-]; [exact He | now apply wf_settle].
Qed.

Lemma wf_configure name s :
  wf s = true -> wf (snd (configure (VStr name) s)) = true.
Proof.
  intros H. rewrite Reconfigure.configure_spec. unfold wf in *. cbn [fst snd].
  apply andb_true_iff in H as [H _].
  change (fresh_promises (set_closed_connections (closed_after s) s.2))
    with (fresh_promises s.2). now rewrite H.
Qed.

Create HintDb keeps.

#[local] Hint Resolve keeps_ret keeps_throw keeps_this keeps_world
  keeps_initialize : keeps.

Ltac keeps :=
  repeat first
    [ progress eauto with keeps
    | apply keeps_bind; [|intros ?]
    | apply keeps_update_this; intros ?; reflexivity
    | apply keeps_update_world; intros ?; reflexivity
    | match goal with
      | |- keeps_wf (match ?x with _ => _ end) => destruct x
      end ].

Lemma keeps_connection : keeps_wf connection.
Proof. unfold connection. keeps. Qed.

Lemma keeps_request what : keeps_wf (request what).
Proof. unfold request. keeps. Qed.

Lemma keeps_write_store d f : keeps_wf (write_store d f).
Proof. unfold write_store. keeps. Qed.

#[local] Hint Resolve keeps_connection keeps_request keeps_write_store : keeps.

Lemma keeps_getItem key : keeps_wf (getItem key).
Proof. unfold getItem, getItem_onsuccess. keeps. Qed.

Lemma keeps_setItem key v : keeps_wf (setItem key v).
Proof. unfold setItem. keeps. Qed.

Lemma keeps_removeItem key : keeps_wf (removeItem key).
Proof. unfold removeItem. keeps. Qed.

#[local] Hint Resolve keeps_getItem keeps_setItem keeps_removeItem : keeps.

Lemma keeps_increment key amount : keeps_wf (increment key amount).
Proof. unfold increment. cbv zeta. keeps. Qed.

#[local] Hint Resolve keeps_increment : keeps.

Lemma keeps_run o : keeps_wf (run o).
Proof.
  destruct o; unfold run, nullify, decrement, toggle, keys, values, length,
    has, clear; keeps.
Qed.

Lemma wf_step e s : wf s = true -> wf (snd (step e s)) = true.
Proof.
  intros H. destruct e as [|p|name]; cbn [step].
  - pose proof (wf_enter s H) as He.
    destruct (_initialize_enter s) as [g s0]. exact He.
  - now apply wf_settle.
  - now apply wf_configure.
Qed.

(** Every state reached from a new helper, by whatever interleaving of
    gate events and awaited operations, is one the properties below
    speak about. *)
Lemma reachable_wf s : reachable s -> wf s = true.
Proof.
  induction 1 as [w Hw|e s _ IH|o s _ IH].
  - unfold wf. cbn [fst snd]. now rewrite Hw.
  - now apply wf_step.
  - destruct (run o s) as [r s'] eqn:E. exact (keeps_run o s r s' IH E).
Qed.

End Invariant.

(** X21.  [configure] rejects a [dbName] that is not a string; left
    out, the name is ['app-db'].  Otherwise it closes the open
    connection if there is one and leaves the helper as constructed,
    under the new name: no connection, no fallback, an empty memory
    mapping, not initialised, no initialisation promise.  When every
    operation is awaited before the next call, a key set under one name
    and read after reconfiguring to another name, whose database does
    not hold the key, reads as [null]. *)
Lemma configure_resets (s : state) :
  (forall dbName,
      typeof dbName <> TString -> dbName <> VUndefined ->
      configure dbName s = (Rejected invalid_configuration, s))
  /\ configure VUndefined s = configure (VStr "app-db") s
  /\ (forall name,
         exists w',
           configure (VStr name) s
           = (Resolved tt, (mkHelper name None false ∅ false None, w'))
           /\ closed_connections w'
              = match db (fst s) with
                | Some d => d :: closed_connections (snd s)
                | None => closed_connections (snd s)
                end
           /\ databases w' = databases (snd s)
           /\ epoch_start (mkHelper name None false ∅ false None, w') = true)
  /\ (forall name name' k v,
         fresh_promises (snd s) = true -> calm s = true ->
         storable v = true ->
         name' <> name -> store_of name' (snd s) !! k = None ->
         fst ((configure (VStr name) ;; setItem (VStr k) v ;;
               configure (VStr name') ;; getItem (VStr k)) s)
         = Resolved VNull).
Proof.
  split; [|split; [|split]].
  - intros dbName Ht Hu. destruct dbName; try reflexivity; simpl in Ht; congruence.
  - reflexivity.
  - intros name. eexists. rewrite Reconfigure.configure_spec.
    split; [reflexivity|]. repeat split.
  - intros name name' k v Hfresh Hc Hv Hne Hk.
    destruct (Reconfigure.set_after_configure name k v s Hfresh Hc Hv)
      as (s2 & E & Hf2 & Hc2 & Hst).
    pose proof (Reconfigure.get_after_configure name' k s2 Hf2 Hc2) as Hget.
    rewrite (Hst name' Hne) in Hget. specialize (Hget Hk).
    unfold bind at 1 2. unfold bind at 1 in E.
    destruct (configure (VStr name) s) as [[[]|e] s1]; [|discriminate E].
    rewrite E. exact Hget.
Qed.

Example configure_resets_on_new_helper :
  configure (VNum 123) in_browser = (Rejected invalid_configuration, in_browser)
  /\ fst ((configure (VStr "db1") ;; setItem (VStr "key1") (VStr "value1") ;;
           configure (VStr "db2") ;; getItem (VStr "key1")) in_browser)
     = Resolved VNull.
Proof.
  destruct (configure_resets in_browser) as (Hbad & _ & _ & Hnew). split.
  - apply Hbad; discriminate.
  - apply Hnew; try reflexivity. discriminate.
Defined.

(** ** One initialisation per epoch *)

Module Epoch.









(** The gate without interleaving is an [Enter] followed, for a caller
    that has to wait, by the completion of the promise it was given. *)
Lemma initialize_as_steps s :
  snd (_initialize s)
  = snd (steps (match fst (_initialize_enter s) with
                | Ready => [Enter]
                | Awaits p => [Enter; Completes p]
                end) s).
Proof.
  unfold _initialize.
  destruct (_initialize_enter s) as [[|p] s'] eqn:E;
    cbn [fst snd steps step]; rewrite E; reflexivity.
Qed.

End Epoch.



(** Three callers before the open request completes, one after. *)
Example concurrent_first_calls :
  fst (steps [Enter; Enter; Enter; Completes 0; Enter] in_browser)
  = [Awaits 0; Awaits 0; Awaits 0; Ready].
Proof. reflexivity. Qed.

(** C8, on the code.  [configure] called while an initialisation is in
    flight does not stop it: ['k'] is set under ['db1'] and awaited; the
    helper is configured again and an operation enters the gate, so that
    the open request for ['db1'] is pending; [configure] switches to
    ['db2']; the pending request completes.  The helper is then
    initialised with the connection to ['db1'] under the configuration
    ['db2'], and [getItem('k')] resolves with the value set under
    ['db1']. *)
Example stale_initialization_crosses_epochs :
  let s1 :=
    snd ((configure (VStr "db1") ;; setItem (VStr "k") (VNum 1)) in_browser) in
  let '(gs, s2) :=
    steps [Configure "db1"; Enter; Configure "db2"; Completes 1] s1 in
  gs = [Awaits 1]
  /\ config_dbName (fst s2) = "db2"
  /\ db (fst s2) = Some "db1"
  /\ isInitialized (fst s2) = true
  /\ fst (getItem (VStr "k") s2) = Resolved (VNum 1).
Proof. vm_compute. repeat split; reflexivity. Qed.

(** * Further properties of the operations *)

(** ** The effect of each operation in a ready state *)
Module Effects.
Import Gate Ops.

Lemma onsuccess_decode raw s : getItem_onsuccess (Some raw) s = (decode raw, s).
Proof.
  unfold getItem_onsuccess, decode.
  destruct (String.eqb raw UNDEFINED_MARKER); [reflexivity|].
  destruct (JSON.parse raw); reflexivity.
Qed.

Lemma ready_backend s :
  ready s = true ->
  isInitialized (fst s) = true
  /\ (useMemoryFallback (fst s) = true
      \/ useMemoryFallback (fst s) = false /\ exists d, db (fst s) = Some d).
Proof.
  unfold ready. intros H. apply andb_true_iff in H as [Hi Hb]. split; [exact Hi|].
  destruct (useMemoryFallback s.1); [now left | right].
  split; [reflexivity|]. now apply bool_decide_eq_true in Hb.
Qed.

Lemma read_logical s k :
  ready s = true -> read s k = default (Resolved VNull) (logical s !! k).
Proof.
  intros Hr. destruct (ready_backend s Hr) as [_ [Hfb|[Hfb [d Hd]]]];
    unfold read, logical; rewrite Hfb.
  - rewrite lookup_fmap. now destruct (memoryStore s.1 !! k).
  - rewrite Hd, lookup_fmap.
    destruct (store_of d s.2 !! k) as [raw|]; [|reflexivity].
    now rewrite onsuccess_decode.
Qed.

Lemma fst_prod_map {A B C} (f : B -> C) (l : list (A * B)) :
  fst <$> (prod_map id f <$> l) = fst <$> l.
Proof. rewrite <- list_fmap_compose. now apply list_fmap_ext. Qed.

Lemma stored_keys_logical s :
  ready s = true -> stored_keys s = fst <$> map_to_list (logical s).
Proof.
  intros Hr. destruct (ready_backend s Hr) as [_ [Hfb|[Hfb [d Hd]]]];
    unfold stored_keys, logical; rewrite Hfb.
  - now rewrite map_to_list_fmap, fst_prod_map.
  - now rewrite Hd, map_to_list_fmap, fst_prod_map.
Qed.

Lemma elem_of_stored_keys s k :
  ready s = true -> k ∈ stored_keys s <-> is_Some (logical s !! k).
Proof.
  intros Hr. rewrite (stored_keys_logical s Hr). split.
  - intros ([k' r] & -> & H)%list_elem_of_fmap.
    apply elem_of_map_to_list in H. now exists r.
  - intros [r H]. apply list_elem_of_fmap. exists (k, r). split; [reflexivity|].
    now apply elem_of_map_to_list.
Qed.

Lemma NoDup_stored_keys s : NoDup (stored_keys s).
Proof.
  unfold stored_keys. destruct (useMemoryFallback s.1).
  - apply NoDup_fst_map_to_list.
  - destruct (db s.1); [apply NoDup_fst_map_to_list | constructor].
Qed.

Lemma length_stored_keys s :
  ready s = true -> List.length (stored_keys s) = size (logical s).
Proof.
  intros Hr. rewrite (stored_keys_logical s Hr).
  now rewrite length_fmap, length_map_to_list.
Qed.


Lemma request_spec what h w :
  request what (h, w)
  = (match request_faults w with
     | true :: _ => Rejected (request_error what)
     | _ => Resolved tt
     end, (h, set_request_faults (tail (request_faults w)) w)).
Proof.
  unfold request, bind, world, update_world. cbn [fst snd].
  destruct (request_faults w) as [|[] l]; reflexivity.
Qed.

Lemma dispatch_ready {A} (mem : Helper -> M A) pers s :
  ready s = true ->
  dispatch mem pers s
  = if useMemoryFallback (fst s) then mem (fst s) s
    else
      match db (fst s) with
      | Some d => pers d s
      | None => (Rejected null_db_error, s)
      end.
Proof.
  intros Hr. unfold dispatch, bind at 1. rewrite (initialize_ready s Hr).
  unfold bind at 1, this. cbn [fst snd].
  destruct (useMemoryFallback s.1); [reflexivity|].
  unfold connection, bind, this. cbn [fst snd].
  destruct (db s.1); reflexivity.
Qed.

Lemma through_gate s :
  wf s = true ->
  exists s1,
    passed s s1
    /\ forall A (mem : Helper -> M A) pers, dispatch mem pers s = dispatch mem pers s1.
Proof.
  intros Hwf. destruct (initialize_spec s Hwf) as (s1 & Hi & Hr & Hm & Hs & Hf).
  exists s1. split.
  - unfold passed, calm. rewrite Hf. auto.
  - intros A mem pers. unfold dispatch. unfold bind at 1. rewrite Hi.
    symmetry. unfold bind at 1. now rewrite (initialize_ready s1 Hr).
Qed.

(** The operations, by backend. *)
Lemma getItem_dispatch k :
  getItem (VStr k)
  = dispatch
      (fun h => ret (match memoryStore h !! k with Some v => v | None => VNull end))
      (fun d =>
         request "Get request failed" ;;
         w <- world ;;
         getItem_onsuccess (store_of d w !! k)).
Proof. reflexivity. Qed.

Lemma same_data_refl s : same_data s s.
Proof. destruct s as [h []]. split; reflexivity. Qed.

Lemma same_data_answered h w l : same_data (h, w) (h, set_request_faults l w).
Proof. split; reflexivity. Qed.

Lemma same_data_trans s1 s2 s3 :
  same_data s1 s2 -> same_data s2 s3 -> same_data s1 s3.
Proof.
  destruct s1 as [h1 w1], s2 as [h2 w2], s3 as [h3 w3].
  unfold same_data. cbn [fst snd]. intros [-> E2] [-> E3]. split; [reflexivity|].
  rewrite E3, E2. reflexivity.
Qed.

Lemma same_data_spec s s' :
  same_data s s' ->
  logical s' = logical s
  /\ stored_keys s' = stored_keys s
  /\ ready s' = ready s
  /\ backend_view s' = backend_view s
  /\ (forall k, read s' k = read s k)
  /\ (forall k, stored_text s' k = stored_text s k)
  /\ memoryStore (fst s') = memoryStore (fst s)
  /\ (forall n, store_of n (snd s')  = store_of n (snd s)).
Proof.
  destruct s as [h w], s' as [h' w']. unfold same_data. cbn [fst snd].
  intros [-> ->].
  unfold logical, stored_keys, ready, backend_view, read, stored_text.
  cbn [fst snd]. repeat split.
  intros k. destruct (useMemoryFallback h); [reflexivity|].
  destruct (db h) as [d|]; [|reflexivity].
  change (store_of d (set_request_faults (request_faults w') w)) with (store_of d w).
  destruct (store_of d w !! k) as [raw|]; [|reflexivity].
  now rewrite !onsuccess_decode.
Qed.

Lemma calm_tail (l : list bool) :
  forallb negb l = true -> forallb negb (tail l) = true.
Proof. destruct l as [|b l]; [auto|]. cbn. intros H. now apply andb_true_iff in H. Qed.

Lemma calm_head (l : list bool) :
  forallb negb l = true ->
  match l with true :: _ => False | _ => True end.
Proof. destruct l as [|[] l]; cbn; auto. discriminate. Qed.

(** A read in a ready, calm state. *)
Lemma getItem_effect s k :
  ready s = true -> calm s = true ->
  exists s',
    getItem (VStr k) s = (read s k, s') /\ same_data s s' /\ calm s' = true.
Proof.
  intros Hr Hc. rewrite getItem_dispatch, (dispatch_ready _ _ s Hr).
  destruct s as [h w]. unfold read, calm in *. cbn [fst snd] in *.
  destruct (useMemoryFallback h).
  - exists (h, w). split; [reflexivity|]. split; [apply same_data_refl | exact Hc].
  - destruct (db h) as [d|].
    + unfold bind at 1. rewrite request_spec.
      pose proof (calm_head _ Hc) as Hh.
      destruct (request_faults w) as [|[] l] eqn:E; try contradiction;
        unfold bind, world; cbn [fst snd];
        change (store_of d (set_request_faults _ w)) with (store_of d w);
        (eexists; split; [apply (onsuccess_pure _ _ (h, w))|]);
        (split; [apply same_data_answered|]); cbn [snd request_faults set_request_faults tail].
      * reflexivity.
      * cbn in Hc. exact Hc.
    + exists (h, w). split; [reflexivity|]. split; [apply same_data_refl | exact Hc].
Qed.


Lemma setItem_dispatch k v :
  setItem (VStr k) v
  = dispatch
      (fun _ =>
         match v with
         | VUndefined => ret tt
         | _ =>
             match JSON.stringify v with
             | JSON.Throws => throw stringify_error
             | _ => ret tt
             end
         end ;;
         update_this (fun h => set_memoryStore (<[k := v]> (memoryStore h)) h))
      (fun d =>
         match v with
         | VUndefined =>
             request "Transaction failed" ;;
             write_store d (insert k UNDEFINED_MARKER)
         | _ =>
             match JSON.stringify v with
             | JSON.Throws => throw stringify_error
             | JSON.Text serializedValue =>
                 request "Transaction failed" ;;
                 write_store d (insert k serializedValue)
             | JSON.NoText =>
                 request "Transaction failed" ;;
                 write_store d (delete k)
             end
         end).
Proof. reflexivity. Qed.

Lemma removeItem_dispatch k :
  removeItem (VStr k)
  = dispatch
      (fun _ => update_this (fun h => set_memoryStore (delete k (memoryStore h)) h))
      (fun d => request "Transaction failed" ;; write_store d (delete k)).
Proof. reflexivity. Qed.

Lemma clear_dispatch :
  clear
  = dispatch
      (fun _ => update_this (set_memoryStore ∅))
      (fun d => request "Clear failed" ;; write_store d (fun _ => ∅)).
Proof. reflexivity. Qed.

Lemma keys_dispatch :
  keys
  = dispatch
      (fun h => ret (fst <$> map_to_list (memoryStore h)))
      (fun d =>
         request "Keys request failed" ;;
         w <- world ;;
         ret (fst <$> map_to_list (store_of d w))).
Proof. reflexivity. Qed.

Lemma values_dispatch :
  values
  = dispatch
      (fun h => ret (snd <$> map_to_list (memoryStore h)))
      (fun d =>
         request "Values request failed" ;;
         w <- world ;;
         ret (decode_or_raw <$> (snd <$> map_to_list (store_of d w)))).
Proof. reflexivity. Qed.

Lemma length_dispatch :
  length
  = dispatch
      (fun h => ret (size (memoryStore h)))
      (fun d =>
         request "Count request failed" ;;
         w <- world ;;
         ret (size (store_of d w))).
Proof. reflexivity. Qed.

(** A write on the persistent backend when its request succeeds. *)
Lemma write_store_effect what d f h w :
  isInitialized h = true -> useMemoryFallback h = false -> db h = Some d ->
  forallb negb (request_faults w) = true ->
  exists s',
    (request what ;; write_store d f) (h, w) = (Resolved tt, s')
    /\ updated (h, w) s' (decode <$> f (store_of d w)).
Proof.
  intros Hi Hfb Hd Hc. unfold bind. rewrite request_spec.
  pose proof (calm_head _ Hc) as Hh. pose proof (calm_tail _ Hc) as Ht.
  assert (match request_faults w with true :: _ => Rejected (request_error what)
          | _ => Resolved tt end = Resolved tt) as ->
    by (destruct (request_faults w) as [|[] l]; [reflexivity | contradiction | reflexivity]).
  unfold write_store, update_world. cbn [fst snd].
  eexists. split; [reflexivity|].
  unfold updated, ready, calm, logical, backend_view. cbn [fst snd].
  cbn [set_databases set_request_faults request_faults databases indexedDB_present
       open_faults pending_opens activations closed_connections].
  rewrite Hi, Hfb, Hd. cbn [orb andb]. rewrite bool_decide_eq_true_2 by eauto.
  rewrite store_of_written. repeat split; auto.
  intros n [Hn|Hn]; [discriminate|].
  rewrite store_of_other by congruence. reflexivity.
Qed.

Lemma calm_updated_memory h w m :
  isInitialized h = true -> useMemoryFallback h = true ->
  forallb negb (request_faults w) = true ->
  updated (h, w) (set_memoryStore m h, w) (Resolved <$> m).
Proof.
  intros Hi Hfb Hc. unfold updated, ready, calm, logical, backend_view.
  cbn [fst snd set_memoryStore isInitialized useMemoryFallback db config_dbName
       initPromise memoryStore].
  rewrite Hi, Hfb. repeat split; auto.
Qed.

Lemma logical_memory s :
  useMemoryFallback (fst s) = true -> logical s = Resolved <$> memoryStore (fst s).
Proof. unfold logical. now intros ->. Qed.

Lemma logical_persistent s d :
  useMemoryFallback (fst s) = false -> db (fst s) = Some d ->
  logical s = decode <$> store_of d (snd s).
Proof. unfold logical. now intros -> ->. Qed.

(** [setItem] of a value that [JSON.stringify] accepts, in a ready, calm
    state. *)
Lemma setItem_effect s k v :
  ready s = true -> calm s = true -> serializable v = true ->
  exists s',
    setItem (VStr k) v s = (Resolved tt, s')
    /\ updated s s' (<[k := stored_as s v]> (logical s)).
Proof.
  intros Hr Hc Hv. rewrite setItem_dispatch, (dispatch_ready _ _ s Hr).
  destruct (ready_backend s Hr) as [Hi [Hfb|[Hfb [d Hd]]]];
    destruct s as [h w]; unfold stored_as, calm in *; cbn [fst snd] in *;
    rewrite Hfb.
  - rewrite (logical_memory (h, w) Hfb). cbn [fst]. rewrite <- fmap_insert.
    exists (set_memoryStore (<[k := v]> (memoryStore h)) h, w). split.
    + unfold serializable in Hv. unfold bind.
      destruct v; try reflexivity; destruct (JSON.stringify _); try discriminate Hv;
        reflexivity.
    + now apply calm_updated_memory.
  - rewrite Hd, (logical_persistent (h, w) d Hfb Hd). cbn [fst snd].
    rewrite <- fmap_insert.
    assert ((match v with
             | VUndefined =>
                 request "Transaction failed" ;;
                 write_store d (insert k UNDEFINED_MARKER)
             | _ =>
                 match JSON.stringify v with
                 | JSON.Throws => throw stringify_error
                 | JSON.Text serializedValue =>
                     request "Transaction failed" ;;
                     write_store d (insert k serializedValue)
                 | JSON.NoText =>
                     request "Transaction failed" ;;
                     write_store d (delete k)
                 end
             end)
            = (request "Transaction failed" ;; write_store d (insert k (text_of v))))
      as ->.
    { unfold serializable in Hv. unfold text_of.
      destruct v; try reflexivity;
        destruct (JSON.stringify _) eqn:E; try discriminate Hv; try reflexivity;
        apply Roundtrip.stringify_no_text in E; discriminate E. }
    now apply write_store_effect.
Qed.

Lemma removeItem_effect s k :
  ready s = true -> calm s = true ->
  exists s',
    removeItem (VStr k) s = (Resolved tt, s')
    /\ updated s s' (delete k (logical s)).
Proof.
  intros Hr Hc. rewrite removeItem_dispatch, (dispatch_ready _ _ s Hr).
  destruct (ready_backend s Hr) as [Hi [Hfb|[Hfb [d Hd]]]];
    destruct s as [h w]; unfold calm in *; cbn [fst snd] in *; rewrite Hfb.
  - rewrite (logical_memory (h, w) Hfb). cbn [fst]. rewrite <- fmap_delete.
    eexists. split; [reflexivity|]. now apply calm_updated_memory.
  - rewrite Hd, (logical_persistent (h, w) d Hfb Hd). cbn [fst snd].
    rewrite <- fmap_delete. now apply write_store_effect.
Qed.

Lemma clear_effect s :
  ready s = true -> calm s = true ->
  exists s', clear s = (Resolved tt, s') /\ updated s s' ∅.
Proof.
  intros Hr Hc. rewrite clear_dispatch, (dispatch_ready _ _ s Hr).
  destruct (ready_backend s Hr) as [Hi [Hfb|[Hfb [d Hd]]]];
    destruct s as [h w]; unfold calm in *; cbn [fst snd] in *; rewrite Hfb.
  - eexists. split; [reflexivity|].
    rewrite <- (fmap_empty (M := gmap string) Resolved).
    now apply (calm_updated_memory h w ∅).
  - rewrite Hd. rewrite <- (fmap_empty (M := gmap string) decode).
    now apply (write_store_effect "Clear failed" d (fun _ => ∅)).
Qed.

(** An enumeration request on the persistent backend when it succeeds. *)
Lemma read_store_effect {A} what (f : gmap string string -> A) d h w :
  forallb negb (request_faults w) = true ->
  exists s',
    (request what ;; w <- world ;; ret (f (store_of d w))) (h, w)
    = (Resolved (f (store_of d w)), s')
    /\ same_data (h, w) s' /\ calm s' = true.
Proof.
  intros Hc. unfold bind at 1. rewrite request_spec.
  pose proof (calm_head _ Hc) as Hh. pose proof (calm_tail _ Hc) as Ht.
  assert (match request_faults w with true :: _ => Rejected (request_error what)
          | _ => Resolved tt end = Resolved tt) as ->
    by (destruct (request_faults w) as [|[] l]; [reflexivity | contradiction | reflexivity]).
  unfold bind, world, ret. cbn [fst snd].
  eexists. split; [reflexivity|]. split; [apply same_data_answered | exact Ht].
Qed.

Lemma keys_effect s :
  ready s = true -> calm s = true ->
  exists s',
    keys s = (Resolved (stored_keys s), s') /\ same_data s s' /\ calm s' = true.
Proof.
  intros Hr Hc. rewrite keys_dispatch, (dispatch_ready _ _ s Hr).
  destruct (ready_backend s Hr) as [Hi [Hfb|[Hfb [d Hd]]]];
    destruct s as [h w]; unfold calm, stored_keys in *; cbn [fst snd] in *;
    rewrite Hfb.
  - eexists. split; [reflexivity|]. split; [apply same_data_refl | exact Hc].
  - rewrite Hd.
    apply (read_store_effect "Keys request failed"
             (fun st => fst <$> map_to_list st) d h w Hc).
Qed.

Lemma length_effect s :
  ready s = true -> calm s = true ->
  exists s',
    length s = (Resolved (List.length (stored_keys s)), s')
    /\ same_data s s' /\ calm s' = true.
Proof.
  intros Hr Hc. rewrite length_dispatch, (dispatch_ready _ _ s Hr).
  destruct (ready_backend s Hr) as [Hi [Hfb|[Hfb [d Hd]]]];
    destruct s as [h w]; unfold calm, stored_keys in *; cbn [fst snd] in *;
    rewrite Hfb.
  - rewrite length_fmap, length_map_to_list.
    eexists. split; [reflexivity|]. split; [apply same_data_refl | exact Hc].
  - rewrite Hd, length_fmap, length_map_to_list.
    apply (read_store_effect "Count request failed" size d h w Hc).
Qed.


(** *** From any state the helper can be in to the state behind the gate *)

Lemma wf_passed s : wf s = true -> exists s0, passed s s0.
Proof.
  intros Hwf. destruct (initialize_spec s Hwf) as (s0 & Hi & Hr & Hm & Hs & Hf).
  exists s0. unfold passed, calm. rewrite Hf. auto.
Qed.

Lemma passed_dispatch {A} (mem : Helper -> M A) pers s s0 :
  passed s s0 -> dispatch mem pers s = dispatch mem pers s0.
Proof.
  intros (Hi & Hr & _). unfold dispatch. unfold bind at 1. rewrite Hi.
  symmetry. unfold bind at 1. now rewrite (initialize_ready s0 Hr).
Qed.

Lemma passed_bind {A B} (m : M A) (k : A -> M B) s s0 :
  m s = m s0 -> bind m k s = bind m k s0.
Proof. intros E. unfold bind. now rewrite E. Qed.

Lemma passed_ready s s0 : passed s s0 -> ready s0 = true.
Proof. now intros (_ & Hr & _). Qed.

Lemma passed_calm s s0 : passed s s0 -> calm s = true -> calm s0 = true.
Proof. intros (_ & _ & Hc & _) H. congruence. Qed.

Lemma getItem_passed k s s0 :
  passed s s0 -> getItem (VStr k) s = getItem (VStr k) s0.
Proof. rewrite getItem_dispatch. apply passed_dispatch. Qed.

Lemma setItem_passed k v s s0 :
  passed s s0 -> setItem (VStr k) v s = setItem (VStr k) v s0.
Proof. rewrite setItem_dispatch. apply passed_dispatch. Qed.

Lemma removeItem_passed k s s0 :
  passed s s0 -> removeItem (VStr k) s = removeItem (VStr k) s0.
Proof. rewrite removeItem_dispatch. apply passed_dispatch. Qed.

Lemma clear_passed s s0 : passed s s0 -> clear s = clear s0.
Proof. rewrite clear_dispatch. apply passed_dispatch. Qed.

Lemma keys_passed s s0 : passed s s0 -> keys s = keys s0.
Proof. rewrite keys_dispatch. apply passed_dispatch. Qed.

Lemma values_passed s s0 : passed s s0 -> values s = values s0.
Proof. rewrite values_dispatch. apply passed_dispatch. Qed.

Lemma length_passed s s0 : passed s s0 -> length s = length s0.
Proof. rewrite length_dispatch. apply passed_dispatch. Qed.

Lemma has_passed k s s0 : passed s s0 -> has (VStr k) s = has (VStr k) s0.
Proof. intros Hp. apply passed_bind, getItem_passed, Hp. Qed.

Lemma toggle_passed k s s0 :
  passed s s0 -> toggle (VStr k) s = toggle (VStr k) s0.
Proof. intros Hp. apply passed_bind, getItem_passed, Hp. Qed.

Lemma append_passed k v s s0 :
  passed s s0 -> append (VStr k) v s = append (VStr k) v s0.
Proof. intros Hp. apply passed_bind, getItem_passed, Hp. Qed.

Lemma prepend_passed k v s s0 :
  passed s s0 -> prepend (VStr k) v s = prepend (VStr k) v s0.
Proof. intros Hp. apply passed_bind, getItem_passed, Hp. Qed.

Lemma entries_passed s s0 : passed s s0 -> entries s = entries s0.
Proof. intros Hp. apply passed_bind, keys_passed, Hp. Qed.

(** A ready state is behind its own gate. *)
Lemma ready_passed s : ready s = true -> passed s s.
Proof. intros Hr. unfold passed. rewrite (initialize_ready s Hr). auto. Qed.

(** *** Reading after a write *)

Lemma updated_read s s' m k :
  updated s s' m -> read s' k = default (Resolved VNull) (m !! k).
Proof. intros (Hr & _ & <- & _). now apply read_logical. Qed.

Lemma updated_keys s s' m k :
  updated s s' m -> k ∈ stored_keys s' <-> is_Some (m !! k).
Proof. intros (Hr & _ & <- & _). now apply elem_of_stored_keys. Qed.

Lemma updated_length s s' m :
  updated s s' m -> List.length (stored_keys s') = size m.
Proof. intros (Hr & _ & <- & _). now apply length_stored_keys. Qed.

Lemma get_after s k :
  ready s = true -> calm s = true -> fst (getItem (VStr k) s) = read s k.
Proof. intros Hr Hc. now destruct (getItem_effect s k Hr Hc) as (s' & -> & _). Qed.

Lemma same_data_ready s s' : same_data s s' -> ready s = true -> ready s' = true.
Proof. intros H Hr. destruct (same_data_spec s s' H) as (_ & _ & -> & _). exact Hr. Qed.


(** *** Read, modify, write *)

Lemma read_modify_write s k (f : value -> value) cur :
  ready s = true -> calm s = true -> read s k = Resolved cur ->
  serializable (f cur) = true ->
  exists s0 s1,
    same_data s s0
    /\ (c <- getItem (VStr k) ;; setItem (VStr k) (f c) ;; ret (f c)) s
       = (Resolved (f cur), s1)
    /\ updated s0 s1 (<[k := stored_as s (f cur)]> (logical s)).
Proof.
  intros Hr Hc Hcur Hv.
  destruct (getItem_effect s k Hr Hc) as (s0 & Eg & Hd & Hc0).
  pose proof (same_data_ready _ _ Hd Hr) as Hr0.
  destruct (setItem_effect s0 k (f cur) Hr0 Hc0 Hv) as (s1 & Es & Hu).
  exists s0, s1. split; [exact Hd|]. split.
  - unfold bind at 1. rewrite Eg, Hcur. unfold bind. now rewrite Es.
  - destruct (same_data_spec _ _ Hd) as (Hl & _).
    destruct Hd as [Hfst _]. unfold stored_as in *. now rewrite Hfst, Hl in Hu.
Qed.


(** *** The array operations *)

Lemma append_operation key v :
  append key v = array_operation (fun items => items ++ [v]) key v.
Proof. reflexivity. Qed.

Lemma prepend_operation key v :
  prepend key v = array_operation (cons v) key v.
Proof. reflexivity. Qed.

Lemma mutate_effect s k array :
  ready s = true ->
  exists s',
    mutate_in_place (VStr k) array s = (Resolved tt, s')
    /\ ready s' = true /\ calm s' = calm s
    /\ logical s'
       = (if useMemoryFallback (fst s) then <[k := Resolved array]> (logical s)
          else logical s)
    /\ useMemoryFallback (fst s') = useMemoryFallback (fst s).
Proof.
  intros Hr. destruct (ready_backend s Hr) as [Hi [Hfb|[Hfb [d Hd]]]];
    destruct s as [h w]; cbn [fst snd] in *;
    unfold mutate_in_place, bind, this; cbn [fst snd]; rewrite Hfb.
  - eexists. split; [reflexivity|].
    unfold ready, calm, logical.
    cbn [fst snd set_memoryStore isInitialized useMemoryFallback memoryStore].
    rewrite Hi, Hfb, fmap_insert. auto.
  - exists (h, w). rewrite ?Hfb. auto.
Qed.

Lemma array_operation_effect s k v (g : list value -> list value) cur :
  ready s = true -> calm s = true -> read s k = Resolved cur -> g [] = [v] ->
  let array := VArr (g (as_array cur)) in
  (serializable array = true ->
   exists s1,
     array_operation g (VStr k) v s = (Resolved array, s1)
     /\ ready s1 = true /\ calm s1 = true
     /\ logical s1 = <[k := stored_as s array]> (logical s)
     /\ useMemoryFallback (fst s1) = useMemoryFallback (fst s))
  /\ (JSON.stringify array = JSON.Throws ->
      exists s1,
        array_operation g (VStr k) v s = (Rejected stringify_error, s1)
        /\ ready s1 = true /\ calm s1 = true
        /\ logical s1
           = match cur with
             | VArr _ =>
                 if useMemoryFallback (fst s)
                 then <[k := Resolved array]> (logical s)
                 else logical s
             | _ => logical s
             end
        /\ useMemoryFallback (fst s1) = useMemoryFallback (fst s)).
Proof.
  intros Hr Hc Hcur Hg array.
  destruct (getItem_effect s k Hr Hc) as (s0 & Eg & Hd & Hc0).
  pose proof (same_data_ready _ _ Hd Hr) as Hr0.
  destruct (same_data_spec _ _ Hd) as (Hl0 & _).
  assert (useMemoryFallback (fst s0) = useMemoryFallback (fst s)) as Hfb0
    by (destruct Hd as [-> _]; reflexivity).
  assert (exists s0',
             (match cur with
              | VArr items =>
                  mutate_in_place (VStr k) (VArr (g items)) ;;
                  ret (VArr (g items))
              | _ => ret (VArr [v])
              end) s0 = (Resolved array, s0')
             /\ ready s0' = true /\ calm s0' = true
             /\ logical s0'
                = match cur with
                  | VArr _ =>
                      if useMemoryFallback (fst s)
                      then <[k := Resolved array]> (logical s)
                      else logical s
                  | _ => logical s
                  end
             /\ useMemoryFallback (fst s0') = useMemoryFallback (fst s))
    as (s0' & Em & Hr0' & Hc0' & Hl0' & Hfb0').
  { subst array.
    destruct cur as [| |b|n|t|items|props| |x];
      try (exists s0; cbn [as_array]; rewrite Hg; auto 10).
    destruct (mutate_effect s0 k (VArr (g items)) Hr0)
      as (s0' & Em & Hr0' & Hc0' & Hl0' & Hfb0').
    exists s0'. unfold bind. rewrite Em. cbn [as_array].
    rewrite Hl0', Hfb0, Hl0, Hfb0', Hfb0. split; [reflexivity|].
    split; [exact Hr0'|]. split; [congruence|]. auto. }
  assert (forall r s1,
             setItem (VStr k) array s0' = (r, s1) ->
             array_operation g (VStr k) v s
             = (match r with Resolved _ => Resolved array | Rejected e => Rejected e end,
                s1)) as Hrun.
  { intros r s1 Es. unfold array_operation. unfold bind at 1. rewrite Eg, Hcur.
    unfold bind at 1. cbv zeta. rewrite Em. unfold bind. rewrite Es.
    now destruct r. }
  split.
  - intros Hv. destruct (setItem_effect s0' k array Hr0' Hc0' Hv) as (s1 & Es & Hu).
    exists s1. rewrite (Hrun _ _ Es). destruct Hu as (Hr1 & Hc1 & Hl1 & Hview & _).
    assert (useMemoryFallback (fst s1) = useMemoryFallback (fst s)) as Hfb1
      by (unfold backend_view in Hview; injection Hview as _ _ -> _ _ _;
          exact Hfb0').
    repeat split; auto. rewrite Hl1, Hl0'. unfold stored_as. rewrite Hfb0'.
    destruct cur; try reflexivity.
    destruct (useMemoryFallback s.1); [|reflexivity].
    now rewrite insert_insert_eq.
  - intros Ht. exists s0'. rewrite (Hrun _ _ (Ops.setItem_throws k array s0' Hr0' Ht)).
    auto.
Qed.

End Effects.

(** ** What the persistent backend keeps of a value *)

Module Codec.
Import JSON Roundtrip.

Lemma decode_marker : decode UNDEFINED_MARKER = Resolved VUndefined.
Proof. reflexivity. Qed.

Lemma decode_text v t :
  stringify v = Text t -> parse t = Some v -> decode t = Resolved v.
Proof.
  intros Et Hp. unfold decode.
  destruct (String.eqb_spec t UNDEFINED_MARKER) as [E|_].
  - now apply stringify_not_marker in Et.
  - now rewrite Hp.
Qed.

(** A storable value is stored as itself on either backend. *)
Lemma stored_as_storable s v : storable v = true -> stored_as s v = Resolved v.
Proof.
  intros Hv. unfold stored_as. destruct (useMemoryFallback s.1); [reflexivity|].
  assert (v = VUndefined \/ representable v = true) as [->|Hrep]
    by (destruct v; auto).
  - reflexivity.
  - destruct (parse_stringify v Hrep) as (t & Et & Hp).
    assert (text_of v = t) as ->
      by (unfold text_of; destruct v; try discriminate Hrep; now rewrite Et).
    exact (decode_text v t Et Hp).
Qed.

Lemma storable_serializable v : storable v = true -> serializable v = true.
Proof.
  intros Hv. unfold serializable.
  assert (v = VUndefined \/ representable v = true) as [->|Hrep]
    by (destruct v; auto); [reflexivity|].
  destruct (parse_stringify v Hrep) as (t & -> & _). reflexivity.
Qed.

Lemma undefined_or (v : value) : v = VUndefined \/ v <> VUndefined.
Proof. destruct v; auto; right; discriminate. Qed.

Lemma element_as_serialized e :
  e <> VUndefined ->
  match e with VUndefined => VNull | _ => as_serialized e end = as_serialized e.
Proof. destruct e; congruence. Qed.

Lemma serialized_text e :
  e <> VUndefined -> SerializeJSONProperty e <> Throws ->
  exists t, SerializeJSONProperty e = Text t.
Proof.
  intros Hu Ht. destruct (SerializeJSONProperty e) as [| |t] eqn:E.
  - congruence.
  - now apply stringify_no_text in E.
  - eauto.
Qed.

Section as_serialized_facts.
Let P (v : value) : Prop :=
  v <> VUndefined -> SerializeJSONProperty v <> Throws ->
  distinct_keys v = true ->
  representable (as_serialized v) = true
  /\ SerializeJSONProperty (as_serialized v) = SerializeJSONProperty v.

Lemma elements_as_serialized l parts :
  Forall P l -> serialize_elements l = Some parts ->
  forallb distinct_keys l = true ->
  forallb representable
    ((fun e => match e with VUndefined => VNull | _ => as_serialized e end) <$> l)
  = true
  /\ serialize_elements
       ((fun e => match e with VUndefined => VNull | _ => as_serialized e end) <$> l)
     = Some parts.
Proof.
  intros HP. revert parts. induction HP as [|e r He Hr IH]; intros parts Es Hd.
  - split; [reflexivity | exact Es].
  - cbn [forallb] in Hd. apply andb_true_iff in Hd as [Hde Hdr].
    cbn [serialize_elements] in Es. rewrite fmap_cons.
    cbn [forallb serialize_elements].
    destruct (undefined_or e) as [->|Hu].
    + cbn [SerializeJSONProperty] in *.
      destruct (serialize_elements r) as [ps|] eqn:Er; [|discriminate Es].
      destruct (IH ps eq_refl Hdr) as [-> ->]. split; [reflexivity | exact Es].
    + rewrite (element_as_serialized e Hu).
      destruct (serialized_text e Hu) as (t & Et).
      { intros E. now rewrite E in Es. }
      destruct (He Hu) as [-> ->]; [congruence | exact Hde |].
      rewrite Et in *.
      destruct (serialize_elements r) as [ps|] eqn:Er; [|discriminate Es].
      destruct (IH ps eq_refl Hdr) as [-> ->]. split; [reflexivity | exact Es].
Qed.

Lemma members_as_serialized l parts :
  Forall (fun kv => P (snd kv)) l -> serialize_members l = Some parts ->
  forallb (fun kv => distinct_keys (snd kv)) l = true ->
  let l' := omap (fun kv =>
                    match snd kv with
                    | VUndefined => None
                    | _ => Some (fst kv, as_serialized (snd kv))
                    end) l in
  forallb (fun kv => representable (snd kv)) l' = true
  /\ serialize_members l' = Some parts
  /\ sublist (fst <$> l') (fst <$> l).
Proof.
  intros HP. revert parts. induction HP as [|[k e] r He Hr IH]; intros parts Es Hd.
  - repeat split; [exact Es | constructor].
  - cbn [forallb snd] in Hd. apply andb_true_iff in Hd as [Hde Hdr].
    cbn [serialize_members] in Es. cbn zeta. cbn [omap list_omap fst snd].
    cbn [snd] in He.
    destruct (undefined_or e) as [->|Hu].
    + cbn [SerializeJSONProperty] in Es.
      destruct (IH parts Es Hdr) as (H1 & H2 & H3).
      repeat split; auto. rewrite fmap_cons. now apply sublist_cons.
    + destruct (serialized_text e Hu) as (t & Et).
      { intros E. now rewrite E in Es. }
      destruct (He Hu) as [Hrep Hser]; [congruence | exact Hde |].
      rewrite Et in *.
      destruct (serialize_members r) as [ps|] eqn:Er; [|discriminate Es].
      destruct (IH ps eq_refl Hdr) as (H1 & H2 & H3).
      assert (match e with
              | VUndefined => None
              | _ => Some (k, as_serialized e)
              end = Some (k, as_serialized e)) as -> by (destruct e; congruence).
      cbn [forallb serialize_members snd fst]. rewrite Hrep, H1, Hser, H2.
      repeat split; [exact Es|]. rewrite !fmap_cons. now apply sublist_skip.
Qed.

Lemma as_serialized_spec v : P v.
Proof.
  induction v as [| |b|n|s|l IH|l IH| |x] using value_nested_ind;
    intros Hu Ht Hd; try (split; reflexivity); try congruence;
    try (exfalso; apply Ht; reflexivity).
  - rewrite serialize_array in Ht.
    destruct (serialize_elements l) as [parts|] eqn:Es; [|congruence].
    cbn [distinct_keys] in Hd.
    destruct (elements_as_serialized l parts IH Es Hd) as [H1 H2].
    cbn [as_serialized representable]. rewrite !serialize_array, H2, Es. auto.
  - rewrite serialize_object in Ht.
    destruct (serialize_members l) as [parts|] eqn:Es; [|congruence].
    cbn [distinct_keys] in Hd. apply andb_true_iff in Hd as [Hnd Hd].
    apply bool_decide_eq_true in Hnd.
    destruct (members_as_serialized l parts IH Es Hd) as (H1 & H2 & H3).
    cbn [as_serialized representable]. rewrite !serialize_object, H2, Es, H1.
    rewrite andb_true_r. split; [|reflexivity].
    apply bool_decide_eq_true. exact (sublist_NoDup _ _ Hnd H3).
Qed.
End as_serialized_facts.

(** The text of a value parses as what the text keeps of it. *)
Lemma decode_text_of v :
  serializable v = true -> distinct_keys v = true ->
  decode (text_of v) = Resolved (as_serialized v).
Proof.
  intros Hs Hd. destruct (undefined_or v) as [->|Hu]; [reflexivity|].
  assert (SerializeJSONProperty v <> Throws) as Ht.
  { unfold serializable, stringify in Hs. intros E. now rewrite E in Hs. }
  destruct (as_serialized_spec v Hu Ht Hd) as [Hrep Hser].
  destruct (parse_stringify _ Hrep) as (t & Et & Hp).
  assert (text_of v = t) as ->.
  { unfold text_of, stringify in *. rewrite <- Hser, Et. now destruct v. }
  exact (decode_text _ t Et Hp).
Qed.

Lemma elements_throw l e :
  e ∈ l -> SerializeJSONProperty e = Throws -> serialize_elements l = None.
Proof.
  intros Hin He. induction l as [|x l IH]; [now apply elem_of_nil in Hin|].
  cbn [serialize_elements]. apply elem_of_cons in Hin as [<-|Hin].
  - now rewrite He.
  - rewrite (IH Hin). now destruct (SerializeJSONProperty x).
Qed.

Lemma array_throws l e :
  e ∈ l -> stringify e = Throws -> stringify (VArr l) = Throws.
Proof.
  intros Hin He. unfold stringify in *.
  now rewrite serialize_array, (elements_throw l e Hin He).
Qed.

Lemma representable_snoc l v :
  representable (VArr (v :: l)) = true -> representable (VArr (l ++ [v])) = true.
Proof.
  cbn [representable forallb]. intros H. apply andb_true_iff in H as [Hv Hl].
  rewrite forallb_app. cbn [forallb]. now rewrite Hv, Hl.
Qed.

(** What the text keeps of a representable value is the value. *)
Lemma as_serialized_representable v :
  representable v = true -> as_serialized v = v.
Proof.
  induction v as [| |b|n|s|l IH|l IH| |x] using value_nested_ind; intros Hr;
    try reflexivity; try discriminate Hr.
  - cbn [representable] in Hr. cbn [as_serialized]. f_equal.
    induction IH as [|e r He Hl IHl]; [reflexivity|].
    cbn [forallb] in Hr. apply andb_true_iff in Hr as [Hre Hrr].
    rewrite fmap_cons, (IHl Hrr). f_equal.
    rewrite <- (He Hre) at 2. now destruct e.
  - cbn [representable] in Hr. apply andb_true_iff in Hr as [_ Hr].
    cbn [as_serialized]. f_equal.
    induction IH as [|[k e] r He Hl IHl]; [reflexivity|].
    cbn [forallb snd] in Hr. apply andb_true_iff in Hr as [Hre Hrr].
    cbn [snd] in He.
    destruct e; try discriminate Hre; cbn [omap list_omap fst snd];
      rewrite (He Hre); f_equal; exact (IHl Hrr).
Qed.

End Codec.

(** ** The loops of [entries] and [replaceAll] *)

Module Bulk.
Import Effects.

Lemma read_rejects s k e :
  ready s = true -> read s k = Rejected e ->
  e = parse_error /\ useMemoryFallback (fst s) = false.
Proof.
  intros Hr. rewrite (read_logical s k Hr).
  destruct (ready_backend s Hr) as [_ [Hfb|[Hfb [d Hd]]]]; unfold logical;
    rewrite Hfb, ?Hd, lookup_fmap.
  - destruct (memoryStore s.1 !! k); discriminate.
  - destruct (store_of d s.2 !! k) as [raw|]; [|discriminate]. cbn.
    unfold decode. destruct (String.eqb raw UNDEFINED_MARKER); [discriminate|].
    destruct (JSON.parse raw); [discriminate|]. now intros [= <-].
Qed.

Lemma foldl_ext {A B} (f g : A -> B -> A) (l : list B) :
  (forall a b, f a b = g a b) -> forall a, foldl f a l = foldl g a l.
Proof.
  intros H. induction l as [|b l IH]; intros a; [reflexivity|].
  cbn [foldl]. now rewrite H, IH.
Qed.

Lemma entries_loop_effect (val : string -> value) ks : forall acc s,
  ready s = true -> calm s = true ->
  (forall k, k ∈ ks -> read s k = Resolved (val k)) ->
  exists s',
    entries_loop ks acc s
    = (Resolved (foldl (fun acc k => assign_property k (val k) acc) acc ks), s')
    /\ same_data s s' /\ calm s' = true.
Proof.
  induction ks as [|k ks IH]; intros acc s Hr Hc Hall.
  - exists s. split; [reflexivity|]. split; [apply same_data_refl | exact Hc].
  - destruct (getItem_effect s k Hr Hc) as (s0 & Eg & Hd & Hc0).
    pose proof (same_data_ready _ _ Hd Hr) as Hr0.
    destruct (same_data_spec _ _ Hd) as (_ & _ & _ & _ & Hread & _).
    destruct (IH (assign_property k (val k) acc) s0 Hr0 Hc0) as (s' & E & Hd' & Hc').
    { intros k' Hk'. rewrite Hread. apply Hall. now right. }
    exists s'. cbn [entries_loop foldl]. unfold bind.
    rewrite Eg, (Hall k) by now left. rewrite E.
    split; [reflexivity|]. split; [exact (same_data_trans _ _ _ Hd Hd') | exact Hc'].
Qed.

Lemma entries_loop_rejects ks : forall acc s,
  ready s = true -> calm s = true ->
  (exists k e, k ∈ ks /\ read s k = Rejected e) ->
  fst (entries_loop ks acc s) = Rejected parse_error.
Proof.
  induction ks as [|k ks IH]; intros acc s Hr Hc (k0 & e & Hin & He).
  - now apply elem_of_nil in Hin.
  - destruct (getItem_effect s k Hr Hc) as (s0 & Eg & Hd & Hc0).
    pose proof (same_data_ready _ _ Hd Hr) as Hr0.
    destruct (same_data_spec _ _ Hd) as (_ & _ & _ & _ & Hread & _).
    cbn [entries_loop]. unfold bind. rewrite Eg.
    destruct (read s k) as [v|e'] eqn:Ek.
    + apply IH; [exact Hr0 | exact Hc0 |].
      apply elem_of_cons in Hin as [->|Hin]; [congruence|].
      exists k0, e. now rewrite Hread.
    + now destruct (read_rejects s k e' Hr Ek) as [-> _].
Qed.

Lemma entries_fold (val : string -> value) ks : forall acc,
  NoDup ks -> (forall k, k ∈ ks -> k ∉ fst <$> acc) ->
  foldl (fun acc k => assign_property k (val k) acc) acc ks
  = acc ++ ((fun k => (k, val k)) <$> filter (fun k => k <> "__proto__") ks).
Proof.
  induction ks as [|k ks IH]; intros acc Hnd Hacc; cbn [foldl].
  - now rewrite filter_nil, app_nil_r.
  - apply NoDup_cons in Hnd as [Hk Hnd].
    unfold assign_property at 2.
    destruct (String.eqb_spec k "__proto__") as [->|Hne].
    + rewrite filter_cons_False by (intros H; now apply H).
      apply IH; [exact Hnd|]. intros k' Hk'. apply Hacc. now right.
    + rewrite filter_cons_True by exact Hne.
      rewrite Roundtrip.define_property_fresh by (apply Hacc; now left).
      rewrite IH; [now rewrite fmap_cons, <- app_assoc | exact Hnd |].
      intros k' Hk'. rewrite fmap_app. intros [Hin|Hin]%elem_of_app.
      * apply (Hacc k'); [now right | exact Hin].
      * apply list_elem_of_singleton in Hin. cbn in Hin. congruence.
Qed.

(** [entries()] in a ready, calm state where every stored text parses. *)
Lemma entries_effect s :
  ready s = true -> calm s = true ->
  (forall k, k ∈ stored_keys s -> exists v, read s k = Resolved v) ->
  exists s',
    entries s
    = (Resolved
         (VObj ((fun k => (k, value_of_key s k))
                  <$> filter (fun k => k <> "__proto__") (stored_keys s))), s')
    /\ same_data s s' /\ calm s' = true.
Proof.
  intros Hr Hc Hall.
  destruct (keys_effect s Hr Hc) as (s0 & Ek & Hd & Hc0).
  pose proof (same_data_ready _ _ Hd Hr) as Hr0.
  destruct (same_data_spec _ _ Hd) as (_ & _ & _ & _ & Hread & Htext & _).
  destruct (entries_loop_effect (value_of_key s) (stored_keys s) [] s0 Hr0 Hc0)
    as (s' & E & Hd' & Hc').
  { intros k Hk. rewrite Hread. unfold value_of_key.
    now destruct (Hall k Hk) as (v & ->). }
  exists s'. unfold entries, bind. rewrite Ek, E.
  split; [|split; [exact (same_data_trans _ _ _ Hd Hd') | exact Hc']].
  rewrite (entries_fold (value_of_key s) (stored_keys s) []
             (NoDup_stored_keys s)) by (intros k _ H; now apply elem_of_nil in H).
  reflexivity.
Qed.

Lemma replaceAll_loop_app pre rest s :
  replaceAll_loop (pre ++ rest) s = (replaceAll_loop pre ;; replaceAll_loop rest) s.
Proof.
  revert s. induction pre as [|[k v] pre IH]; intros s; [reflexivity|].
  cbn [app replaceAll_loop]. unfold bind.
  destruct (setItem (VStr k) v s) as [[[]|e] s1]; [|reflexivity].
  rewrite IH. reflexivity.
Qed.

(** The writes of the loop, in a ready, calm state. *)
Lemma replaceAll_loop_effect es : forall s,
  ready s = true -> calm s = true ->
  Forall (fun kv => serializable (snd kv) = true) es ->
  exists s',
    replaceAll_loop es s = (Resolved tt, s')
    /\ ready s' = true /\ calm s' = true
    /\ logical s'
       = foldl (fun m kv => <[fst kv := stored_as s (snd kv)]> m) (logical s) es
    /\ backend_view s' = backend_view s.
Proof.
  induction es as [|[k v] es IH]; intros s Hr Hc Hall.
  - exists s. auto.
  - apply Forall_cons in Hall as [Hv Hall]. cbn [snd] in Hv.
    destruct (setItem_effect s k v Hr Hc Hv) as (s1 & Es & Hr1 & Hc1 & Hl1 & Hv1 & _).
    destruct (IH s1 Hr1 Hc1 Hall) as (s' & E & Hr' & Hc' & Hl' & Hv').
    exists s'. cbn [replaceAll_loop foldl fst snd]. unfold bind. rewrite Es, E.
    repeat split; auto; [|congruence].
    rewrite Hl', Hl1. apply foldl_ext. intros m [k' v']. unfold stored_as.
    unfold backend_view in Hv1. now injection Hv1 as _ _ -> _ _ _.
Qed.

Lemma lookup_foldl_insert_notin {V W} (f : V -> W) (es : list (string * V)) :
  forall (m : gmap string W) k,
    k ∉ fst <$> es ->
    foldl (fun m kv => <[fst kv := f (snd kv)]> m) m es !! k = m !! k.
Proof.
  induction es as [|[k0 v0] es IH]; intros m k Hk; [reflexivity|].
  rewrite fmap_cons in Hk. apply not_elem_of_cons in Hk as [Hne Hk].
  cbn [foldl fst snd]. rewrite IH by exact Hk. now rewrite lookup_insert_ne.
Qed.

Lemma lookup_foldl_insert_in {V W} (f : V -> W) (es : list (string * V)) :
  forall (m : gmap string W) k v,
    NoDup (fst <$> es) -> (k, v) ∈ es ->
    foldl (fun m kv => <[fst kv := f (snd kv)]> m) m es !! k = Some (f v).
Proof.
  induction es as [|[k0 v0] es IH]; intros m k v Hnd Hin.
  - now apply elem_of_nil in Hin.
  - rewrite fmap_cons in Hnd. apply NoDup_cons in Hnd as [Hk0 Hnd].
    cbn [foldl fst snd]. apply elem_of_cons in Hin as [[= -> ->]|Hin].
    + rewrite lookup_foldl_insert_notin by exact Hk0. apply lookup_insert_eq.
    + now apply IH.
Qed.

Lemma dom_foldl_insert {V W} (f : V -> W) (es : list (string * V)) k :
  is_Some (foldl (fun m kv => <[fst kv := f (snd kv)]> m) (∅ : gmap string W) es !! k)
  <-> k ∈ fst <$> es.
Proof.
  split.
  - intros [r Hr]. destruct (decide (k ∈ fst <$> es)) as [Hin|Hn]; [exact Hin|].
    rewrite lookup_foldl_insert_notin in Hr by exact Hn.
    now rewrite lookup_empty in Hr.
  - revert k. generalize (∅ : gmap string W).
    induction es as [|[k0 v0] es IH]; intros m k Hin.
    + now apply elem_of_nil in Hin.
    + cbn [foldl fst snd]. rewrite fmap_cons in Hin.
      destruct (decide (k ∈ fst <$> es)) as [Hin'|Hn]; [now apply IH|].
      apply elem_of_cons in Hin as [->|Hin]; [|contradiction].
      rewrite lookup_foldl_insert_notin by exact Hn. cbn [fst].
      rewrite lookup_insert_eq. eauto.
Qed.

Lemma replaceAll_object data :
  typeof data = TObject -> data <> VNull ->
  replaceAll data = (clear ;; replaceAll_loop (Object_entries data)).
Proof. destruct data; try discriminate; try congruence; reflexivity. Qed.

Lemma replaceAll_passed data s s0 :
  typeof data = TObject -> data <> VNull ->
  passed s s0 -> replaceAll data s = replaceAll data s0.
Proof.
  intros Ht Hn Hp. rewrite (replaceAll_object data Ht Hn).
  apply passed_bind, clear_passed, Hp.
Qed.

(** [replaceAll] in a ready, calm state: the old entries are gone and the
    entries before the first value that [JSON.stringify] rejects, all of
    them if there is none, are stored. *)
Lemma replaceAll_effect data s es (rest : list (string * value)) :
  typeof data = TObject -> data <> VNull ->
  ready s = true -> calm s = true ->
  Forall (fun kv => serializable (snd kv) = true) es ->
  Object_entries data = es ++ rest ->
  match rest with
  | [] => True
  | (_, bad) :: _ => JSON.stringify bad = JSON.Throws
  end ->
  exists s',
    replaceAll data s
    = (match rest with
       | [] => Resolved tt
       | _ :: _ => Rejected stringify_error
       end, s')
    /\ ready s' = true /\ calm s' = true
    /\ logical s'
       = foldl (fun m kv => <[fst kv := stored_as s (snd kv)]> m) ∅ es.
Proof.
  intros Ht Hn Hr Hc Hall Hes Hbad. rewrite (replaceAll_object data Ht Hn), Hes.
  destruct (clear_effect s Hr Hc) as (s1 & Ec & Hr1 & Hc1 & Hl1 & Hv1 & _).
  destruct (replaceAll_loop_effect es s1 Hr1 Hc1 Hall) as (s2 & El & Hr2 & Hc2 & Hl2 & _).
  assert (logical s2
          = foldl (fun m kv => <[fst kv := stored_as s (snd kv)]> m) ∅ es) as Hl.
  { rewrite Hl2, Hl1. apply foldl_ext. intros m [k v]. unfold stored_as.
    unfold backend_view in Hv1. now injection Hv1 as _ _ -> _ _ _. }
  exists s2. unfold bind at 1. rewrite Ec.
  rewrite replaceAll_loop_app. unfold bind at 1. rewrite El.
  destruct rest as [|[k bad] rest]; [auto|].
  cbn [replaceAll_loop]. unfold bind.
  rewrite (Ops.setItem_throws k bad s2 Hr2 Hbad). auto.
Qed.

(** The same for storable values, which read back as they are. *)
Lemma replaceAll_storable data s es (rest : list (string * value)) :
  typeof data = TObject -> data <> VNull ->
  ready s = true -> calm s = true ->
  Forall (fun kv => storable (snd kv) = true) es ->
  Object_entries data = es ++ rest ->
  match rest with
  | [] => True
  | (_, bad) :: _ => JSON.stringify bad = JSON.Throws
  end ->
  exists s',
    replaceAll data s
    = (match rest with
       | [] => Resolved tt
       | _ :: _ => Rejected stringify_error
       end, s')
    /\ ready s' = true /\ calm s' = true
    /\ logical s' = foldl (fun m kv => <[fst kv := Resolved (snd kv)]> m) ∅ es.
Proof.
  intros Ht Hn Hr Hc Hall Hes Hbad.
  destruct (replaceAll_effect data s es rest Ht Hn Hr Hc) as (s1 & E & Hr1 & Hc1 & Hl);
    [|exact Hes|exact Hbad|].
  { eapply Forall_impl; [exact Hall|]. intros kv.
    apply Codec.storable_serializable. }
  exists s1. split; [exact E|]. split; [exact Hr1|]. split; [exact Hc1|].
  rewrite Hl. clear -Hall. generalize (∅ : gmap string (outcome value)).
  induction Hall as [|[k v] es' Hv Hes IH]; intros m; [reflexivity|].
  cbn [foldl fst snd]. cbn [snd] in Hv.
  now rewrite IH, (Codec.stored_as_storable s v Hv).
Qed.

Lemma filter_all {A} (P : A -> Prop) `{forall x, Decision (P x)} (l : list A) :
  (forall x, x ∈ l -> P x) -> filter P l = l.
Proof.
  induction l as [|x l IH]; intros Hall; [reflexivity|].
  rewrite filter_cons_True by (apply Hall; now left).
  rewrite IH; [reflexivity|]. intros y Hy. apply Hall. now right.
Qed.

(** Reading a store that holds exactly the entries [es]. *)
Lemma reads_of_entries s es :
  ready s = true -> calm s = true -> NoDup (fst <$> es) ->
  logical s = foldl (fun m kv => <[fst kv := Resolved (snd kv)]> m) ∅ es ->
  (forall k v, (k, v) ∈ es -> read s k = Resolved v)
  /\ (forall k, k ∉ fst <$> es -> read s k = Resolved VNull)
  /\ stored_keys s ≡ₚ fst <$> es.
Proof.
  intros Hr Hc Hnd Hl. split; [|split].
  - intros k v Hin. rewrite (read_logical s k Hr), Hl.
    now rewrite (lookup_foldl_insert_in Resolved _ _ k v Hnd Hin).
  - intros k Hk. rewrite (read_logical s k Hr), Hl.
    rewrite (lookup_foldl_insert_notin Resolved _ _ k Hk).
    now rewrite lookup_empty.
  - apply NoDup_Permutation; [apply NoDup_stored_keys | exact Hnd |].
    intros k. rewrite (elem_of_stored_keys s k Hr), Hl.
    apply dom_foldl_insert.
Qed.

End Bulk.

(** ** What no operation changes, and how operations fail *)

Module Stays.
Import Effects.

Lemma ready_view s s' : backend_view s' = backend_view s -> ready s' = ready s.
Proof. unfold backend_view, ready. now intros [= _ -> -> -> _ _]. Qed.

Lemma kb_ret {A} (a : A) : keeps_backend (ret a).
Proof. now intros s r s' _ [= _ <-]. Qed.

Lemma kb_throw {A} e : keeps_backend (@throw A e).
Proof. now intros s r s' _ [= _ <-]. Qed.

Lemma kb_this : keeps_backend this.
Proof. now intros s r s' _ [= _ <-]. Qed.

Lemma kb_world : keeps_backend world.
Proof. now intros s r s' _ [= _ <-]. Qed.

Lemma kb_bind {A B} (m : M A) (k : A -> M B) :
  keeps_backend m -> (forall a, keeps_backend (k a)) -> keeps_backend (bind m k).
Proof.
  intros Hm Hk s r s' Hr. unfold bind.
  destruct (m s) as [[a|e] s0] eqn:E.
  - intros E'. pose proof (Hm s _ s0 Hr E) as H0.
    rewrite <- H0. apply (Hk a s0 r s'); [|exact E'].
    now rewrite (ready_view _ _ H0).
  - intros [= _ <-]. exact (Hm s _ s0 Hr E).
Qed.

Lemma kb_update_this f :
  (forall s, backend_view (f (fst s), snd s) = backend_view s) ->
  keeps_backend (update_this f).
Proof. intros Hf s r s' _ [= _ <-]. apply Hf. Qed.

Lemma kb_update_world f :
  (forall s, backend_view (fst s, f (snd s)) = backend_view s) ->
  keeps_backend (update_world f).
Proof. intros Hf s r s' _ [= _ <-]. apply Hf. Qed.

Lemma kb_initialize : keeps_backend _initialize.
Proof. intros s r s' Hr. rewrite (Gate.initialize_ready s Hr). now intros [= _ <-]. Qed.

Create HintDb kb.

#[local] Hint Resolve kb_ret kb_throw kb_this kb_world kb_initialize : kb.

Ltac kb :=
  repeat first
    [ progress eauto with kb
    | apply kb_bind; [|intros ?]
    | apply kb_update_this; intros ?; reflexivity
    | apply kb_update_world; intros ?; reflexivity
    | match goal with
      | |- keeps_backend (match ?x with _ => _ end) => destruct x
      | |- keeps_backend (if ?x then _ else _) => destruct x
      | |- keeps_backend (let _ := _ in _) => cbv zeta
      end ].

Lemma kb_connection : keeps_backend connection.
Proof. unfold connection. kb. Qed.

Lemma kb_request what : keeps_backend (request what).
Proof. unfold request. kb. Qed.

Lemma kb_write_store d f : keeps_backend (write_store d f).
Proof. unfold write_store. kb. Qed.

#[local] Hint Resolve kb_connection kb_request kb_write_store : kb.

Lemma kb_getItem key : keeps_backend (getItem key).
Proof. unfold getItem, getItem_onsuccess. kb. Qed.

Lemma kb_setItem key v : keeps_backend (setItem key v).
Proof. unfold setItem. kb. Qed.

Lemma kb_removeItem key : keeps_backend (removeItem key).
Proof. unfold removeItem. kb. Qed.

#[local] Hint Resolve kb_getItem kb_setItem kb_removeItem : kb.

Lemma kb_run o : keeps_backend (run o).
Proof.
  destruct o; unfold run, nullify, decrement, increment, toggle, keys, values,
    length, has, clear; kb.
Qed.

Lemma kb_mutate key array : keeps_backend (mutate_in_place key array).
Proof. unfold mutate_in_place. kb. Qed.

#[local] Hint Resolve kb_mutate : kb.

Lemma kb_entries_loop ks : forall acc, keeps_backend (entries_loop ks acc).
Proof. induction ks as [|k ks IH]; intros acc; cbn [entries_loop]; kb. Qed.

Lemma kb_replaceAll_loop es : keeps_backend (replaceAll_loop es).
Proof. induction es as [|[k v] es IH]; cbn [replaceAll_loop]; kb. Qed.

#[local] Hint Resolve kb_entries_loop kb_replaceAll_loop kb_run : kb.

Lemma kb_perform c : keeps_backend (perform c).
Proof.
  destruct c; unfold perform, append, prepend, entries, replaceAll, keys, clear; kb.
Qed.

End Stays.

Module Reads.

Lemma wn_ret {A} (a : A) : writes_nothing (ret a).
Proof. now intros s r s' [= _ <-]. Qed.

Lemma wn_throw {A} e : writes_nothing (@throw A e).
Proof. now intros s r s' [= _ <-]. Qed.

Lemma wn_this : writes_nothing this.
Proof. now intros s r s' [= _ <-]. Qed.

Lemma wn_world : writes_nothing world.
Proof. now intros s r s' [= _ <-]. Qed.

Lemma wn_bind {A B} (m : M A) (k : A -> M B) :
  writes_nothing m -> (forall a, writes_nothing (k a)) -> writes_nothing (bind m k).
Proof.
  intros Hm Hk s r s'. unfold bind.
  destruct (m s) as [[a|e] s0] eqn:E.
  - intros E'. destruct (Hm s _ s0 E) as [Hm0 Hs0].
    destruct (Hk a s0 r s' E') as [Hm1 Hs1].
    split; [congruence|]. intros n. now rewrite Hs1.
  - intros [= _ <-]. exact (Hm s _ s0 E).
Qed.

Lemma wn_request what : writes_nothing (request what).
Proof.
  intros [h w] r s'. rewrite Effects.request_spec. now intros [= _ <-].
Qed.

Lemma wn_connection : writes_nothing connection.
Proof.
  intros [h w] r s'. unfold connection, bind, this. cbn [fst snd].
  destruct (db h); now intros [= _ <-].
Qed.

Lemma wn_onsuccess res : writes_nothing (getItem_onsuccess res).
Proof.
  intros s r s'. rewrite (Ops.onsuccess_pure res s s). now intros [= _ <-].
Qed.

(** The gate writes nothing, in whatever state it is entered. *)
Lemma wn_initialize : writes_nothing _initialize.
Proof.
  intros [h w] r s'. unfold _initialize, _initialize_enter. cbn [fst snd].
  assert (forall p h w,
             memoryStore (fst (settle p (h, w))) = memoryStore h
             /\ forall n, store_of n (snd (settle p (h, w))) = store_of n w) as Hsettle.
  { intros p h0 w0. unfold settle. cbn [fst snd].
    destruct (pending_name p w0) as [name|]; [|auto].
    match goal with |- context [_doInitialize_resume ?n (?a, ?b)] =>
      destruct (Gate.resume_spec n a b) as (h' & w' & -> & _ & _ & Hm & _ & Hs & _)
    end. cbn [fst snd]. auto. }
  destruct (isInitialized h); [now intros [= _ <-]|].
  destruct (initPromise h) as [p|].
  - intros [= _ <-]. apply Hsettle.
  - unfold _doInitialize_begin. cbn [set_activations indexedDB_present].
    destruct (negb (indexedDB_present w)); intros [= _ <-];
      match goal with |- context [settle ?p (?a, ?b)] =>
        destruct (Hsettle p a b) as [-> Hs] end;
      split; try reflexivity; intros n; now rewrite Hs.
Qed.

Create HintDb wn.

#[local] Hint Resolve wn_ret wn_throw wn_this wn_world wn_initialize wn_request
  wn_connection wn_onsuccess : wn.

Ltac wn :=
  repeat first
    [ progress eauto with wn
    | apply wn_bind; [|intros ?]
    | match goal with
      | |- writes_nothing (match ?x with _ => _ end) => destruct x
      | |- writes_nothing (if ?x then _ else _) => destruct x
      end ].

Lemma wn_getItem key : writes_nothing (getItem key).
Proof. unfold getItem. wn. Qed.

#[local] Hint Resolve wn_getItem : wn.

Lemma wn_has key : writes_nothing (has key).
Proof. unfold has. wn. Qed.

Lemma wn_keys : writes_nothing keys.
Proof. unfold keys. wn. Qed.

Lemma wn_values : writes_nothing values.
Proof. unfold values. wn. Qed.

Lemma wn_length : writes_nothing length.
Proof. unfold length. wn. Qed.

Lemma wn_entries_loop ks : forall acc, writes_nothing (entries_loop ks acc).
Proof. induction ks as [|k ks IH]; intros acc; cbn [entries_loop]; wn. Qed.

#[local] Hint Resolve wn_keys wn_entries_loop : wn.

Lemma wn_entries : writes_nothing entries.
Proof. unfold entries. wn. Qed.

End Reads.

Module Errors.
Import Effects.

Lemma rx_ret {A} (a : A) : rejects_as_expected (ret a).
Proof. intros s e s' [=]. Qed.

Lemma rx_throw {A} e : expected e -> rejects_as_expected (@throw A e).
Proof. now intros H s e' s' [= <- _]. Qed.

Lemma rx_this : rejects_as_expected this.
Proof. intros s e s' [=]. Qed.

Lemma rx_world : rejects_as_expected world.
Proof. intros s e s' [=]. Qed.

Lemma rx_update_this f : rejects_as_expected (update_this f).
Proof. intros s e s' [=]. Qed.

Lemma rx_update_world f : rejects_as_expected (update_world f).
Proof. intros s e s' [=]. Qed.

Lemma rx_bind {A B} (m : M A) (k : A -> M B) :
  rejects_as_expected m -> (forall a, rejects_as_expected (k a)) ->
  rejects_as_expected (bind m k).
Proof.
  intros Hm Hk s e s'. unfold bind.
  destruct (m s) as [[a|e0] s0] eqn:E.
  - apply Hk.
  - intros [= <- _]. exact (Hm s e0 s0 E).
Qed.

Lemma expected_key : expected key_must_be_string.
Proof. unfold expected. auto. Qed.

Lemma expected_amount : expected amount_must_be_number.
Proof. unfold expected. auto. Qed.

Lemma expected_data : expected data_must_be_object.
Proof. unfold expected. auto. Qed.

Lemma expected_stringify : expected stringify_error.
Proof. unfold expected. auto 10. Qed.

Lemma expected_parse : expected parse_error.
Proof. unfold expected. auto 10. Qed.

Lemma expected_request what : expected (request_error what).
Proof. unfold expected. eauto 10. Qed.

Create HintDb rx.

#[local] Hint Resolve rx_ret rx_this rx_world rx_update_this rx_update_world
  expected_key expected_amount expected_data expected_stringify expected_parse
  expected_request : rx.

Ltac rx :=
  repeat first
    [ progress eauto with rx
    | apply rx_throw
    | apply rx_bind; [|intros ?]
    | match goal with
      | |- rejects_as_expected (match ?x with _ => _ end) => destruct x
      | |- rejects_as_expected (if ?x then _ else _) => destruct x
      end ].

Lemma rx_request what : rejects_as_expected (request what).
Proof. unfold request. rx. Qed.

Lemma rx_write_store d f : rejects_as_expected (write_store d f).
Proof. unfold write_store. rx. Qed.

Lemma rx_onsuccess res : rejects_as_expected (getItem_onsuccess res).
Proof. unfold getItem_onsuccess. rx. Qed.

#[local] Hint Resolve rx_request rx_write_store rx_onsuccess : rx.

#[local] Hint Resolve Invariant.keeps_ret Invariant.keeps_throw Invariant.keeps_this
  Invariant.keeps_world Invariant.keeps_initialize Invariant.keeps_connection
  Invariant.keeps_request Invariant.keeps_write_store Invariant.keeps_getItem
  Invariant.keeps_setItem Invariant.keeps_removeItem : keeps.

Lemma passed_wf s s0 : wf s = true -> passed s s0 -> wf s0 = true.
Proof. intros Hwf (Hi & _). exact (Invariant.keeps_initialize s _ s0 Hwf Hi). Qed.

Lemma safe_ret {A} (a : A) : safe (ret a).
Proof. intros s r s' Hwf [= <- <-]. split; [exact Hwf | discriminate]. Qed.

Lemma safe_throw {A} e : expected e -> safe (@throw A e).
Proof. intros He s r s' Hwf [= <- <-]. split; [exact Hwf | now intros e' [= <-]]. Qed.

Lemma safe_bind {A B} (m : M A) (k : A -> M B) :
  safe m -> (forall a, safe (k a)) -> safe (bind m k).
Proof.
  intros Hm Hk s r s' Hwf. unfold bind.
  destruct (m s) as [[a|e] s0] eqn:E.
  - destruct (Hm s _ s0 Hwf E) as [Hwf0 _]. apply Hk, Hwf0.
  - intros [= <- <-]. destruct (Hm s _ s0 Hwf E) as [Hwf0 He].
    split; [exact Hwf0|]. intros e' [= <-]. now apply He.
Qed.

Lemma safe_body {A} (m : M A) : rejects_as_expected m -> keeps_wf m -> safe m.
Proof.
  intros Hx Hk s r s' Hwf E. split; [exact (Hk s r s' Hwf E)|].
  intros e ->. exact (Hx s e s' E).
Qed.

(** A gated operation is safe when its two bodies are: behind the gate
    the persistent body finds its connection. *)
Lemma safe_dispatch {A} (mem : Helper -> M A) pers :
  (forall h, rejects_as_expected (mem h)) -> (forall h, keeps_wf (mem h)) ->
  (forall d, rejects_as_expected (pers d)) -> (forall d, keeps_wf (pers d)) ->
  safe (dispatch mem pers).
Proof.
  intros Hxm Hkm Hxp Hkp s r s' Hwf E.
  destruct (wf_passed s Hwf) as (s0 & Hp).
  pose proof (passed_wf s s0 Hwf Hp) as Hwf0.
  pose proof (passed_ready s s0 Hp) as Hr.
  rewrite (passed_dispatch mem pers s s0 Hp), (dispatch_ready mem pers s0 Hr) in E.
  destruct (ready_backend s0 Hr) as [_ [Hfb|[Hfb [d Hd]]]]; rewrite Hfb, ?Hd in E.
  - exact (safe_body _ (Hxm _) (Hkm _) s0 r s' Hwf0 E).
  - exact (safe_body _ (Hxp _) (Hkp _) s0 r s' Hwf0 E).
Qed.

Ltac bodies :=
  apply safe_dispatch; intros ?;
    [ rx | Invariant.keeps | rx | Invariant.keeps ].

Lemma safe_getItem key : safe (getItem key).
Proof.
  destruct key; try (apply safe_throw, expected_key).
  rewrite getItem_dispatch. unfold getItem_onsuccess. bodies.
Qed.

Lemma safe_setItem key v : safe (setItem key v).
Proof.
  destruct key; try (apply safe_throw, expected_key).
  rewrite setItem_dispatch. bodies.
Qed.

Lemma safe_removeItem key : safe (removeItem key).
Proof.
  destruct key; try (apply safe_throw, expected_key).
  rewrite removeItem_dispatch. bodies.
Qed.

Lemma safe_keys : safe keys.
Proof. rewrite keys_dispatch. bodies. Qed.

Lemma safe_values : safe values.
Proof. rewrite values_dispatch. bodies. Qed.

Lemma safe_length : safe length.
Proof. rewrite length_dispatch. bodies. Qed.

Lemma safe_clear : safe clear.
Proof. rewrite clear_dispatch. bodies. Qed.

Create HintDb safe.

#[local] Hint Resolve safe_ret safe_getItem safe_setItem safe_removeItem safe_keys
  safe_values safe_length safe_clear expected_key expected_amount expected_data
  : safe.

Ltac safely :=
  repeat first
    [ progress eauto with safe
    | apply safe_throw
    | apply safe_bind; [|intros ?]
    | match goal with
      | |- safe (match ?x with _ => _ end) => destruct x
      | |- safe (if ?x then _ else _) => destruct x
      end ].

Lemma safe_run o : safe (run o).
Proof.
  destruct o; unfold run, nullify, decrement, increment, toggle, has; cbv zeta;
    safely.
Qed.

Lemma safe_mutate key array : safe (mutate_in_place key array).
Proof.
  apply safe_body; unfold mutate_in_place; [rx | Invariant.keeps].
Qed.

#[local] Hint Resolve safe_mutate safe_run : safe.

Lemma safe_entries_loop ks : forall acc, safe (entries_loop ks acc).
Proof. induction ks as [|k ks IH]; intros acc; cbn [entries_loop]; safely. Qed.

Lemma safe_replaceAll_loop es : safe (replaceAll_loop es).
Proof. induction es as [|[k v] es IH]; cbn [replaceAll_loop]; safely. Qed.

#[local] Hint Resolve safe_entries_loop safe_replaceAll_loop : safe.

Lemma safe_perform c : safe (perform c).
Proof.
  destruct c; unfold perform, append, prepend, entries, replaceAll; cbv zeta; safely.
Qed.

End Errors.

(** ** Reconfiguration and the two backends *)

Module Namespace.
Import Effects.

Lemma after_configure {A} name (op : M A) s :
  (configure (VStr name) ;; op) s = op (snd (configure (VStr name) s)).
Proof. unfold bind. now rewrite Reconfigure.configure_spec. Qed.

(** The first passage of the gate after [configure]. *)
Lemma configured_gate name s :
  fresh_promises (snd s) = true ->
  exists s1,
    passed (snd (configure (VStr name) s)) s1
    /\ fresh_promises (snd s1) = true
    /\ memoryStore (fst s1) = ∅
    /\ indexedDB_present (snd s1) = indexedDB_present (snd s)
    /\ (opens_succeed s = true ->
        useMemoryFallback (fst s1) = false /\ db (fst s1) = Some name
        /\ opens_succeed s1 = true)
    /\ (indexedDB_present (snd s) = false -> useMemoryFallback (fst s1) = true).
Proof.
  intros Hfresh. rewrite Reconfigure.configure_spec. cbn [snd].
  destruct s as [h [idb dbs ofs rfs pend act cl]].
  unfold fresh_promises, opens_succeed, closed_after in *. cbn [fst snd] in *.
  cbn [pending_opens activations indexedDB_present open_faults] in *.
  unfold passed, _initialize, _initialize_enter. cbn [fst snd isInitialized initPromise].
  unfold _doInitialize_begin, set_closed_connections.
  cbn [indexedDB_present set_activations activations pending_opens databases
       open_faults request_faults closed_connections].
  destruct idb; cbn [negb].
  - unfold settle, pending_name.
    cbn [fst snd pending_opens set_pending_opens set_activations activations
         indexedDB_present databases open_faults request_faults closed_connections].
    rewrite Gate.find_fresh by exact Hfresh.
    cbn [fmap option_fmap option_map snd].
    unfold _doInitialize_resume, _openDatabase_end.
    cbn [open_faults set_pending_opens set_activations config_dbName].
    pose proof (Gate.fresh_after _ _ name Hfresh) as Hf.
    destruct ofs as [|[] rest]; eexists;
      (split; [split; [reflexivity|]|]);
      unfold ready, calm, fresh_promises, store_of; cbn;
      repeat split; auto; try discriminate; intros n;
      try (destruct (decide (name = n)) as [->|Hne];
           [now rewrite lookup_insert_eq | now rewrite lookup_insert_ne]).
  - unfold settle, pending_name.
    cbn [fst snd pending_opens set_activations activations].
    rewrite Gate.find_settled by exact Hfresh.
    eexists. split; [split; [reflexivity|]|];
      unfold ready, calm, fresh_promises; cbn;
      repeat split; auto; try discriminate.
    exact (Gate.fresh_later _ _ Hfresh).
Qed.

End Namespace.

(** ** Arguments, the backend and failures *)

(** X1.  A key that is not a string is rejected with ['Key must be a
    string'] by every operation that takes a key, before the gate: the
    helper and its environment are as they were, and no initialisation
    has been started. *)
Theorem key_must_be_a_string (key : value) (s : state) :
  typeof key <> TString ->
  getItem key s = (Rejected key_must_be_string, s)
  /\ (forall v, setItem key v s = (Rejected key_must_be_string, s))
  /\ removeItem key s = (Rejected key_must_be_string, s)
  /\ nullify key s = (Rejected key_must_be_string, s)
  /\ has key s = (Rejected key_must_be_string, s)
  /\ toggle key s = (Rejected key_must_be_string, s)
  /\ (forall a, increment key (number_value a) s = (Rejected key_must_be_string, s))
  /\ (forall a, decrement key a s = (Rejected key_must_be_string, s))
  /\ (forall v, append key v s = (Rejected key_must_be_string, s))
  /\ (forall v, prepend key v s = (Rejected key_must_be_string, s)).
Proof.
  intros Ht. destruct key; try (now contradiction Ht); repeat split;
    intros a; try (destruct a as [[?|[]]|]); try (destruct a as [?|?]);
    reflexivity.
Qed.

Lemma key_must_be_a_string_witness :
  getItem (VNum 42) in_browser = (Rejected key_must_be_string, in_browser)
  /\ toggle VNull in_browser = (Rejected key_must_be_string, in_browser)
  /\ append (VArr []) (VNum 1) in_browser
     = (Rejected key_must_be_string, in_browser).
Proof.
  split; [|split].
  - apply (key_must_be_a_string (VNum 42) in_browser). discriminate.
  - apply (key_must_be_a_string VNull in_browser). discriminate.
  - apply (key_must_be_a_string (VArr []) in_browser). discriminate.
Defined.

(** X2.  The first passage of the gate in an epoch selects the backend:
    the volatile one exactly when [window.indexedDB] is missing or the
    open request fails, otherwise a connection to the configured
    database, which now exists.  Opening changes no stored data.  Until
    then [isUsingMemoryFallback()] is [false] whatever the environment;
    from then on it tells the backend. *)
Theorem first_passage_selects_backend (s : state) :
  epoch_start s = true -> fresh_promises (snd s) = true ->
  isUsingMemoryFallback s = false ->
  exists s1,
    _initialize s = (Resolved tt, s1)
    /\ isInitialized (fst s1) = true
    /\ isUsingMemoryFallback s1 = open_unavailable (snd s)
    /\ (open_unavailable (snd s) = false ->
        db (fst s1) = Some (config_dbName (fst s))
        /\ is_Some (databases (snd s1) !! config_dbName (fst s)))
    /\ memoryStore (fst s1) = memoryStore (fst s)
    /\ (forall n, store_of n (snd s1) = store_of n (snd s)).
Proof.
  destruct s as [[name d fb ms i p] [idb dbs ofs rfs pend act cl]].
  unfold epoch_start, fresh_promises, isUsingMemoryFallback, open_unavailable.
  cbn [fst snd isInitialized initPromise useMemoryFallback pending_opens
       activations indexedDB_present open_faults config_dbName memoryStore].
  intros Hs Hfresh ->. apply andb_true_iff in Hs as [Hi Hp].
  apply negb_true_iff in Hi. apply bool_decide_eq_true in Hp. subst i p.
  unfold _initialize, _initialize_enter. cbn [fst snd isInitialized initPromise].
  unfold _doInitialize_begin.
  cbn [indexedDB_present set_activations activations pending_opens].
  destruct idb; cbn [negb orb].
  - unfold settle, pending_name.
    cbn [fst snd pending_opens set_pending_opens set_activations activations].
    rewrite Gate.find_fresh by exact Hfresh.
    cbn [fmap option_fmap option_map snd].
    unfold _doInitialize_resume, _openDatabase_end.
    cbn [open_faults set_pending_opens set_activations config_dbName].
    destruct ofs as [|[] rest]; eexists; (split; [reflexivity|]);
      unfold store_of; cbn; repeat split; auto; try discriminate;
      try (now rewrite lookup_insert_eq);
      intros n; destruct (decide (name = n)) as [->|Hne];
      try (now rewrite lookup_insert_eq); now rewrite lookup_insert_ne.
  - unfold settle, pending_name.
    cbn [fst snd pending_opens set_activations activations].
    rewrite Gate.find_settled by exact Hfresh.
    eexists. split; [reflexivity|]. cbn. repeat split; auto; discriminate.
Qed.

Lemma first_passage_selects_backend_witness :
  (exists s1,
      _initialize in_browser = (Resolved tt, s1)
      /\ isUsingMemoryFallback s1 = false /\ db (fst s1) = Some "app-db")
  /\ (exists s1,
         _initialize open_fails = (Resolved tt, s1)
         /\ isUsingMemoryFallback s1 = true).
Proof.
  split.
  - destruct (first_passage_selects_backend in_browser eq_refl eq_refl eq_refl)
      as (s1 & E & _ & Hfb & Hdb & _).
    exists s1. split; [exact E|]. split; [exact Hfb|]. now apply Hdb.
  - destruct (first_passage_selects_backend open_fails eq_refl eq_refl eq_refl)
      as (s1 & E & _ & Hfb & _).
    exists s1. split; [exact E | exact Hfb].
Defined.

(** X3.  Once the helper is ready, no method changes the backend: after
    any call, with any arguments and whether it resolves or rejects, the
    configuration, the connection, the fallback flag and the gate are as
    before, and no open request has been issued.  A failed store request
    does not make the helper fall back. *)
Theorem backend_stays (s : state) (c : call) (r : outcome value) (s' : state) :
  ready s = true -> perform c s = (r, s') ->
  ready s' = true
  /\ backend_view s' = backend_view s
  /\ isUsingMemoryFallback s' = isUsingMemoryFallback s
  /\ db (fst s') = db (fst s).
Proof.
  intros Hr E. pose proof (Stays.kb_perform c s r s' Hr E) as Hv.
  split; [now rewrite (Stays.ready_view _ _ Hv)|]. split; [exact Hv|].
  unfold backend_view, isUsingMemoryFallback in *.
  now injection Hv as _ -> -> _ _ _.
Qed.

Lemma backend_stays_witness :
  let s := (fst (snd (setItem (VStr "a") (VNum 1) in_browser)),
            set_request_faults [true]
              (snd (snd (setItem (VStr "a") (VNum 1) in_browser)))) in
  fst (perform (Data (OpGetItem (VStr "a"))) s)
  = Rejected (request_error "Get request failed")
  /\ isUsingMemoryFallback (snd (perform (Data (OpGetItem (VStr "a"))) s)) = false
  /\ db (fst (snd (perform (Data (OpGetItem (VStr "a"))) s))) = Some "app-db".
Proof.
  cbv zeta.
  set (s := (fst (snd (setItem (VStr "a") (VNum 1) in_browser)),
             set_request_faults [true]
               (snd (snd (setItem (VStr "a") (VNum 1) in_browser))))).
  destruct (backend_stays s (Data (OpGetItem (VStr "a")))
              (fst (perform (Data (OpGetItem (VStr "a"))) s))
              (snd (perform (Data (OpGetItem (VStr "a"))) s)) eq_refl)
    as (_ & _ & Hfb & Hdb).
  - now destruct (perform (Data (OpGetItem (VStr "a"))) s).
  - split; [reflexivity|]. split; [rewrite Hfb | rewrite Hdb]; reflexivity.
Defined.

(** X4.  On the persistent backend a store request that ends with an
    error event makes the operation reject with [TRANSACTION_FAILURE]
    and the message of that request; nothing is written and the helper
    stays as it is. *)
Theorem request_failure_rejects (s : state) (k : string) (v : value)
    (rest : list bool) :
  ready s = true -> isUsingMemoryFallback s = false ->
  request_faults (snd s) = true :: rest -> serializable v = true ->
  let s' := (fst s, set_request_faults rest (snd s)) in
  getItem (VStr k) s = (Rejected (request_error "Get request failed"), s')
  /\ setItem (VStr k) v s = (Rejected (request_error "Transaction failed"), s')
  /\ removeItem (VStr k) s = (Rejected (request_error "Transaction failed"), s')
  /\ keys s = (Rejected (request_error "Keys request failed"), s')
  /\ values s = (Rejected (request_error "Values request failed"), s')
  /\ length s = (Rejected (request_error "Count request failed"), s')
  /\ clear s = (Rejected (request_error "Clear failed"), s')
  /\ (forall what, code (request_error what) = Some TRANSACTION_FAILURE)
  /\ databases (snd s') = databases (snd s).
Proof.
  intros Hr Hfb Hf Hv. cbv zeta.
  destruct (Effects.ready_backend s Hr) as [_ [Hfb'|[_ [d Hd]]]];
    [unfold isUsingMemoryFallback in Hfb; congruence|].
  unfold isUsingMemoryFallback in Hfb.
  rewrite Effects.getItem_dispatch, Effects.setItem_dispatch,
    Effects.removeItem_dispatch, Effects.keys_dispatch, Effects.values_dispatch,
    Effects.length_dispatch, Effects.clear_dispatch.
  rewrite !(Effects.dispatch_ready _ _ s Hr), Hfb, Hd.
  destruct s as [h w]. cbn [fst snd] in *.
  assert (forall A what (K : M A),
             (request what ;; K) (h, w)
             = (Rejected (request_error what), (h, set_request_faults rest w)))
    as Hreq.
  { intros A what K. unfold bind. rewrite Effects.request_spec, Hf. reflexivity. }
  rewrite !Hreq. repeat split; auto.
  unfold serializable in Hv.
  destruct v; try apply Hreq; destruct (JSON.stringify _) eqn:E;
    try discriminate Hv; apply Hreq.
Qed.

Lemma request_failure_rejects_witness :
  let s := (fst (snd (setItem (VStr "a") (VNum 1) in_browser)),
            set_request_faults [true]
              (snd (snd (setItem (VStr "a") (VNum 1) in_browser)))) in
  fst (setItem (VStr "a") (VNum 2) s)
  = Rejected (request_error "Transaction failed")
  /\ fst (getItem (VStr "a") (snd (setItem (VStr "a") (VNum 2) s)))
     = Resolved (VNum 1).
Proof.
  cbv zeta.
  set (s := (fst (snd (setItem (VStr "a") (VNum 1) in_browser)),
             set_request_faults [true]
               (snd (snd (setItem (VStr "a") (VNum 1) in_browser))))).
  destruct (request_failure_rejects s "a" (VNum 2) [] eq_refl eq_refl eq_refl eq_refl)
    as (_ & E & _).
  rewrite E. split; reflexivity.
Defined.

(** X5.  From any state the helper can be in, an awaited method ends in
    such a state, and when it rejects, the error is one of: a violated
    argument type, the stringify or the parse error (both with code
    [JSON_PARSE_ERROR]), or a failed request ([TRANSACTION_FAILURE]).
    It is never [OPEN_FAILURE] or [NOT_SUPPORTED], and never the
    [TypeError] of a missing connection. *)
Theorem rejections_are_expected (s : state) (c : call) (r : outcome value)
    (s' : state) :
  wf s = true -> perform c s = (r, s') ->
  wf s' = true
  /\ forall e,
       r = Rejected e ->
       expected e
       /\ e <> null_db_error
       /\ code e <> Some OPEN_FAILURE
       /\ code e <> Some NOT_SUPPORTED.
Proof.
  intros Hwf E. destruct (Errors.safe_perform c s r s' Hwf E) as [Hwf' He].
  split; [exact Hwf'|]. intros e Hr. specialize (He e Hr). split; [exact He|].
  destruct He as [->|[->|[->|[->|[->|[what ->]]]]]]; repeat split; discriminate.
Qed.

Lemma rejections_are_expected_witness :
  wf (snd (perform (ReplaceAll (VObj [("a", VCyclic)])) in_browser)) = true
  /\ expected stringify_error.
Proof.
  destruct (rejections_are_expected in_browser (ReplaceAll (VObj [("a", VCyclic)]))
              (Rejected stringify_error)
              (snd (perform (ReplaceAll (VObj [("a", VCyclic)])) in_browser))
              eq_refl eq_refl) as [Hwf He].
  split; [exact Hwf|]. exact (proj1 (He stringify_error eq_refl)).
Defined.

(** X6.  Reading writes nothing: [getItem], [has], [keys], [values],
    [length] and [entries], in whatever state they are called and
    whether they resolve or reject, leave the memory mapping and every
    object store as they were (passing the gate included). *)
Theorem reads_write_nothing :
  (forall key, writes_nothing (getItem key))
  /\ (forall key, writes_nothing (has key))
  /\ writes_nothing keys
  /\ writes_nothing values
  /\ writes_nothing length
  /\ writes_nothing entries.
Proof.
  split; [exact Reads.wn_getItem|]. split; [exact Reads.wn_has|].
  split; [exact Reads.wn_keys|]. split; [exact Reads.wn_values|].
  split; [exact Reads.wn_length | exact Reads.wn_entries].
Qed.

(** ** Writes and what they leave alone *)

(** X7.  [setItem(k, v)], for any [v] that [JSON.stringify] accepts, and
    [removeItem(k)] leave every other key as it was: [getItem(k')] gives
    afterwards what it gave before, a rejection included. *)
Theorem other_keys_untouched (s : state) (k k' : string) (v : value) :
  wf s = true -> calm s = true -> serializable v = true -> k' <> k ->
  fst (getItem (VStr k') (snd (setItem (VStr k) v s))) = fst (getItem (VStr k') s)
  /\ fst (getItem (VStr k') (snd (removeItem (VStr k) s)))
     = fst (getItem (VStr k') s).
Proof.
  intros Hwf Hc Hv Hne.
  destruct (Effects.wf_passed s Hwf) as (s0 & Hp).
  pose proof (Effects.passed_ready s s0 Hp) as Hr.
  pose proof (Effects.passed_calm s s0 Hp Hc) as Hc0.
  rewrite (Effects.getItem_passed k' s s0 Hp), (Effects.setItem_passed k v s s0 Hp),
    (Effects.removeItem_passed k s s0 Hp).
  rewrite (Effects.get_after s0 k' Hr Hc0), (Effects.read_logical s0 k' Hr).
  split.
  - destruct (Effects.setItem_effect s0 k v Hr Hc0 Hv) as (s1 & -> & Hu).
    cbn [snd]. pose proof Hu as (Hr1 & Hc1 & _).
    rewrite (Effects.get_after s1 k' Hr1 Hc1), (Effects.updated_read _ _ _ k' Hu).
    now rewrite lookup_insert_ne by congruence.
  - destruct (Effects.removeItem_effect s0 k Hr Hc0) as (s1 & -> & Hu).
    cbn [snd]. pose proof Hu as (Hr1 & Hc1 & _).
    rewrite (Effects.get_after s1 k' Hr1 Hc1), (Effects.updated_read _ _ _ k' Hu).
    now rewrite lookup_delete_ne by congruence.
Qed.

Lemma other_keys_untouched_witness :
  fst (getItem (VStr "b")
         (snd (setItem (VStr "a") (VArr [VUndefined])
                 (snd (setItem (VStr "b") (VNum 2) in_browser)))))
  = Resolved (VNum 2).
Proof.
  pose proof (other_keys_untouched
                (snd (setItem (VStr "b") (VNum 2) in_browser)) "a" "b"
                (VArr [VUndefined]) eq_refl eq_refl eq_refl) as [H _];
    [discriminate|].
  rewrite H. reflexivity.
Defined.

(** ** Enumeration *)

(** X8.  [keys()] lists every stored key once; [values()] and
    [length()] count as many entries as [keys()] lists; a key that
    [keys()] does not list reads as [null]. *)
Theorem enumeration_agrees (s : state) :
  wf s = true -> calm s = true ->
  exists ks vs s1 s2 s3,
    keys s = (Resolved ks, s1)
    /\ values s1 = (Resolved vs, s2)
    /\ length s2 = (Resolved (List.length ks), s3)
    /\ List.length vs = List.length ks
    /\ NoDup ks
    /\ (forall k, k ∉ ks -> fst (getItem (VStr k) s3) = Resolved VNull).
Proof.
  intros Hwf Hc.
  destruct (Effects.wf_passed s Hwf) as (s0 & Hp).
  pose proof (Effects.passed_ready s s0 Hp) as Hr.
  pose proof (Effects.passed_calm s s0 Hp Hc) as Hc0.
  rewrite (Effects.keys_passed s s0 Hp).
  destruct (Effects.keys_effect s0 Hr Hc0) as (s1 & -> & Hd1 & Hc1).
  pose proof (Effects.same_data_ready _ _ Hd1 Hr) as Hr1.
  destruct (Ops.values_ready s1 Hr1 Hc1)
    as (s2 & Ev & Hr2 & Hc2 & Hk2 & Hread2 & _ & _).
  destruct (Effects.length_effect s2 Hr2 Hc2) as (s3 & El & Hd3 & Hc3).
  pose proof (Effects.same_data_ready _ _ Hd3 Hr2) as Hr3.
  destruct (Effects.same_data_spec _ _ Hd1) as (_ & Hk1 & _).
  destruct (Effects.same_data_spec _ _ Hd3) as (Hl3 & Hk3 & _).
  exists (stored_keys s0), (value_of_key s1 <$> stored_keys s1), s1, s2, s3.
  split; [reflexivity|]. split; [exact Ev|].
  split; [rewrite El; congruence|].
  split; [rewrite length_fmap; congruence|].
  split; [apply Effects.NoDup_stored_keys|].
  intros k Hk. rewrite (Effects.get_after s3 k Hr3 Hc3), (Effects.read_logical s3 k Hr3).
  rewrite <- Hk1, <- Hk2, <- Hk3 in Hk.
  destruct (logical s3 !! k) as [r|] eqn:E; [|reflexivity].
  exfalso. apply Hk. apply (Effects.elem_of_stored_keys s3 k Hr3). eauto.
Qed.

Lemma enumeration_agrees_witness :
  exists ks vs s1 s2 s3,
    keys (snd (run_all [OpSetItem (VStr "a") VNull; OpSetItem (VStr "b") VUndefined]
                 in_browser))
    = (Resolved ks, s1)
    /\ values s1 = (Resolved vs, s2)
    /\ length s2 = (Resolved (List.length ks), s3)
    /\ List.length vs = List.length ks
    /\ NoDup ks
    /\ (forall k, k ∉ ks -> fst (getItem (VStr k) s3) = Resolved VNull).
Proof.
  apply (enumeration_agrees
           (snd (run_all [OpSetItem (VStr "a") VNull; OpSetItem (VStr "b") VUndefined]
                   in_browser))); reflexivity.
Defined.

(** X9.  [length()] counts the stored keys: [setItem(k, v)] adds one
    when [k] was not stored and none when it was; [removeItem(k)] takes
    one away when [k] was stored and none when it was not. *)
Theorem length_after_write (s : state) (k : string) (v : value) :
  wf s = true -> calm s = true -> serializable v = true ->
  exists n ks s1 s2,
    length s = (Resolved n, s1)
    /\ keys s1 = (Resolved ks, s2)
    /\ fst (length (snd (setItem (VStr k) v s2)))
       = Resolved (if bool_decide (k ∈ ks) then n else S n)
    /\ fst (length (snd (removeItem (VStr k) s2)))
       = Resolved (if bool_decide (k ∈ ks) then Nat.pred n else n).
Proof.
  intros Hwf Hc Hv.
  destruct (Effects.wf_passed s Hwf) as (s0 & Hp).
  pose proof (Effects.passed_ready s s0 Hp) as Hr.
  pose proof (Effects.passed_calm s s0 Hp Hc) as Hc0.
  rewrite (Effects.length_passed s s0 Hp).
  destruct (Effects.length_effect s0 Hr Hc0) as (s1 & -> & Hd1 & Hc1).
  pose proof (Effects.same_data_ready _ _ Hd1 Hr) as Hr1.
  destruct (Effects.keys_effect s1 Hr1 Hc1) as (s2 & Ek & Hd2 & Hc2).
  pose proof (Effects.same_data_ready _ _ Hd2 Hr1) as Hr2.
  destruct (Effects.same_data_spec _ _ Hd1) as (Hl1 & Hk1 & _).
  destruct (Effects.same_data_spec _ _ Hd2) as (Hl2 & Hk2 & _).
  exists (List.length (stored_keys s0)), (stored_keys s1), s1, s2.
  split; [reflexivity|]. split; [exact Ek|].
  assert (List.length (stored_keys s0) = size (logical s2)) as ->
    by (rewrite <- Hk1, <- Hk2; now apply Effects.length_stored_keys).
  assert (k ∈ stored_keys s1 <-> is_Some (logical s2 !! k)) as Hin
    by (rewrite <- Hk2; now apply Effects.elem_of_stored_keys).
  split.
  - destruct (Effects.setItem_effect s2 k v Hr2 Hc2 Hv) as (s3 & -> & Hu).
    cbn [snd]. pose proof Hu as (Hr3 & Hc3 & _).
    destruct (Effects.length_effect s3 Hr3 Hc3) as (s4 & -> & _). cbn [fst].
    rewrite (Effects.updated_length _ _ _ Hu). f_equal.
    destruct (logical s2 !! k) as [r|] eqn:E.
    + rewrite bool_decide_eq_true_2 by (apply Hin; eauto).
      now rewrite map_size_insert_Some by (rewrite E; eauto).
    + rewrite bool_decide_eq_false_2
        by (intros [r H]%Hin; congruence).
      now rewrite map_size_insert_None by exact E.
  - destruct (Effects.removeItem_effect s2 k Hr2 Hc2) as (s3 & -> & Hu).
    cbn [snd]. pose proof Hu as (Hr3 & Hc3 & _).
    destruct (Effects.length_effect s3 Hr3 Hc3) as (s4 & -> & _). cbn [fst].
    rewrite (Effects.updated_length _ _ _ Hu). f_equal.
    destruct (logical s2 !! k) as [r|] eqn:E.
    + rewrite bool_decide_eq_true_2 by (apply Hin; eauto).
      now rewrite map_size_delete_Some by (rewrite E; eauto).
    + rewrite bool_decide_eq_false_2
        by (intros [r H]%Hin; congruence).
      now rewrite map_size_delete_None by exact E.
Qed.

Lemma length_after_write_witness :
  exists n ks s1 s2,
    length (snd (setItem (VStr "a") (VNum 1) without_indexedDB)) = (Resolved n, s1)
    /\ keys s1 = (Resolved ks, s2)
    /\ fst (length (snd (setItem (VStr "b") VNull s2)))
       = Resolved (if bool_decide ("b" ∈ ks) then n else S n)
    /\ fst (length (snd (removeItem (VStr "b") s2)))
       = Resolved (if bool_decide ("b" ∈ ks) then Nat.pred n else n).
Proof.
  apply (length_after_write
           (snd (setItem (VStr "a") (VNum 1) without_indexedDB)) "b" VNull);
    reflexivity.
Defined.

(** X10.  [clear()] leaves nothing in the active backend: [keys()] and
    [values()] give the empty list, [length()] gives 0 and every key
    reads as [null].  The object stores of the databases the helper is
    not connected to keep their data; on the volatile backend that is
    every database. *)
Theorem clear_removes_everything (s : state) :
  wf s = true -> calm s = true ->
  exists s1,
    clear s = (Resolved tt, s1)
    /\ fst (keys s1) = Resolved []
    /\ fst (values s1) = Resolved []
    /\ fst (length s1) = Resolved 0%nat
    /\ (forall k, fst (getItem (VStr k) s1) = Resolved VNull)
    /\ (forall n,
           isUsingMemoryFallback s1 = true \/ db (fst s1) <> Some n ->
           store_of n (snd s1) = store_of n (snd s)).
Proof.
  intros Hwf Hc.
  destruct (Effects.wf_passed s Hwf) as (s0 & Hp).
  pose proof (Effects.passed_ready s s0 Hp) as Hr.
  pose proof (Effects.passed_calm s s0 Hp Hc) as Hc0.
  rewrite (Effects.clear_passed s s0 Hp).
  destruct (Effects.clear_effect s0 Hr Hc0) as (s1 & -> & Hu).
  pose proof Hu as (Hr1 & Hc1 & Hl & Hview & Hframe).
  assert (stored_keys s1 = []) as Hk.
  { rewrite (Effects.stored_keys_logical s1 Hr1), Hl.
    now rewrite map_to_list_empty. }
  exists s1. split; [reflexivity|].
  destruct (Effects.keys_effect s1 Hr1 Hc1) as (s2 & -> & _).
  destruct (Ops.values_ready s1 Hr1 Hc1) as (s3 & -> & _).
  destruct (Effects.length_effect s1 Hr1 Hc1) as (s4 & -> & _).
  rewrite Hk. repeat split.
  - intros k. rewrite (Effects.get_after s1 k Hr1 Hc1), (Effects.updated_read _ _ _ k Hu).
    now rewrite lookup_empty.
  - intros n Hn. destruct Hp as (_ & _ & _ & _ & Hs). rewrite <- Hs.
    apply Hframe. unfold backend_view, isUsingMemoryFallback in *.
    injection Hview as _ Hdb Hfb _ _ _. rewrite <- Hdb, <- Hfb. exact Hn.
Qed.

Lemma clear_removes_everything_witness :
  exists s1,
    clear (snd (setItem (VStr "a") (VNum 1) in_browser)) = (Resolved tt, s1)
    /\ fst (keys s1) = Resolved []
    /\ fst (values s1) = Resolved []
    /\ fst (length s1) = Resolved 0%nat
    /\ (forall k, fst (getItem (VStr k) s1) = Resolved VNull)
    /\ (forall n,
           isUsingMemoryFallback s1 = true \/ db (fst s1) <> Some n ->
           store_of n (snd s1)
           = store_of n (snd (snd (setItem (VStr "a") (VNum 1) in_browser)))).
Proof.
  apply (clear_removes_everything (snd (setItem (VStr "a") (VNum 1) in_browser)));
    reflexivity.
Defined.

(** ** Presence and flags *)

(** X11.  [has(k)] resolves with [true] exactly when [getItem(k)]
    resolves with something other than [null], and rejects as
    [getItem(k)] does.  So after [setItem(k, v)] it is [true] for every
    storable [v] but [null] ([undefined], [false], [0] and the empty
    string included), and it is [false] for a key never set. *)
Theorem has_is_not_null (s : state) (k : string) :
  wf s = true -> calm s = true ->
  fst (has (VStr k) s)
  = match fst (getItem (VStr k) s) with
    | Resolved v => Resolved (not_null v)
    | Rejected e => Rejected e
    end
  /\ (forall v,
         storable v = true ->
         fst (has (VStr k) (snd (setItem (VStr k) v s))) = Resolved (not_null v))
  /\ (never_set k s = true -> fst (has (VStr k) s) = Resolved false).
Proof.
  intros Hwf Hc.
  destruct (Effects.wf_passed s Hwf) as (s0 & Hp).
  pose proof (Effects.passed_ready s s0 Hp) as Hr.
  pose proof (Effects.passed_calm s s0 Hp Hc) as Hc0.
  rewrite (Effects.has_passed k s s0 Hp), (Effects.getItem_passed k s s0 Hp).
  destruct (Ops.has_ready s0 k Hr Hc0) as (s1 & Eh & _).
  rewrite Eh, (Effects.get_after s0 k Hr Hc0). cbn [fst].
  split; [reflexivity|]. split.
  - intros v Hv. rewrite (Effects.setItem_passed k v s s0 Hp).
    destruct (Effects.setItem_effect s0 k v Hr Hc0
                (Codec.storable_serializable v Hv)) as (s2 & -> & Hu).
    cbn [snd]. pose proof Hu as (Hr2 & Hc2 & _).
    destruct (Ops.has_ready s2 k Hr2 Hc2) as (s3 & -> & _). cbn [fst].
    rewrite (Effects.updated_read _ _ _ k Hu), lookup_insert_eq. cbn [default].
    now rewrite (Codec.stored_as_storable s0 v Hv).
  - intros Hn. now rewrite (Ops.read_never_set s s0 k Hp Hn).
Qed.

Lemma has_is_not_null_witness :
  fst (has (VStr "k") in_browser) = Resolved false
  /\ fst (has (VStr "k") (snd (setItem (VStr "k") VUndefined in_browser)))
     = Resolved true
  /\ fst (has (VStr "k") (snd (setItem (VStr "k") (VBool false) in_browser)))
     = Resolved true.
Proof.
  destruct (has_is_not_null in_browser "k" eq_refl eq_refl) as (_ & Hset & Hnew).
  split; [exact (Hnew eq_refl)|].
  split; [exact (Hset VUndefined eq_refl) | exact (Hset (VBool false) eq_refl)].
Defined.

(** X12.  [toggle(k)] stores and resolves with [!current], the current
    value being what [getItem(k)] gives ([null] for a missing key, so
    the first toggle gives [true]); and it rejects as [getItem(k)] does.
    A second [toggle(k)] gives the truthiness of the value the first
    one found, not that value. *)
Theorem toggle_negates (s : state) (k : string) :
  wf s = true -> calm s = true ->
  match fst (getItem (VStr k) s) with
  | Resolved cur =>
      exists s1 s2 s3,
        toggle (VStr k) s = (Resolved (VBool (logical_not cur)), s1)
        /\ getItem (VStr k) s1 = (Resolved (VBool (logical_not cur)), s2)
        /\ toggle (VStr k) s2 = (Resolved (VBool (negb (logical_not cur))), s3)
  | Rejected e => fst (toggle (VStr k) s) = Rejected e
  end
  /\ (never_set k s = true -> fst (toggle (VStr k) s) = Resolved (VBool true)).
Proof.
  intros Hwf Hc.
  destruct (Effects.wf_passed s Hwf) as (s0 & Hp).
  pose proof (Effects.passed_ready s s0 Hp) as Hr.
  pose proof (Effects.passed_calm s s0 Hp Hc) as Hc0.
  rewrite (Effects.toggle_passed k s s0 Hp), (Effects.getItem_passed k s s0 Hp).
  rewrite (Effects.get_after s0 k Hr Hc0).
  assert (forall s cur,
             ready s = true -> calm s = true -> read s k = Resolved cur ->
             exists s1,
               toggle (VStr k) s = (Resolved (VBool (logical_not cur)), s1)
               /\ ready s1 = true /\ calm s1 = true
               /\ read s1 k = Resolved (VBool (logical_not cur))) as Htoggle.
  { intros s' cur Hr' Hc' Hcur.
    destruct (Effects.read_modify_write s' k (fun c => VBool (logical_not c)) cur
                Hr' Hc' Hcur) as (s0' & s1 & _ & E & Hu);
      [now destruct (logical_not cur)|].
    exists s1. split; [exact E|]. pose proof Hu as (Hr1 & Hc1 & _).
    rewrite (Effects.updated_read _ _ _ k Hu), lookup_insert_eq. cbn [default].
    rewrite (Codec.stored_as_storable s' _) by now destruct (logical_not cur).
    auto. }
  split.
  - destruct (read s0 k) as [cur|e] eqn:Hcur.
    + destruct (Htoggle s0 cur Hr Hc0 Hcur) as (s1 & E1 & Hr1 & Hc1 & Hk1).
      destruct (Effects.getItem_effect s1 k Hr1 Hc1) as (s2 & E2 & Hd2 & Hc2).
      pose proof (Effects.same_data_ready _ _ Hd2 Hr1) as Hr2.
      destruct (Effects.same_data_spec _ _ Hd2) as (_ & _ & _ & _ & Hread2 & _).
      destruct (Htoggle s2 _ Hr2 Hc2 (eq_trans (Hread2 k) Hk1))
        as (s3 & E3 & _).
      exists s1, s2, s3. rewrite E1, E2, Hk1. split; [reflexivity|].
      split; [reflexivity|]. rewrite E3. cbn [logical_not].
      now destruct (logical_not cur).
    + unfold toggle, bind.
      destruct (Effects.getItem_effect s0 k Hr Hc0) as (s1 & -> & _).
      now rewrite Hcur.
  - intros Hn. pose proof (Ops.read_never_set s s0 k Hp Hn) as Hcur.
    destruct (Htoggle s0 VNull Hr Hc0 Hcur) as (s1 & -> & _). reflexivity.
Qed.

Lemma toggle_negates_witness :
  exists s1 s2 s3,
    toggle (VStr "n") (snd (setItem (VStr "n") (VNum 5) in_browser))
    = (Resolved (VBool false), s1)
    /\ getItem (VStr "n") s1 = (Resolved (VBool false), s2)
    /\ toggle (VStr "n") s2 = (Resolved (VBool true), s3).
Proof.
  exact (proj1 (toggle_negates (snd (setItem (VStr "n") (VNum 5) in_browser)) "n"
                  eq_refl eq_refl)).
Defined.

(** ** Arrays *)

(** X13.  [append(k, v)] and [prepend(k, v)] take the current value for
    the empty array unless it is an array, put [v] at its end or at its
    start, store the array and resolve with it; [getItem(k)] then gives
    that array.  Stated for arrays that are JSON-representable. *)
Theorem append_and_prepend (s : state) (k : string) (v cur : value) :
  wf s = true -> calm s = true ->
  fst (getItem (VStr k) s) = Resolved cur ->
  JSON.representable (VArr (v :: as_array cur)) = true ->
  (exists s1 s2,
      append (VStr k) v s = (Resolved (VArr (as_array cur ++ [v])), s1)
      /\ getItem (VStr k) s1 = (Resolved (VArr (as_array cur ++ [v])), s2))
  /\ (exists s1 s2,
         prepend (VStr k) v s = (Resolved (VArr (v :: as_array cur)), s1)
         /\ getItem (VStr k) s1 = (Resolved (VArr (v :: as_array cur)), s2)).
Proof.
  intros Hwf Hc Hcur Hrep.
  destruct (Effects.wf_passed s Hwf) as (s0 & Hp).
  pose proof (Effects.passed_ready s s0 Hp) as Hr.
  pose proof (Effects.passed_calm s s0 Hp Hc) as Hc0.
  rewrite (Effects.getItem_passed k s s0 Hp), (Effects.get_after s0 k Hr Hc0) in Hcur.
  rewrite (Effects.append_passed k v s s0 Hp), (Effects.prepend_passed k v s s0 Hp).
  rewrite Effects.append_operation, Effects.prepend_operation.
  assert (forall g,
             g [] = [v] -> JSON.representable (VArr (g (as_array cur))) = true ->
             exists s1 s2,
               array_operation g (VStr k) v s0
               = (Resolved (VArr (g (as_array cur))), s1)
               /\ getItem (VStr k) s1 = (Resolved (VArr (g (as_array cur))), s2))
    as Hop.
  { intros g Hg Hgrep.
    destruct (Effects.array_operation_effect s0 k v g cur Hr Hc0 Hcur Hg) as [Hok _].
    destruct Hok as (s1 & E & Hr1 & Hc1 & Hl1 & _);
      [now apply (Codec.storable_serializable (VArr _))|].
    destruct (Effects.getItem_effect s1 k Hr1 Hc1) as (s2 & E2 & _).
    exists s1, s2. split; [exact E|]. rewrite E2. f_equal.
    rewrite (Effects.read_logical s1 k Hr1), Hl1, lookup_insert_eq. cbn [default].
    now apply (Codec.stored_as_storable s0 (VArr _)). }
  split.
  - apply (Hop (fun items => items ++ [v])); [reflexivity|].
    now apply Codec.representable_snoc.
  - apply (Hop (cons v)); [reflexivity | exact Hrep].
Qed.

Lemma append_and_prepend_witness :
  exists s1 s2 s3 s4,
    append (VStr "list") (VStr "x") in_browser = (Resolved (VArr [VStr "x"]), s1)
    /\ getItem (VStr "list") s1 = (Resolved (VArr [VStr "x"]), s2)
    /\ prepend (VStr "list") (VStr "y") s2
       = (Resolved (VArr [VStr "y"; VStr "x"]), s3)
    /\ getItem (VStr "list") s3 = (Resolved (VArr [VStr "y"; VStr "x"]), s4).
Proof.
  destruct (append_and_prepend in_browser "list" (VStr "x") VNull
              eq_refl eq_refl eq_refl eq_refl) as [(s1 & s2 & E1 & E2) _].
  assert (wf s2 = true /\ calm s2 = true) as [Hwf Hc].
  { vm_compute in E1. injection E1 as <-. vm_compute in E2. injection E2 as <-.
    split; reflexivity. }
  destruct (append_and_prepend s2 "list" (VStr "y") (VArr [VStr "x"]) Hwf Hc)
    as [_ (s3 & s4 & E3 & E4)].
  - vm_compute in E1. injection E1 as <-. vm_compute in E2. injection E2 as <-.
    reflexivity.
  - reflexivity.
  - exists s1, s2, s3, s4. auto.
Defined.

(** X14.  When [JSON.stringify] throws on [v], [append(k, v)] and
    [prepend(k, v)] reject with the stringify error.  On the persistent
    backend the key keeps its value.  On the volatile backend, where the
    array read is the stored array itself, an array stored under [k] has
    by then taken the new element, and [getItem(k)] gives it with [v]
    inside. *)
Theorem append_unserializable (s : state) (k : string) (v cur : value) :
  wf s = true -> calm s = true ->
  fst (getItem (VStr k) s) = Resolved cur ->
  JSON.stringify v = JSON.Throws ->
  (exists s1,
      append (VStr k) v s = (Rejected stringify_error, s1)
      /\ fst (getItem (VStr k) s1)
         = Resolved (match cur with
                     | VArr items =>
                         if isUsingMemoryFallback s1 then VArr (items ++ [v])
                         else cur
                     | _ => cur
                     end))
  /\ (exists s1,
         prepend (VStr k) v s = (Rejected stringify_error, s1)
         /\ fst (getItem (VStr k) s1)
            = Resolved (match cur with
                        | VArr items =>
                            if isUsingMemoryFallback s1 then VArr (v :: items)
                            else cur
                        | _ => cur
                        end)).
Proof.
  intros Hwf Hc Hcur Hv.
  destruct (Effects.wf_passed s Hwf) as (s0 & Hp).
  pose proof (Effects.passed_ready s s0 Hp) as Hr.
  pose proof (Effects.passed_calm s s0 Hp Hc) as Hc0.
  rewrite (Effects.getItem_passed k s s0 Hp), (Effects.get_after s0 k Hr Hc0) in Hcur.
  rewrite (Effects.append_passed k v s s0 Hp), (Effects.prepend_passed k v s s0 Hp).
  rewrite Effects.append_operation, Effects.prepend_operation.
  assert (forall g,
             g [] = [v] -> v ∈ g (as_array cur) ->
             exists s1,
               array_operation g (VStr k) v s0 = (Rejected stringify_error, s1)
               /\ fst (getItem (VStr k) s1)
                  = Resolved (match cur with
                              | VArr items =>
                                  if isUsingMemoryFallback s1 then VArr (g items)
                                  else cur
                              | _ => cur
                              end)) as Hop.
  { intros g Hg Hin.
    destruct (Effects.array_operation_effect s0 k v g cur Hr Hc0 Hcur Hg) as [_ Hbad].
    destruct Hbad as (s1 & E & Hr1 & Hc1 & Hl1 & Hfb1);
      [exact (Codec.array_throws _ v Hin Hv)|].
    exists s1. split; [exact E|].
    rewrite (Effects.get_after s1 k Hr1 Hc1), (Effects.read_logical s1 k Hr1), Hl1.
    unfold isUsingMemoryFallback. rewrite Hfb1.
    rewrite (Effects.read_logical s0 k Hr) in Hcur.
    destruct cur; try (now rewrite Hcur).
    destruct (useMemoryFallback s0.1); [|now rewrite Hcur].
    now rewrite lookup_insert_eq. }
  split.
  - apply (Hop (fun items => items ++ [v])); [reflexivity|].
    apply elem_of_app. right. apply list_elem_of_singleton. reflexivity.
  - apply (Hop (cons v)); [reflexivity | apply elem_of_cons; now left].
Qed.

Lemma append_unserializable_witness :
  (exists s1,
      append (VStr "l") VCyclic
        (snd (setItem (VStr "l") (VArr [VNum 1]) without_indexedDB))
      = (Rejected stringify_error, s1)
      /\ fst (getItem (VStr "l") s1) = Resolved (VArr [VNum 1; VCyclic]))
  /\ (exists s1,
         append (VStr "l") VCyclic
           (snd (setItem (VStr "l") (VArr [VNum 1]) in_browser))
         = (Rejected stringify_error, s1)
         /\ fst (getItem (VStr "l") s1) = Resolved (VArr [VNum 1])).
Proof.
  split.
  - destruct (append_unserializable
                (snd (setItem (VStr "l") (VArr [VNum 1]) without_indexedDB))
                "l" VCyclic (VArr [VNum 1]) eq_refl eq_refl eq_refl eq_refl)
      as [(s1 & E & Hg) _].
    exists s1. split; [exact E|]. rewrite Hg.
    vm_compute in E. injection E as <-. reflexivity.
  - destruct (append_unserializable
                (snd (setItem (VStr "l") (VArr [VNum 1]) in_browser))
                "l" VCyclic (VArr [VNum 1]) eq_refl eq_refl eq_refl eq_refl)
      as [(s1 & E & Hg) _].
    exists s1. split; [exact E|]. rewrite Hg.
    vm_compute in E. injection E as <-. reflexivity.
Defined.

(** ** What the two backends keep of a value *)

(** X15.  [setItem(k, v)] resolves for every [v] that [JSON.stringify]
    accepts.  The volatile backend then reads [v] itself; the persistent
    backend reads what the JSON text keeps of it: an [undefined] inside
    an array has become [null], a property holding [undefined] is gone,
    a number that is not finite has become [null].
    For [undefined] itself and for the JSON-representable values that is
    the value. *)
Theorem set_then_get_keeps_the_json_part (s : state) (k : string) (v : value) :
  wf s = true -> calm s = true ->
  serializable v = true -> distinct_keys v = true ->
  (exists s1 s2,
      setItem (VStr k) v s = (Resolved tt, s1)
      /\ getItem (VStr k) s1
         = (Resolved (if isUsingMemoryFallback s1 then v else as_serialized v), s2))
  /\ (storable v = true -> as_serialized v = v).
Proof.
  intros Hwf Hc Hv Hd. split.
  - destruct (Effects.wf_passed s Hwf) as (s0 & Hp).
    pose proof (Effects.passed_ready s s0 Hp) as Hr.
    pose proof (Effects.passed_calm s s0 Hp Hc) as Hc0.
    rewrite (Effects.setItem_passed k v s s0 Hp).
    destruct (Effects.setItem_effect s0 k v Hr Hc0 Hv) as (s1 & -> & Hu).
    pose proof Hu as (Hr1 & Hc1 & _ & Hview & _).
    destruct (Effects.getItem_effect s1 k Hr1 Hc1) as (s2 & E2 & _).
    exists s1, s2. split; [reflexivity|]. rewrite E2. f_equal.
    rewrite (Effects.updated_read _ _ _ k Hu), lookup_insert_eq. cbn [default].
    unfold stored_as, isUsingMemoryFallback.
    unfold backend_view in Hview. injection Hview as _ _ -> _ _ _.
    destruct (useMemoryFallback s0.1); [reflexivity|].
    now apply Codec.decode_text_of.
  - intros Hs. destruct v; try reflexivity; try discriminate Hs;
      now apply Codec.as_serialized_representable.
Qed.

Lemma set_then_get_keeps_the_json_part_witness :
  fst (getItem (VStr "k")
         (snd (setItem (VStr "k")
                 (VObj [("a", VUndefined); ("b", VArr [VUndefined; VNum 1])])
                 in_browser)))
  = Resolved (VObj [("b", VArr [VNull; VNum 1])])
  /\ fst (getItem (VStr "k")
            (snd (setItem (VStr "k")
                    (VObj [("a", VUndefined); ("b", VArr [VUndefined; VNum 1])])
                    without_indexedDB)))
     = Resolved (VObj [("a", VUndefined); ("b", VArr [VUndefined; VNum 1])]).
Proof.
  split.
  - destruct (set_then_get_keeps_the_json_part in_browser "k"
                (VObj [("a", VUndefined); ("b", VArr [VUndefined; VNum 1])])
                eq_refl eq_refl eq_refl eq_refl) as [(s1 & s2 & E1 & E2) _].
    rewrite E1. cbn [snd]. rewrite E2. cbn [fst].
    vm_compute in E1. injection E1 as <-. reflexivity.
  - destruct (set_then_get_keeps_the_json_part without_indexedDB "k"
                (VObj [("a", VUndefined); ("b", VArr [VUndefined; VNum 1])])
                eq_refl eq_refl eq_refl eq_refl) as [(s1 & s2 & E1 & E2) _].
    rewrite E1. cbn [snd]. rewrite E2. cbn [fst].
    vm_compute in E1. injection E1 as <-. reflexivity.
Defined.

(** ** All the entries at once *)

(** X16.  When every stored key can be read, [entries()] resolves with
    an object that has one property for each key [keys()] lists, holding
    what [getItem] gives for the key; except that the key ['__proto__']
    gets no property: assigning to it on the result object defines
    none. *)
Theorem entries_lists_what_getItem_reads (s : state) :
  wf s = true -> calm s = true ->
  exists ks s1,
    keys s = (Resolved ks, s1)
    /\ ((forall k, k ∈ ks -> exists v, fst (getItem (VStr k) s1) = Resolved v) ->
        exists result s2,
          entries s = (Resolved (VObj result), s2)
          /\ NoDup (fst <$> result)
          /\ (forall k, k ∈ (fst <$> result) <-> k ∈ ks /\ k <> "__proto__")
          /\ forall k v,
               (k, v) ∈ result -> fst (getItem (VStr k) s1) = Resolved v).
Proof.
  intros Hwf Hc.
  destruct (Effects.wf_passed s Hwf) as (s0 & Hp).
  pose proof (Effects.passed_ready s s0 Hp) as Hr.
  pose proof (Effects.passed_calm s s0 Hp Hc) as Hc0.
  rewrite (Effects.keys_passed s s0 Hp), (Effects.entries_passed s s0 Hp).
  destruct (Effects.keys_effect s0 Hr Hc0) as (s1 & Ek & Hd & Hc1).
  pose proof (Effects.same_data_ready _ _ Hd Hr) as Hr1.
  destruct (Effects.same_data_spec _ _ Hd) as (_ & _ & _ & _ & Hread & _).
  exists (stored_keys s0), s1. split; [exact Ek|]. intros Hall.
  destruct (Bulk.entries_effect s0 Hr Hc0) as (s2 & E & _).
  { intros k Hk. destruct (Hall k Hk) as (v & Hv). exists v.
    now rewrite (Effects.get_after s1 k Hr1 Hc1), Hread in Hv. }
  eexists _, s2. split; [exact E|].
  rewrite <- list_fmap_compose, list_fmap_id. split; [|split].
  - apply NoDup_filter, Effects.NoDup_stored_keys.
  - intros k. rewrite list_elem_of_filter. tauto.
  - intros k v (k' & [= -> ->] & Hin)%list_elem_of_fmap.
    apply list_elem_of_filter in Hin as [_ Hin].
    destruct (Hall k' Hin) as (v & Hv). rewrite Hv.
    rewrite (Effects.get_after s1 k' Hr1 Hc1), Hread in Hv.
    unfold value_of_key. now rewrite Hv.
Qed.

Lemma entries_lists_what_getItem_reads_witness :
  exists result s2,
    entries
      (snd (run_all [OpSetItem (VStr "a") (VNum 1);
                     OpSetItem (VStr "__proto__") (VNum 2);
                     OpSetItem (VStr "b") VUndefined] in_browser))
    = (Resolved (VObj result), s2)
    /\ "a" ∈ (fst <$> result)
    /\ "b" ∈ (fst <$> result)
    /\ ("__proto__" ∉ fst <$> result)
    /\ forall k v, (k, v) ∈ result -> v = VNum 1 \/ v = VUndefined.
Proof.
  destruct (entries_lists_what_getItem_reads
              (snd (run_all [OpSetItem (VStr "a") (VNum 1);
                             OpSetItem (VStr "__proto__") (VNum 2);
                             OpSetItem (VStr "b") VUndefined] in_browser))
              eq_refl eq_refl) as (ks & s1 & Ek & H).
  vm_compute in Ek. injection Ek as <- <-.
  destruct H as (result & s2 & E & _ & Hkeys & Hvals).
  { intros k Hk. repeat (apply elem_of_cons in Hk as [->|Hk]);
      [eexists; vm_compute; reflexivity ..|].
    now apply elem_of_nil in Hk. }
  exists result, s2. split; [exact E|].
  split; [apply Hkeys; split; [|discriminate]; apply (bool_decide_unpack _);
          vm_compute; exact I|].
  split; [apply Hkeys; split; [|discriminate]; apply (bool_decide_unpack _);
          vm_compute; exact I|].
  split; [intros Hin; now apply Hkeys in Hin as [_ Hne]|].
  intros k v Hin. specialize (Hvals k v Hin).
  assert (k ∈ fst <$> result) as Hk
    by (apply list_elem_of_fmap; exists (k, v); auto).
  apply Hkeys in Hk as [Hk Hne].
  apply elem_of_cons in Hk as [->|Hk]; [now contradiction Hne|].
  apply elem_of_cons in Hk as [->|Hk];
    [vm_compute in Hvals; injection Hvals as <-; auto|].
  apply elem_of_cons in Hk as [->|Hk];
    [vm_compute in Hvals; injection Hvals as <-; auto|].
  now apply elem_of_nil in Hk.
Defined.

(** X17.  [entries()] reads every key with [getItem], so one stored text
    that does not parse makes it reject, with the parse error; [values()]
    resolves in that same state. *)
Theorem entries_rejects_where_values_degrades (s : state) (k : string)
    (e : js_error) :
  wf s = true -> calm s = true ->
  fst (getItem (VStr k) s) = Rejected e ->
  fst (entries s) = Rejected parse_error
  /\ code parse_error = Some JSON_PARSE_ERROR
  /\ exists vs, fst (values s) = Resolved vs.
Proof.
  intros Hwf Hc He.
  destruct (Effects.wf_passed s Hwf) as (s0 & Hp).
  pose proof (Effects.passed_ready s s0 Hp) as Hr.
  pose proof (Effects.passed_calm s s0 Hp Hc) as Hc0.
  rewrite (Effects.getItem_passed k s s0 Hp), (Effects.get_after s0 k Hr Hc0) in He.
  rewrite (Effects.entries_passed s s0 Hp), (Effects.values_passed s s0 Hp).
  split; [|split; [reflexivity|]].
  - destruct (Effects.keys_effect s0 Hr Hc0) as (s1 & Ek & Hd & Hc1).
    pose proof (Effects.same_data_ready _ _ Hd Hr) as Hr1.
    destruct (Effects.same_data_spec _ _ Hd) as (_ & _ & _ & _ & Hread & _).
    unfold entries, bind. rewrite Ek.
    pose proof (Bulk.entries_loop_rejects (stored_keys s0) [] s1 Hr1 Hc1) as Hrej.
    destruct (entries_loop (stored_keys s0) [] s1) as [[r|e'] s2]; cbn [fst] in *.
    + discriminate Hrej. exists k, e. split; [|now rewrite Hread].
      apply (Effects.elem_of_stored_keys s0 k Hr).
      rewrite (Effects.read_logical s0 k Hr) in He.
      destruct (logical s0 !! k); [eauto | discriminate He].
    + assert (Rejected e' = Rejected (A := list (string * value)) parse_error)
        as [= ->]; [|reflexivity].
      apply Hrej. exists k, e. split; [|now rewrite Hread].
      apply (Effects.elem_of_stored_keys s0 k Hr).
      rewrite (Effects.read_logical s0 k Hr) in He.
      destruct (logical s0 !! k); [eauto | discriminate He].
  - destruct (Ops.values_ready s0 Hr Hc0) as (s1 & -> & _). eauto.
Qed.

Lemma entries_rejects_where_values_degrades_witness :
  fst (entries
         (constructor,
          quiet_world true {[ "app-db" := {[ "a" := "[1,2]"; "b" := "{oops" ]} ]}))
  = Rejected parse_error
  /\ code parse_error = Some JSON_PARSE_ERROR
  /\ exists vs,
       fst (values
              (constructor,
               quiet_world true
                 {[ "app-db" := {[ "a" := "[1,2]"; "b" := "{oops" ]} ]}))
       = Resolved vs.
Proof.
  apply (entries_rejects_where_values_degrades
           (constructor,
            quiet_world true {[ "app-db" := {[ "a" := "[1,2]"; "b" := "{oops" ]} ]})
           "b" parse_error); reflexivity.
Defined.

(** X18.  [replaceAll(data)] rejects anything that is not an object, and
    [null], before it clears.  For an object, or an array, whose values
    are storable it resolves, and the store then holds exactly the
    entries of [data] (for an array, its elements under their indices):
    each key of [data] reads as its value, every other key reads as
    [null], and [keys()] lists the keys of [data]. *)
Theorem replaceAll_replaces (s : state) :
  wf s = true -> calm s = true ->
  (forall data,
      typeof data <> TObject \/ data = VNull ->
      replaceAll data s = (Rejected data_must_be_object, s))
  /\ (forall data,
         typeof data = TObject -> data <> VNull ->
         NoDup (fst <$> Object_entries data) ->
         Forall (fun kv => storable (snd kv) = true) (Object_entries data) ->
         exists s1,
           replaceAll data s = (Resolved tt, s1)
           /\ (forall k v,
                  (k, v) ∈ Object_entries data ->
                  fst (getItem (VStr k) s1) = Resolved v)
           /\ (forall k,
                  k ∉ fst <$> Object_entries data ->
                  fst (getItem (VStr k) s1) = Resolved VNull)
           /\ exists ks,
                fst (keys s1) = Resolved ks
                /\ ks ≡ₚ fst <$> Object_entries data).
Proof.
  intros Hwf Hc. split.
  - intros data [Ht | ->]; [|reflexivity].
    destruct data; try reflexivity; now contradiction Ht.
  - intros data Ht Hn Hnd Hall.
    destruct (Effects.wf_passed s Hwf) as (s0 & Hp).
    pose proof (Effects.passed_ready s s0 Hp) as Hr.
    pose proof (Effects.passed_calm s s0 Hp Hc) as Hc0.
    rewrite (Bulk.replaceAll_passed data s s0 Ht Hn Hp).
    destruct (Bulk.replaceAll_storable data s0 (Object_entries data) []
                Ht Hn Hr Hc0 Hall) as (s1 & E & Hr1 & Hc1 & Hl);
      [now rewrite app_nil_r | exact I |].
    destruct (Bulk.reads_of_entries s1 _ Hr1 Hc1 Hnd Hl) as (Hin & Hout & Hkeys).
    exists s1. split; [exact E|]. split; [|split].
    + intros k v Hkv. rewrite (Effects.get_after s1 k Hr1 Hc1). now apply Hin.
    + intros k Hk. rewrite (Effects.get_after s1 k Hr1 Hc1). now apply Hout.
    + destruct (Effects.keys_effect s1 Hr1 Hc1) as (s2 & -> & _).
      exists (stored_keys s1). split; [reflexivity | exact Hkeys].
Qed.

Lemma replaceAll_replaces_witness :
  replaceAll (VStr "a") in_browser = (Rejected data_must_be_object, in_browser)
  /\ exists s1,
       replaceAll (VArr [VStr "x"; VUndefined])
         (snd (setItem (VStr "old") (VNum 1) in_browser))
       = (Resolved tt, s1)
       /\ fst (getItem (VStr "0") s1) = Resolved (VStr "x")
       /\ fst (getItem (VStr "1") s1) = Resolved VUndefined
       /\ fst (getItem (VStr "old") s1) = Resolved VNull.
Proof.
  split.
  - apply (replaceAll_replaces in_browser eq_refl eq_refl). left. discriminate.
  - destruct (replaceAll_replaces
                (snd (setItem (VStr "old") (VNum 1) in_browser)) eq_refl eq_refl)
      as [_ H].
    destruct (H (VArr [VStr "x"; VUndefined])) as (s1 & E & Hin & Hout & _).
    + reflexivity.
    + discriminate.
    + apply (bool_decide_unpack _). vm_compute. exact I.
    + repeat constructor.
    + exists s1. split; [exact E|]. split; [|split].
      * apply Hin. vm_compute. apply list_elem_of_here.
      * apply Hin. vm_compute. apply list_elem_of_further, list_elem_of_here.
      * apply Hout. apply (bool_decide_unpack _). vm_compute. exact I.
Defined.

(** X19.  [replaceAll] is not atomic.  When [JSON.stringify] throws on
    one of the values, the call rejects with the stringify error after
    the old entries have been cleared and the entries before that value
    have been written: those read as their new values, and every other
    key, old ones included, reads as [null]. *)
Theorem replaceAll_is_not_atomic (s : state) (pre post : list (string * value))
    (k : string) (bad : value) :
  wf s = true -> calm s = true ->
  NoDup (fst <$> pre) -> Forall (fun kv => storable (snd kv) = true) pre ->
  JSON.stringify bad = JSON.Throws ->
  exists s1,
    replaceAll (VObj (pre ++ (k, bad) :: post)) s = (Rejected stringify_error, s1)
    /\ (forall k' v, (k', v) ∈ pre -> fst (getItem (VStr k') s1) = Resolved v)
    /\ (forall k', k' ∉ fst <$> pre -> fst (getItem (VStr k') s1) = Resolved VNull).
Proof.
  intros Hwf Hc Hnd Hall Hbad.
  destruct (Effects.wf_passed s Hwf) as (s0 & Hp).
  pose proof (Effects.passed_ready s s0 Hp) as Hr.
  pose proof (Effects.passed_calm s s0 Hp Hc) as Hc0.
  rewrite (Bulk.replaceAll_passed (VObj (pre ++ (k, bad) :: post)) s s0
             eq_refl ltac:(discriminate) Hp).
  destruct (Bulk.replaceAll_storable (VObj (pre ++ (k, bad) :: post)) s0 pre
              ((k, bad) :: post) eq_refl ltac:(discriminate) Hr Hc0 Hall eq_refl Hbad)
    as (s1 & E & Hr1 & Hc1 & Hl).
  destruct (Bulk.reads_of_entries s1 _ Hr1 Hc1 Hnd Hl) as (Hin & Hout & _).
  exists s1. split; [exact E|]. split.
  - intros k' v Hkv. rewrite (Effects.get_after s1 k' Hr1 Hc1). now apply Hin.
  - intros k' Hk. rewrite (Effects.get_after s1 k' Hr1 Hc1). now apply Hout.
Qed.

Lemma replaceAll_is_not_atomic_witness :
  exists s1,
    replaceAll (VObj [("a", VNum 1); ("b", VCyclic); ("c", VNum 3)])
      (snd (setItem (VStr "old") (VNum 0) without_indexedDB))
    = (Rejected stringify_error, s1)
    /\ fst (getItem (VStr "a") s1) = Resolved (VNum 1)
    /\ fst (getItem (VStr "c") s1) = Resolved VNull
    /\ fst (getItem (VStr "old") s1) = Resolved VNull.
Proof.
  destruct (replaceAll_is_not_atomic
              (snd (setItem (VStr "old") (VNum 0) without_indexedDB))
              [("a", VNum 1)] [("c", VNum 3)] "b" VCyclic eq_refl eq_refl)
    as (s1 & E & Hin & Hout).
  - apply (bool_decide_unpack _). vm_compute. exact I.
  - repeat constructor.
  - reflexivity.
  - exists s1. split; [exact E|]. split; [|split].
    + apply Hin. apply list_elem_of_here.
    + apply Hout. apply (bool_decide_unpack _). vm_compute. exact I.
    + apply Hout. apply (bool_decide_unpack _). vm_compute. exact I.
Defined.

(** X20.  [entries()] after [replaceAll(data)] gives back the properties
    of [data], for an object whose values are storable and which has no
    property ['__proto__']. *)
Theorem entries_after_replaceAll (s : state) (props : list (string * value)) :
  wf s = true -> calm s = true ->
  NoDup (fst <$> props) -> Forall (fun kv => storable (snd kv) = true) props ->
  "__proto__" ∉ fst <$> props ->
  exists s1 result s2,
    replaceAll (VObj props) s = (Resolved tt, s1)
    /\ entries s1 = (Resolved (VObj result), s2)
    /\ result ≡ₚ props.
Proof.
  intros Hwf Hc Hnd Hall Hproto.
  destruct (Effects.wf_passed s Hwf) as (s0 & Hp).
  pose proof (Effects.passed_ready s s0 Hp) as Hr.
  pose proof (Effects.passed_calm s s0 Hp Hc) as Hc0.
  rewrite (Bulk.replaceAll_passed (VObj props) s s0 eq_refl ltac:(discriminate) Hp).
  destruct (Bulk.replaceAll_storable (VObj props) s0 props []
              eq_refl ltac:(discriminate) Hr Hc0 Hall) as (s1 & E & Hr1 & Hc1 & Hl);
    [cbn; now rewrite app_nil_r | exact I |].
  destruct (Bulk.reads_of_entries s1 _ Hr1 Hc1 Hnd Hl) as (Hin & Hout & Hkeys).
  destruct (Bulk.entries_effect s1 Hr1 Hc1) as (s2 & Ee & _).
  { intros k Hk. rewrite Hkeys in Hk.
    apply list_elem_of_fmap in Hk as ([k' v] & -> & Hkv). exists v. now apply Hin. }
  eexists s1, _, s2. split; [exact E|]. split; [exact Ee|].
  rewrite Bulk.filter_all.
  - rewrite Hkeys, <- list_fmap_compose.
    assert (((fun k => (k, value_of_key s1 k)) ∘ fst) <$> props = props) as ->;
      [|reflexivity].
    rewrite <- (list_fmap_id props) at 2.
    apply list_fmap_ext. intros i [k v] Hi. cbn.
    unfold value_of_key. now rewrite (Hin k v (list_elem_of_lookup_2 _ _ _ Hi)).
  - intros k Hk ->. apply Hproto. now rewrite <- Hkeys.
Qed.

Lemma entries_after_replaceAll_witness :
  exists s1 result s2,
    replaceAll (VObj [("a", VNum 1); ("b", VArr [VNull])]) in_browser
    = (Resolved tt, s1)
    /\ entries s1 = (Resolved (VObj result), s2)
    /\ result ≡ₚ [("a", VNum 1); ("b", VArr [VNull])].
Proof.
  apply (entries_after_replaceAll in_browser
           [("a", VNum 1); ("b", VArr [VNull])] eq_refl eq_refl).
  - apply (bool_decide_unpack _). vm_compute. exact I.
  - repeat constructor.
  - apply (bool_decide_unpack _). vm_compute. exact I.
Defined.

(** ** Data across reconfiguration *)

(** X22.  [configure] closes the connection but deletes nothing: a value
    stored under one database name is read again after the helper has
    been configured for another name, written to there, and configured
    back.  Stated for an environment where IndexedDB is present and no
    open or store request fails. *)
Theorem persistent_data_outlives_configure (s : state) (name name' k : string)
    (v v' : value) :
  fresh_promises (snd s) = true -> calm s = true -> opens_succeed s = true ->
  storable v = true -> storable v' = true -> name' <> name ->
  fst ((configure (VStr name) ;; setItem (VStr k) v ;;
        configure (VStr name') ;; setItem (VStr k) v' ;;
        configure (VStr name) ;; getItem (VStr k)) s)
  = Resolved v.
Proof.
  intros Hfresh Hc Ho Hv Hv' Hne.
  assert (forall n s,
             fresh_promises (snd s) = true -> calm s = true ->
             opens_succeed s = true ->
             exists s1,
               passed (snd (configure (VStr n) s)) s1
               /\ ready s1 = true /\ calm s1 = true
               /\ fresh_promises (snd s1) = true /\ opens_succeed s1 = true
               /\ useMemoryFallback (fst s1) = false /\ db (fst s1) = Some n
               /\ forall m, store_of m (snd s1) = store_of m (snd s)) as Hgate.
  { intros n s0 Hf0 Hc0 Ho0.
    destruct (Namespace.configured_gate n s0 Hf0) as (s1 & Hp & Hf1 & _ & _ & Hok & _).
    destruct (Hok Ho0) as (Hfb & Hdb & Ho1).
    exists s1. pose proof Hp as (_ & Hr & Hc1 & _ & Hs).
    rewrite Reconfigure.configure_spec in Hc1, Hs. cbn [snd] in Hs.
    change (calm s1 = calm s0) in Hc1. rewrite Hc0 in Hc1.
    split; [exact Hp|]. split; [exact Hr|]. split; [exact Hc1|].
    split; [exact Hf1|]. split; [exact Ho1|]. split; [exact Hfb|].
    split; [exact Hdb|]. intros m. now rewrite Hs. }
  assert (forall n s1 u,
             ready s1 = true -> calm s1 = true -> fresh_promises (snd s1) = true ->
             opens_succeed s1 = true ->
             useMemoryFallback (fst s1) = false -> db (fst s1) = Some n ->
             storable u = true ->
             exists s2,
               setItem (VStr k) u s1 = (Resolved tt, s2)
               /\ calm s2 = true /\ fresh_promises (snd s2) = true
               /\ opens_succeed s2 = true
               /\ (decode <$> store_of n (snd s2)) !! k = Some (Resolved u)
               /\ forall m, m <> n -> store_of m (snd s2) = store_of m (snd s1))
    as Hset.
  { intros n s1 u Hr1 Hc1 Hf1 Ho1 Hfb Hdb Hu.
    destruct (Effects.setItem_effect s1 k u Hr1 Hc1
                (Codec.storable_serializable u Hu))
      as (s2 & E & Hr2 & Hc2 & Hl & Hview & Hframe).
    exists s2. split; [exact E|]. split; [exact Hc2|].
    unfold backend_view, fresh_promises, opens_succeed in *.
    injection Hview as _ Hdb2 Hfb2 _ _ Hidb Hof Hpend Hact _.
    rewrite Hpend, Hact, Hidb, Hof. split; [exact Hf1|]. split; [exact Ho1|].
    rewrite Hdb in Hdb2. rewrite Hfb in Hfb2. split.
    - rewrite <- (Effects.logical_persistent s2 n Hfb2 Hdb2), Hl.
      rewrite lookup_insert_eq. f_equal. now apply Codec.stored_as_storable.
    - intros m Hm. apply Hframe. right. congruence. }
  rewrite Namespace.after_configure.
  destruct (Hgate name s Hfresh Hc Ho)
    as (s1 & Hp1 & Hr1 & Hc1 & Hf1 & Ho1 & Hfb1 & Hdb1 & Hs1).
  unfold bind at 1. rewrite (Effects.setItem_passed k v _ s1 Hp1).
  destruct (Hset name s1 v Hr1 Hc1 Hf1 Ho1 Hfb1 Hdb1 Hv)
    as (s2 & -> & Hc2 & Hf2 & Ho2 & Hk2 & _).
  rewrite Namespace.after_configure.
  destruct (Hgate name' s2 Hf2 Hc2 Ho2)
    as (s3 & Hp3 & Hr3 & Hc3 & Hf3 & Ho3 & Hfb3 & Hdb3 & Hs3).
  unfold bind at 1. rewrite (Effects.setItem_passed k v' _ s3 Hp3).
  destruct (Hset name' s3 v' Hr3 Hc3 Hf3 Ho3 Hfb3 Hdb3 Hv')
    as (s4 & -> & Hc4 & Hf4 & Ho4 & _ & Hs4).
  rewrite Namespace.after_configure.
  destruct (Hgate name s4 Hf4 Hc4 Ho4)
    as (s5 & Hp5 & Hr5 & Hc5 & _ & _ & Hfb5 & Hdb5 & Hs5).
  rewrite (Effects.getItem_passed k _ s5 Hp5), (Effects.get_after s5 k Hr5 Hc5).
  rewrite (Effects.read_logical s5 k Hr5), (Effects.logical_persistent s5 name Hfb5 Hdb5).
  rewrite Hs5, (Hs4 name) by congruence. rewrite Hs3, Hk2. reflexivity.
Qed.

Lemma persistent_data_outlives_configure_witness :
  fst ((configure (VStr "db1") ;; setItem (VStr "k") (VNum 1) ;;
        configure (VStr "db2") ;; setItem (VStr "k") (VNum 2) ;;
        configure (VStr "db1") ;; getItem (VStr "k")) in_browser)
  = Resolved (VNum 1).
Proof.
  apply (persistent_data_outlives_configure in_browser "db1" "db2" "k"
           (VNum 1) (VNum 2)); try reflexivity. discriminate.
Defined.

(** X23.  On the volatile backend [configure] loses the data: it clears
    the memory mapping, so a key set before reads as [null] afterwards,
    even when the helper is configured for the same name again. *)
Theorem volatile_data_is_lost_on_configure (s : state) (name name' k : string)
    (v : value) :
  fresh_promises (snd s) = true -> indexedDB_present (snd s) = false ->
  serializable v = true ->
  exists s1,
    (configure (VStr name) ;; setItem (VStr k) v) s = (Resolved tt, s1)
    /\ isUsingMemoryFallback s1 = true
    /\ fst ((configure (VStr name') ;; getItem (VStr k)) s1) = Resolved VNull.
Proof.
  intros Hfresh Hidb Hv.
  rewrite Namespace.after_configure.
  destruct (Namespace.configured_gate name s Hfresh)
    as (s0 & Hp0 & Hf0 & _ & Hidb0 & _ & Hvol).
  specialize (Hvol Hidb). pose proof Hp0 as (_ & Hr0 & _).
  rewrite (Effects.setItem_passed k v _ s0 Hp0).
  assert (exists s1,
             setItem (VStr k) v s0 = (Resolved tt, s1)
             /\ useMemoryFallback (fst s1) = true
             /\ snd s1 = snd s0) as (s1 & E & Hfb1 & Hw1).
  { rewrite Effects.setItem_dispatch, (Effects.dispatch_ready _ _ s0 Hr0), Hvol.
    unfold serializable in Hv. unfold bind, update_this.
    destruct v; try (eexists; repeat split; eassumption || reflexivity);
      destruct (JSON.stringify _); try discriminate Hv;
      eexists; repeat split; eassumption || reflexivity. }
  exists s1. split; [exact E|]. split; [exact Hfb1|].
  rewrite Namespace.after_configure.
  assert (fresh_promises (snd s1) = true) as Hf1 by now rewrite Hw1.
  destruct (Namespace.configured_gate name' s1 Hf1)
    as (s2 & Hp2 & _ & Hm2 & _ & _ & Hvol2).
  rewrite Hw1, Hidb0 in Hvol2. specialize (Hvol2 Hidb).
  pose proof Hp2 as (_ & Hr2 & _).
  rewrite (Effects.getItem_passed k _ s2 Hp2).
  rewrite Effects.getItem_dispatch, (Effects.dispatch_ready _ _ s2 Hr2), Hvol2, Hm2.
  reflexivity.
Qed.

Lemma volatile_data_is_lost_on_configure_witness :
  exists s1,
    (configure (VStr "db") ;; setItem (VStr "k") (VNum 1)) without_indexedDB
    = (Resolved tt, s1)
    /\ isUsingMemoryFallback s1 = true
    /\ fst ((configure (VStr "db") ;; getItem (VStr "k")) s1) = Resolved VNull.
Proof.
  apply (volatile_data_is_lost_on_configure without_indexedDB "db" "db" "k" (VNum 1));
    reflexivity.
Defined.

(** * The ES module version *)

(** ** The effect of its operations *)

Module ESFacts.
Import ESModule.
#[local] Open Scope es_scope.

Lemma no_fault_next (l : list bool) :
  Forall (eq false) l ->
  match l with true :: _ => False | _ => True end /\ Forall (eq false) (tail l).
Proof.
  intros H. destruct H as [|b l Hb Hl]; [split; [exact I|constructor]|].
  subst b. split; [exact I|exact Hl].
Qed.

(** The text of a storable value reads back as the value. *)
Lemma text_reads_back v : storable v = true -> decode (text_of v) = Resolved v.
Proof.
  intros Hv.
  assert (v = VUndefined \/ JSON.representable v = true) as [->|Hrep]
    by (destruct v; auto).
  - reflexivity.
  - destruct (Roundtrip.parse_stringify v Hrep) as (t & Et & Hp).
    assert (text_of v = t) as ->
      by (unfold text_of; destruct v; try discriminate Hrep; now rewrite Et).
    exact (Codec.decode_text v t Et Hp).
Qed.

Lemma getItem_onsuccess_decode t s :
  getItem_onsuccess (Some t) s = (decode t, s).
Proof.
  unfold getItem_onsuccess, decode.
  destruct (String.eqb t UNDEFINED_MARKER); [reflexivity|].
  now destruct (JSON.parse t).
Qed.


Ltac fields :=
  unfold set_config_version, set_upgradeCallback, set_db, set_useMemoryFallback,
    set_memoryStore, set_isInitialized, set_initPromise, set_databases,
    set_open_faults, set_request_faults, set_delete_faults, set_promises in *;
  cbn [fst snd config_dbName config_version upgradeCallback db useMemoryFallback
       memoryStore isInitialized initPromise indexedDB_present databases
       open_faults request_faults delete_faults promises
       set_config_version set_upgradeCallback set_db set_useMemoryFallback
       set_memoryStore set_isInitialized set_initPromise set_databases
       set_open_faults set_request_faults set_delete_faults set_promises
       name objectStoreNames closed close version stores] in *.

Ltac run :=
  unfold bind, this, world, update_this, update_world, ret, throw; fields.

Lemma open_upgrade h w :
  match open_faults w with true :: _ => False | _ => True end ->
  version (database_of (config_dbName h) w) < config_version h ->
  _openDatabase (h, w)
  = (Resolved
       (mkConnection (config_dbName h)
          (dom (run_callback (upgradeCallback h)
                  (stores (database_of (config_dbName h) w)))) false),
     (h, set_databases
           (<[config_dbName h :=
                mkDatabase (config_version h)
                  (run_callback (upgradeCallback h)
                     (stores (database_of (config_dbName h) w)))]>
              (databases w))
           (set_open_faults (tail (open_faults w)) w))).
Proof.
  intros Hf Hlt. unfold _openDatabase. run.
  assert ((config_version h <? version (database_of (config_dbName h) w)) = false)
    as E1 by (apply Z.ltb_ge; lia).
  assert ((version (database_of (config_dbName h) w) <? config_version h) = true)
    as E2 by (apply Z.ltb_lt; lia).
  destruct (open_faults w) as [|[] rest]; [|contradiction|];
    now rewrite E1, E2.
Qed.

Lemma open_current h w :
  match open_faults w with true :: _ => False | _ => True end ->
  version (database_of (config_dbName h) w) = config_version h ->
  _openDatabase (h, w)
  = (Resolved
       (mkConnection (config_dbName h)
          (dom (stores (database_of (config_dbName h) w))) false),
     (h, set_open_faults (tail (open_faults w)) w)).
Proof.
  intros Hf Heq. unfold _openDatabase. run.
  rewrite Heq, Z.ltb_irrefl.
  destruct (open_faults w) as [|[] rest]; [|contradiction|]; reflexivity.
Qed.

Lemma open_rejects h w :
  (exists rest, open_faults w = true :: rest)
  \/ config_version h < version (database_of (config_dbName h) w) ->
  _openDatabase (h, w)
  = (Rejected open_error, (h, set_open_faults (tail (open_faults w)) w)).
Proof.
  intros H. unfold _openDatabase. run.
  destruct H as [(rest & ->)|Hlt]; [reflexivity|].
  apply Z.ltb_lt in Hlt. rewrite Hlt.
  now destruct (open_faults w) as [|[] rest].
Qed.


Ltac in_sync_state s H :=
  destruct s as [[nm ver cb dbo fb mem ini ip] [pres dbs ofs rfs dfs pr]];
  destruct H as (Hpres & Hi & Hf & Hcb & Hpos & c & d & Hdb & Hcl & Hnm & Hd & Hv & Hdom);
  destruct c as [cn names cl]; destruct d as [dv dst];
  fields; subst.

Lemma ensure_in_sync k s :
  in_sync s ->
  match open_faults (snd s) with true :: _ => False | _ => True end ->
  _ensureObjectStore k s = (Resolved tt, with_store k s).
Proof.
  intros H Hof. in_sync_state s H.
  unfold _ensureObjectStore, with_store, database, database_of. run.
  rewrite Hd. cbn [default from_option id stores version].
  case_bool_decide as Hk.
  - apply elem_of_dom in Hk as [x ->]. reflexivity.
  - apply not_elem_of_dom in Hk. rewrite Hk.
    rewrite open_upgrade.
    + fields. unfold database_of. fields. rewrite Hd.
      cbn [default from_option id stores run_callback]. rewrite Hk. reflexivity.
    + exact Hof.
    + unfold database_of. fields. rewrite Hd. cbn. lia.
Qed.

Lemma with_store_in_sync k s : in_sync s -> in_sync (with_store k s).
Proof.
  intros H. unfold with_store.
  destruct (stores (database s) !! k) eqn:E; [exact H|].
  in_sync_state s H. unfold in_sync. fields.
  repeat split; [lia|].
  eexists _, _. repeat split; fields.
  - apply lookup_insert_eq.
  - reflexivity.
  - reflexivity.
Qed.


Lemma initialize_in_sync s : in_sync s -> _initialize s = (Resolved tt, s).
Proof.
  intros (_ & Hi & _). unfold _initialize. run. now rewrite Hi.
Qed.

Lemma request_resolves what s :
  match request_faults (snd s) with true :: _ => False | _ => True end ->
  request what s = (Resolved tt, requested s).
Proof.
  intros H. unfold request, requested. run.
  now destruct (request_faults (snd s)) as [|[] rest].
Qed.

Lemma request_fails what s rest :
  request_faults (snd s) = true :: rest ->
  request what s = (Rejected (request_error what), requested s).
Proof. intros H. unfold request, requested. run. now rewrite H. Qed.

Lemma transaction_in_sync k s :
  in_sync s -> is_Some (stores (database s) !! k) ->
  exists c, transaction k s = (Resolved c, s)
            /\ name c = config_dbName (fst s).
Proof.
  intros H [x Hx]. in_sync_state s H.
  unfold database, database_of in Hx. fields. rewrite Hd in Hx.
  cbn [default from_option id stores] in Hx.
  eexists. unfold transaction. run.
  rewrite bool_decide_true by (apply elem_of_dom; eauto).
  split; reflexivity.
Qed.

Lemma with_store_stores k s :
  stores (database (with_store k s))
  = match stores (database s) !! k with
    | Some _ => stores (database s)
    | None => <[k := None]> (stores (database s))
    end.
Proof.
  unfold with_store. destruct (stores (database s) !! k); [reflexivity|].
  unfold database at 1, database_of. fields.
  rewrite lookup_insert_eq. reflexivity.
Qed.

Lemma with_store_version k s :
  in_sync s ->
  version (database (with_store k s))
  = match stores (database s) !! k with
    | Some _ => version (database s)
    | None => version (database s) + 1
    end.
Proof.
  intros H. unfold with_store. destruct (stores (database s) !! k); [reflexivity|].
  unfold database at 1, database_of. fields.
  rewrite lookup_insert_eq. cbn [default from_option id version].
  in_sync_state s H. unfold database, database_of. fields. now rewrite Hd.
Qed.

Lemma with_store_has k s : is_Some (stores (database (with_store k s)) !! k).
Proof.
  rewrite with_store_stores. destruct (stores (database s) !! k) eqn:E.
  - rewrite E. eauto.
  - rewrite lookup_insert_eq. eauto.
Qed.

Lemma written_in_sync k data s :
  in_sync s -> is_Some (stores (database s) !! k) -> in_sync (written k data s).
Proof.
  intros H [x Hx]. in_sync_state s H.
  unfold database, database_of in Hx. fields. rewrite Hd in Hx.
  cbn [default from_option id stores] in Hx.
  unfold written, in_sync, database, database_of. fields. rewrite Hd.
  cbn [default from_option id stores version].
  repeat split; [assumption|]. eexists _, _. repeat split; fields.
  - apply lookup_insert_eq.
  - reflexivity.
  - cbn [stores]. rewrite dom_insert_L.
    assert (k ∈ dom dst) as Hk by (apply elem_of_dom; eauto).
    apply set_eq. intros y. rewrite elem_of_union, elem_of_singleton.
    split; [intros [->|Hy]; assumption|auto].
Qed.

Lemma written_stores k data s :
  stores (database (written k data s)) = <[k := data]> (stores (database s)).
Proof.
  unfold written. unfold database at 1, database_of. fields.
  now rewrite lookup_insert_eq.
Qed.

Lemma written_version k data s :
  version (database (written k data s)) = version (database s).
Proof.
  unfold written. unfold database at 1, database_of. fields.
  now rewrite lookup_insert_eq.
Qed.

Lemma requested_in_sync s : in_sync s -> in_sync (requested s).
Proof. intros H. exact H. Qed.

(** [setItem] on the persistent backend. *)
Lemma setItem_in_sync k v s :
  in_sync s -> calm s -> serializable v = true ->
  setItem (VStr k) v s
  = (Resolved tt, written k (Some (text_of v)) (with_store k s)).
Proof.
  intros H (Ho & Hr & _) Hv.
  apply no_fault_next in Ho as [Ho _]. apply no_fault_next in Hr as [Hr _].
  unfold setItem.
  unfold bind at 1. rewrite (initialize_in_sync s H).
  unfold bind at 1. unfold this at 1. cbn [fst].
  pose proof H as (_ & _ & Hf & _). rewrite Hf.
  unfold bind at 1. rewrite (ensure_in_sync k s H Ho).
  pose proof (with_store_in_sync k s H) as H1.
  destruct (transaction_in_sync k _ H1 (with_store_has k s)) as (c & Et & Hc).
  unfold bind at 1. rewrite Et.
  assert (request_faults (snd (with_store k s)) = request_faults (snd s)) as Erf.
  { unfold with_store. now destruct (stores (database s) !! k). }
  assert (forall data,
            (request "Put request failed" ;; put c k data) (with_store k s)
            = (Resolved tt, written k data (with_store k s))) as Hput.
  { intros data. unfold bind. rewrite request_resolves by now rewrite Erf.
    unfold put, written, update_world, requested, database. fields.
    now rewrite Hc. }
  destruct (Codec.undefined_or v) as [->|Hu]; [exact (Hput _)|].
  unfold serializable in Hv. unfold text_of.
  destruct (JSON.stringify v) as [| |t] eqn:Es.
  - discriminate.
  - now apply Roundtrip.stringify_no_text in Es.
  - destruct v; try congruence; exact (Hput _).
Qed.

(** [getItem] on the persistent backend. *)
Lemma getItem_in_sync k s :
  in_sync s -> calm s ->
  getItem (VStr k) s
  = (match mjoin (stores (database s) !! k) with
     | Some t => decode t
     | None => Resolved VNull
     end, requested (with_store k s)).
Proof.
  intros H (Ho & Hr & _).
  apply no_fault_next in Ho as [Ho _]. apply no_fault_next in Hr as [Hr _].
  unfold getItem.
  unfold bind at 1. rewrite (initialize_in_sync s H).
  unfold bind at 1. unfold this at 1. cbn [fst].
  pose proof H as (_ & _ & Hf & _). rewrite Hf.
  unfold bind at 1. rewrite (ensure_in_sync k s H Ho).
  pose proof (with_store_in_sync k s H) as H1.
  destruct (transaction_in_sync k _ H1 (with_store_has k s)) as (c & Et & Hc).
  unfold bind at 1. rewrite Et.
  assert (request_faults (snd (with_store k s)) = request_faults (snd s)) as Erf.
  { unfold with_store. now destruct (stores (database s) !! k). }
  unfold bind at 1. rewrite request_resolves by now rewrite Erf.
  unfold bind at 1. unfold world at 1.
  unfold stored_data. rewrite Hc.
  change (database_of (config_dbName (fst (with_store k s)))
            (snd (requested (with_store k s))))
    with (database (with_store k s)).
  rewrite with_store_stores.
  destruct (stores (database s) !! k) as [[t|]|] eqn:E.
  - rewrite E. cbn [mjoin option_join]. apply getItem_onsuccess_decode.
  - rewrite E. reflexivity.
  - rewrite lookup_insert_eq. reflexivity.
Qed.


Lemma with_store_calm k s : calm s -> calm (with_store k s).
Proof.
  intros (Ho & Hr & Hd). unfold with_store.
  destruct (stores (database s) !! k); [now repeat split|].
  repeat split; fields; try assumption. now apply no_fault_next in Ho.
Qed.

Lemma written_calm k data s : calm s -> calm (written k data s).
Proof.
  intros (Ho & Hr & Hd). repeat split; unfold written; fields; try assumption.
  now apply no_fault_next in Hr.
Qed.

Lemma requested_calm s : calm s -> calm (requested s).
Proof.
  intros (Ho & Hr & Hd). repeat split; unfold requested; fields; try assumption.
  now apply no_fault_next in Hr.
Qed.

(** *** The first passage of the gate *)

Lemma database_of_lookup nm w :
  database_of nm w = default (mkDatabase 0 ∅) (databases w !! nm).
Proof. reflexivity. Qed.

Lemma initialize_connects s :
  unstarted s -> calm s -> indexedDB_present (snd s) = true ->
  1 <= config_version (fst s) ->
  version (database s) <= config_version (fst s) ->
  exists s1,
    _initialize s = (Resolved tt, s1) /\ in_sync s1 /\ calm s1
    /\ config_dbName (fst s1) = config_dbName (fst s)
    /\ config_version (fst s1) = config_version (fst s)
    /\ stores (database s1) = stores (database s)
    /\ version (database s1) = config_version (fst s)
    /\ memoryStore (fst s1) = memoryStore (fst s).
Proof.
  intros (Hi & Hp & Hf & Hcb) (Ho & Hr & Hd) Hpres Hpos Hle.
  destruct s as [[nm ver cb dbo fb mem ini ip] [pres dbs ofs rfs dfs pr]].
  unfold database in *. fields. subst.
  pose proof (no_fault_next _ Ho) as [Hh Ht].
  unfold _initialize, _doInitialize. run. cbn [negb].
  rewrite database_of_lookup in Hle. fields.
  destruct (Z.eq_dec (version (default (mkDatabase 0 ∅) (dbs !! nm))) ver)
    as [E|Hne].
  - rewrite open_current
      by (try rewrite database_of_lookup; fields; assumption).
    fields.
    eexists. split; [reflexivity|].
    destruct (dbs !! nm) as [[dv dst]|] eqn:Ed; cbn in E; [|lia].
    subst dv. unfold database. fields.
    rewrite !database_of_lookup. fields. rewrite Ed. cbn [default from_option id].
    repeat split; fields; try assumption.
    eexists _, _. repeat split; fields; [exact Ed|reflexivity|reflexivity].
  - rewrite open_upgrade
      by (try rewrite database_of_lookup; fields; first [assumption|lia]).
    fields. cbn [run_callback].
    eexists. split; [reflexivity|].
    unfold database. fields.
    rewrite !database_of_lookup. fields. rewrite lookup_insert_eq.
    cbn [default from_option id stores version].
    repeat split; fields; try assumption.
    eexists _, (mkDatabase _ _).
    repeat split; fields; try reflexivity. apply lookup_insert_eq.
Qed.

(** Without IndexedDB, when the open request ends with an error event,
    and when the database has a higher version than the configured one,
    the helper falls back to memory. *)
Lemma gate_falls_back s :
  unstarted s ->
  indexedDB_present (snd s) = false
  \/ (exists rest, open_faults (snd s) = true :: rest)
  \/ config_version (fst s) < version (database s) ->
  exists s1,
    _initialize s = (Resolved tt, s1)
    /\ isInitialized (fst s1) = true
    /\ useMemoryFallback (fst s1) = true
    /\ memoryStore (fst s1) = memoryStore (fst s)
    /\ databases (snd s1) = databases (snd s).
Proof.
  intros (Hi & Hp & Hf & Hcb) H.
  destruct s as [[nm ver cb dbo fb mem ini ip] [pres dbs ofs rfs dfs pr]].
  unfold database in *. fields. subst.
  unfold _initialize, _doInitialize. run.
  destruct pres; cbn [negb].
  - rewrite open_rejects.
    + eexists. split; [reflexivity|]. now repeat split.
    + fields. destruct H as [H|[H|H]]; [discriminate|left; exact H|right; exact H].
  - eexists. split; [reflexivity|]. now repeat split.
Qed.

(** An operation that finds the helper uninitialised continues in the
    state the gate leaves. *)
Lemma gate_open s :
  isInitialized (fst s) = true -> _initialize s = (Resolved tt, s).
Proof. intros Hi. unfold _initialize. run. now rewrite Hi. Qed.

Lemma getItem_after_gate k s s1 :
  _initialize s = (Resolved tt, s1) -> isInitialized (fst s1) = true ->
  getItem (VStr k) s = getItem (VStr k) s1.
Proof.
  intros E Hi. unfold getItem. unfold bind at 1. rewrite E.
  symmetry. unfold bind at 1. now rewrite (gate_open s1 Hi).
Qed.

Lemma getItem_memory k s :
  isInitialized (fst s) = true -> useMemoryFallback (fst s) = true ->
  getItem (VStr k) s = (Resolved (default VNull (memoryStore (fst s) !! k)), s).
Proof.
  intros Hi Hf. unfold getItem, _initialize. run. rewrite Hi, Hf.
  now destruct (memoryStore (fst s) !! k).
Qed.


(** *** [clear] and a failed reopening *)

Lemma clear_in_sync s :
  in_sync s ->
  match delete_faults (snd s) with true :: _ => False | _ => True end ->
  clear s
  = (Resolved tt,
     (set_initPromise None (set_isInitialized false (set_db None (fst s))),
      set_databases (delete (config_dbName (fst s)) (databases (snd s)))
        (set_delete_faults (tail (delete_faults (snd s))) (snd s)))).
Proof.
  intros H Hdf. unfold clear. unfold bind at 1. rewrite (initialize_in_sync s H).
  in_sync_state s H. run.
  now destruct dfs as [|[] rest].
Qed.

Lemma clear_fails s rest :
  in_sync s -> delete_faults (snd s) = true :: rest ->
  exists c,
    db (fst s) = Some c
    /\ clear s
       = (Rejected delete_error,
          (set_db (Some (close c)) (fst s), set_delete_faults rest (snd s))).
Proof.
  intros H Hdf. unfold clear. unfold bind at 1. rewrite (initialize_in_sync s H).
  in_sync_state s H. run. eexists. split; [reflexivity|]. reflexivity.
Qed.

Lemma getItem_reopen_fails k s rest :
  in_sync s -> stores (database s) !! k = None ->
  open_faults (snd s) = true :: rest ->
  exists c,
    db (fst s) = Some c
    /\ getItem (VStr k) s
       = (Rejected open_error,
          (set_upgradeCallback (EnsureStore NoCallback k)
             (set_config_version (config_version (fst s) + 1)
                (set_db (Some (close c)) (fst s))),
           set_open_faults rest (snd s))).
Proof.
  intros H Hk Hof. unfold getItem. unfold bind at 1.
  rewrite (initialize_in_sync s H).
  in_sync_state s H. unfold database in Hk. rewrite database_of_lookup in Hk.
  fields. rewrite Hd in Hk. cbn [default from_option id stores] in Hk.
  eexists. split; [reflexivity|].
  unfold _ensureObjectStore. run.
  rewrite bool_decide_false by now apply not_elem_of_dom.
  rewrite open_rejects by (left; eauto). reflexivity.
Qed.

(** On a closed connection no transaction starts. *)
Lemma getItem_closed k s c :
  isInitialized (fst s) = true -> useMemoryFallback (fst s) = false ->
  db (fst s) = Some c -> closed c = true -> k ∈ objectStoreNames c ->
  getItem (VStr k) s = (Rejected invalid_state_error, s).
Proof.
  intros Hi Hf Hdb Hcl Hk. unfold getItem. unfold bind at 1.
  rewrite (gate_open s Hi).
  destruct s as [[nm ver cb dbo fb mem ini ip] w]. destruct c as [cn names cl].
  fields. subst.
  unfold _ensureObjectStore, transaction. run.
  rewrite (bool_decide_true _ Hk). fields. reflexivity.
Qed.

Lemma setItem_closed k v s c :
  isInitialized (fst s) = true -> useMemoryFallback (fst s) = false ->
  db (fst s) = Some c -> closed c = true -> k ∈ objectStoreNames c ->
  setItem (VStr k) v s = (Rejected invalid_state_error, s).
Proof.
  intros Hi Hf Hdb Hcl Hk. unfold setItem. unfold bind at 1.
  rewrite (gate_open s Hi).
  destruct s as [[nm ver cb dbo fb mem ini ip] w]. destruct c as [cn names cl].
  fields. subst.
  unfold _ensureObjectStore, transaction. run.
  rewrite (bool_decide_true _ Hk). fields. reflexivity.
Qed.


(** *** States that are connected *)

Lemma connected_in_browser :
  in_sync (after _initialize in_browser) /\ calm (after _initialize in_browser).
Proof.
  destruct (initialize_connects in_browser) as (s1 & E & H1 & Hc1 & _).
  - now repeat split.
  - repeat split; constructor.
  - reflexivity.
  - vm_compute. discriminate.
  - vm_compute. discriminate.
  - unfold after. rewrite E. now split.
Qed.

Lemma after_setItem_in_sync s k v :
  in_sync s -> calm s -> storable v = true ->
  in_sync (after (setItem (VStr k) v) s) /\ calm (after (setItem (VStr k) v) s).
Proof.
  intros H Hc Hv. unfold after.
  rewrite (setItem_in_sync k v s H Hc (Codec.storable_serializable v Hv)).
  split.
  - apply written_in_sync; [now apply with_store_in_sync|apply with_store_has].
  - now apply written_calm, with_store_calm.
Qed.

Lemma in_sync_open_faults s l :
  in_sync s -> in_sync (fst s, set_open_faults l (snd s)).
Proof. intros H. exact H. Qed.

End ESFacts.

(** ** The ES module version: a store per key *)

(** X25. ES module version, persistent backend, no request failing:
    [setItem(k, v)] of a storable value resolves, [getItem(k)] then
    resolves with [v], and the database holds the text of [v] in the
    store [k] with the other stores as they were; its version is one
    more when the store had to be created, and the same otherwise. *)
Theorem es_setItem_then_getItem (s : ESModule.state) (k : string) (v : value) :
  ESModule.in_sync s -> ESModule.calm s -> storable v = true ->
  exists s1,
    ESModule.setItem (VStr k) v s = (Resolved tt, s1)
    /\ ESModule.in_sync s1 /\ ESModule.calm s1
    /\ fst (ESModule.getItem (VStr k) s1) = Resolved v
    /\ ESModule.stores (ESModule.database s1)
       = <[k := Some (text_of v)]> (ESModule.stores (ESModule.database s))
    /\ ESModule.version (ESModule.database s1)
       = match ESModule.stores (ESModule.database s) !! k with
         | Some _ => ESModule.version (ESModule.database s)
         | None => ESModule.version (ESModule.database s) + 1
         end.
Proof.
  intros H Hc Hv. eexists. split.
  { apply (ESFacts.setItem_in_sync k v s H Hc).
    now apply Codec.storable_serializable. }
  pose proof (ESFacts.with_store_in_sync k s H) as H1.
  pose proof (ESFacts.written_in_sync k (Some (text_of v)) _ H1
                (ESFacts.with_store_has k s)) as H2.
  pose proof (ESFacts.written_calm k (Some (text_of v)) _
                (ESFacts.with_store_calm k s Hc)) as Hc2.
  split; [exact H2|]. split; [exact Hc2|].
  assert (ESModule.stores (ESModule.database
            (ESModule.written k (Some (text_of v)) (ESModule.with_store k s)))
          = <[k := Some (text_of v)]> (ESModule.stores (ESModule.database s)))
    as Est.
  { rewrite ESFacts.written_stores, ESFacts.with_store_stores.
    destruct (ESModule.stores (ESModule.database s) !! k); [reflexivity|].
    apply insert_insert_eq. }
  split; [|split; [exact Est|]].
  - rewrite (ESFacts.getItem_in_sync k _ H2 Hc2). cbn [fst].
    rewrite Est, lookup_insert_eq. cbn [mjoin option_join].
    now apply ESFacts.text_reads_back.
  - rewrite ESFacts.written_version. now apply ESFacts.with_store_version.
Qed.

Lemma es_setItem_then_getItem_witness :
  exists s1,
    ESModule.setItem (VStr "theme") (VStr "dark")
      (ESModule.after ESModule._initialize ESModule.in_browser)
    = (Resolved tt, s1)
    /\ fst (ESModule.getItem (VStr "theme") s1) = Resolved (VStr "dark")
    /\ ESModule.version (ESModule.database s1) = 2.
Proof.
  destruct ESFacts.connected_in_browser as [H Hc].
  destruct (es_setItem_then_getItem _ "theme" (VStr "dark") H Hc eq_refl)
    as (s1 & E & _ & _ & Hg & _ & Hv).
  exists s1. split; [exact E|]. split; [exact Hg|].
  rewrite Hv. vm_compute. reflexivity.
Defined.

(** X26. ES module version, persistent backend, no request failing:
    [getItem(k)] resolves with what the store [k] holds, [null] when
    there is no such store or nothing in it; when there is no such
    store, the read creates it, which raises the version of the
    database and the configured version by one. *)
Theorem es_getItem_creates_the_store (s : ESModule.state) (k : string) :
  ESModule.in_sync s -> ESModule.calm s ->
  exists s1,
    ESModule.getItem (VStr k) s
    = (match mjoin (ESModule.stores (ESModule.database s) !! k) with
       | Some t => decode t
       | None => Resolved VNull
       end, s1)
    /\ ESModule.in_sync s1
    /\ match ESModule.stores (ESModule.database s) !! k with
       | Some _ =>
           ESModule.databases (snd s1) = ESModule.databases (snd s)
           /\ ESModule.config_version (fst s1) = ESModule.config_version (fst s)
       | None =>
           ESModule.stores (ESModule.database s1)
           = <[k := None]> (ESModule.stores (ESModule.database s))
           /\ ESModule.version (ESModule.database s1)
              = ESModule.version (ESModule.database s) + 1
           /\ ESModule.config_version (fst s1)
              = ESModule.config_version (fst s) + 1
       end.
Proof.
  intros H Hc. eexists. split; [exact (ESFacts.getItem_in_sync k s H Hc)|].
  split; [exact (ESFacts.with_store_in_sync k s H)|].
  pose proof (ESFacts.with_store_stores k s) as Es.
  pose proof (ESFacts.with_store_version k s H) as Ev.
  change (ESModule.database (ESModule.requested (ESModule.with_store k s)))
    with (ESModule.database (ESModule.with_store k s)).
  unfold ESModule.with_store in *.
  destruct (ESModule.stores (ESModule.database s) !! k); [now split|].
  repeat split; assumption.
Qed.

Lemma es_getItem_creates_the_store_witness :
  exists s1,
    ESModule.getItem (VStr "theme")
      (ESModule.after ESModule._initialize ESModule.in_browser)
    = (Resolved VNull, s1)
    /\ ESModule.version (ESModule.database s1) = 2.
Proof.
  destruct ESFacts.connected_in_browser as [H Hc].
  destruct (es_getItem_creates_the_store _ "theme" H Hc) as (s1 & E & _ & Hm).
  exists s1. split; [exact E|].
  change (ESModule.stores
            (ESModule.database
               (ESModule.after ESModule._initialize ESModule.in_browser))
          !! "theme") with (@None (option string)) in Hm.
  destruct Hm as (_ & -> & _). vm_compute. reflexivity.
Defined.

(** X27. ES module version: a new helper with the default configuration
    that finds its database at a version above 1, as it is once a key
    has been written, cannot open it: it falls back to memory, and
    [getItem] resolves with [null] for every key while the database
    keeps its data. *)
Theorem es_new_session_falls_back (w : ESModule.World) (k : string) :
  1 < ESModule.version (ESModule.database_of "app-db" w) ->
  exists s1,
    ESModule.getItem (VStr k) (ESModule.new_session w) = (Resolved VNull, s1)
    /\ ESModule.isUsingMemoryFallback s1 = true
    /\ ESModule.databases (snd s1) = ESModule.databases w.
Proof.
  intros Hlt.
  destruct (ESFacts.gate_falls_back (ESModule.new_session w))
    as (s1 & E & Hi & Hf & Hm & Hd).
  { now repeat split. }
  { right. right. exact Hlt. }
  exists s1. rewrite (ESFacts.getItem_after_gate k _ s1 E Hi).
  rewrite (ESFacts.getItem_memory k s1 Hi Hf), Hm.
  repeat split; assumption.
Qed.

Lemma es_new_session_falls_back_witness :
  let w := snd (ESModule.after (ESModule.setItem (VStr "theme") (VStr "dark"))
                  ESModule.in_browser) in
  ESModule.stores (ESModule.database_of "app-db" w) !! "theme"
  = Some (Some (text_of (VStr "dark")))
  /\ fst (ESModule.getItem (VStr "theme") (ESModule.new_session w))
     = Resolved VNull.
Proof.
  intros w. split; [vm_compute; reflexivity|].
  destruct (es_new_session_falls_back w "theme") as (s1 & -> & _).
  - vm_compute. reflexivity.
  - reflexivity.
Defined.

(** X28. ES module version, persistent backend: [clear()] deletes the
    configured database, with all its stores, and leaves the helper
    uninitialised at the version it had reached; other databases are
    not touched.  The next [getItem] opens a new database at that
    version, creates the store of its key and resolves with [null]. *)
Theorem es_clear_deletes_the_database (s : ESModule.state) :
  ESModule.in_sync s -> ESModule.calm s ->
  exists s1,
    ESModule.clear s = (Resolved tt, s1)
    /\ ESModule.databases (snd s1)
       = delete (ESModule.config_dbName (fst s)) (ESModule.databases (snd s))
    /\ ESModule.isInitialized (fst s1) = false
    /\ ESModule.config_version (fst s1) = ESModule.config_version (fst s)
    /\ forall k, exists s2,
         ESModule.getItem (VStr k) s1 = (Resolved VNull, s2)
         /\ ESModule.in_sync s2
         /\ ESModule.stores (ESModule.database s2) = {[ k := None ]}
         /\ ESModule.version (ESModule.database s2)
            = ESModule.config_version (fst s) + 1.
Proof.
  intros H Hc. eexists. split.
  { apply (ESFacts.clear_in_sync s H).
    destruct Hc as (_ & _ & Hd). now apply ESFacts.no_fault_next in Hd. }
  split; [reflexivity|]. split; [reflexivity|]. split; [reflexivity|].
  intros k.
  set (s1 := (_, _) : ESModule.state).
  assert (ESModule.database s1 = ESModule.mkDatabase 0 ∅) as Edb.
  { unfold ESModule.database, ESModule.database_of, s1. cbn.
    now rewrite lookup_delete_eq. }
  destruct (ESFacts.initialize_connects s1)
    as (s2 & E & H2 & Hc2 & Hn & Hv & Hst & Hver & _).
  { destruct H as (_ & _ & Hf & Hcb & _). now repeat split. }
  { destruct Hc as (Ho & Hr & Hd). repeat split; cbn; try assumption.
    now apply ESFacts.no_fault_next in Hd. }
  { now destruct H. }
  { now destruct H as (_ & _ & _ & _ & Hpos & _). }
  { rewrite Edb. cbn. destruct H as (_ & _ & _ & _ & Hpos & _). cbn. lia. }
  pose proof H2 as (_ & Hi & _).
  rewrite (ESFacts.getItem_after_gate k s1 s2 E Hi).
  rewrite (ESFacts.getItem_in_sync k s2 H2 Hc2).
  rewrite Hst, Edb. cbn [ESModule.stores].
  rewrite lookup_empty. cbn [mjoin option_join].
  eexists. split; [reflexivity|].
  split; [exact (ESFacts.with_store_in_sync k s2 H2)|].
  change (ESModule.database (ESModule.requested (ESModule.with_store k s2)))
    with (ESModule.database (ESModule.with_store k s2)).
  rewrite ESFacts.with_store_stores, (ESFacts.with_store_version k s2 H2).
  rewrite Hst, Edb. cbn [ESModule.stores]. rewrite lookup_empty.
  split; [reflexivity|]. rewrite Hver. reflexivity.
Qed.

Lemma es_clear_deletes_the_database_witness :
  exists s1,
    ESModule.clear
      (ESModule.after (ESModule.setItem (VStr "theme") (VStr "dark"))
         (ESModule.after ESModule._initialize ESModule.in_browser))
    = (Resolved tt, s1)
    /\ ESModule.databases (snd s1) = ∅
    /\ fst (ESModule.getItem (VStr "theme") s1) = Resolved VNull.
Proof.
  destruct ESFacts.connected_in_browser as [H Hc].
  destruct (ESFacts.after_setItem_in_sync _ "theme" (VStr "dark") H Hc eq_refl)
    as [H1 Hc1].
  destruct (es_clear_deletes_the_database _ H1 Hc1) as (s1 & E & Hd & _ & _ & Hg).
  exists s1. split; [exact E|]. split.
  - rewrite Hd. vm_compute. reflexivity.
  - destruct (Hg "theme") as (s2 & -> & _). reflexivity.
Defined.

(** X29. ES module version, persistent backend: when the reopening that
    creates the store of a new key ends with an error event, [getItem]
    rejects with the [OPEN_FAILURE] error; the helper does not fall
    back to memory but keeps the connection it has closed, so that
    [getItem] and [setItem] of every key that has a store reject from
    then on, without a code and without a request. *)
Theorem es_failed_reopening (s : ESModule.state) (k : string) (rest : list bool) :
  ESModule.in_sync s ->
  ESModule.stores (ESModule.database s) !! k = None ->
  ESModule.open_faults (snd s) = true :: rest ->
  exists s1,
    ESModule.getItem (VStr k) s = (Rejected open_error, s1)
    /\ ESModule.isUsingMemoryFallback s1 = false
    /\ ESModule.databases (snd s1) = ESModule.databases (snd s)
    /\ ESModule.config_version (fst s1) = ESModule.config_version (fst s) + 1
    /\ forall k' v,
         is_Some (ESModule.stores (ESModule.database s) !! k') ->
         ESModule.getItem (VStr k') s1
         = (Rejected ESModule.invalid_state_error, s1)
         /\ ESModule.setItem (VStr k') v s1
            = (Rejected ESModule.invalid_state_error, s1).
Proof.
  intros H Hk Hof.
  destruct (ESFacts.getItem_reopen_fails k s rest H Hk Hof) as (c & Hdb & E).
  eexists. split; [exact E|].
  pose proof H as (_ & Hi & Hf & _ & _ & c' & d & Hdb' & _ & Hn & Hd & _ & Hdom).
  rewrite Hdb in Hdb'. injection Hdb' as <-.
  split; [exact Hf|]. split; [reflexivity|]. split; [reflexivity|].
  intros k' v Hk'.
  assert (k' ∈ ESModule.objectStoreNames (ESModule.close c)) as Hin.
  { cbn. rewrite <- Hdom. apply elem_of_dom.
    unfold ESModule.database, ESModule.database_of in Hk'.
    rewrite <- Hn, Hd in Hk'. exact Hk'. }
  split.
  - now apply (ESFacts.getItem_closed k' _ (ESModule.close c)).
  - now apply (ESFacts.setItem_closed k' v _ (ESModule.close c)).
Qed.

Lemma es_failed_reopening_witness :
  let s0 := ESModule.after (ESModule.setItem (VStr "theme") (VStr "dark"))
              (ESModule.after ESModule._initialize ESModule.in_browser) in
  let s := (fst s0, ESModule.set_open_faults [true] (snd s0)) in
  exists s1,
    ESModule.getItem (VStr "count") s = (Rejected open_error, s1)
    /\ fst (ESModule.getItem (VStr "theme") s1)
       = Rejected ESModule.invalid_state_error.
Proof.
  intros s0 s.
  destruct ESFacts.connected_in_browser as [H Hc].
  destruct (ESFacts.after_setItem_in_sync _ "theme" (VStr "dark") H Hc eq_refl)
    as [H1 _].
  destruct (es_failed_reopening s "count" []
              (ESFacts.in_sync_open_faults s0 [true] H1))
    as (s1 & E & _ & _ & _ & Hk).
  - vm_compute. reflexivity.
  - reflexivity.
  - exists s1. split; [exact E|].
    destruct (Hk "theme" VNull) as [-> _]; [|reflexivity].
    vm_compute. eauto.
Defined.

(** X30. ES module version: a new helper configured with a version that
    is not below the one its database has connects to it, and [getItem]
    resolves with what the stores of the database hold. *)
Theorem es_configured_version_connects (w : ESModule.World) (k : string) (n : Z) :
  ESModule.indexedDB_present w = true ->
  ESModule.calm (ESModule.new_session w) ->
  1 <= n -> ESModule.version (ESModule.database_of "app-db" w) <= n ->
  exists s0 s1,
    ESModule.configure VUndefined (VNum n) (ESModule.new_session w)
    = (Resolved tt, s0)
    /\ ESModule.getItem (VStr k) s0
       = (match mjoin (ESModule.stores (ESModule.database_of "app-db" w) !! k) with
          | Some t => decode t
          | None => Resolved VNull
          end, s1)
    /\ ESModule.isUsingMemoryFallback s1 = false.
Proof.
  intros Hp Hc Hn Hle.
  assert ((n <? 1) = false) as En by (apply Z.ltb_ge; lia).
  set (s0 := (ESModule.mkHelper "app-db" n ESModule.NoCallback None false ∅
                 false None, w) : ESModule.state).
  destruct (ESFacts.initialize_connects s0)
    as (s1 & E & H1 & Hc1 & _ & _ & Hst & _); try assumption; try now repeat split.
  pose proof H1 as (_ & Hi & _).
  exists s0. eexists.
  split; [unfold ESModule.configure; now rewrite En|].
  rewrite (ESFacts.getItem_after_gate k s0 s1 E Hi).
  rewrite (ESFacts.getItem_in_sync k s1 H1 Hc1), Hst.
  split; [reflexivity|].
  exact (proj1 (proj2 (proj2 (ESFacts.with_store_in_sync k s1 H1)))).
Qed.

Lemma es_configured_version_connects_witness :
  let w := snd (ESModule.after (ESModule.setItem (VStr "theme") (VStr "dark"))
                  ESModule.in_browser) in
  fst ((ESModule.bind (ESModule.configure VUndefined (VNum 2))
          (fun _ => ESModule.getItem (VStr "theme"))) (ESModule.new_session w))
  = Resolved (VStr "dark").
Proof.
  intros w.
  destruct (es_configured_version_connects w "theme" 2) as (s0 & s1 & E & Eg & _).
  - reflexivity.
  - repeat split; vm_compute; constructor.
  - lia.
  - vm_compute. discriminate.
  - unfold ESModule.bind. rewrite E, Eg. vm_compute. reflexivity.
Defined.
